(** * M17 merchant management: menu, inventory and statistics services

    A shallow embedding of the service layer of the merchant-management
    backend (data store helpers, menu service, inventory service and
    statistics service) together with the properties of the written
    specification that concern them.

    Conventions of the embedding.
    - A JSON collection is a [list] of records, in file order; lookups
      are the first-match scans the JavaScript performs ([Array.find],
      [Array.findIndex]).
    - Integer quantities (stock, thresholds, adjustments) are [Z].
    - Other numbers are IEEE binary64 numbers: a [JS.num] is the exact
      value of a double (a rational), [Infinity], [-Infinity] or [NaN],
      and every arithmetic operation rounds its exact result to the
      nearest double, ties to even ([JS.rnd]).  A numeric field of a
      JSON file is kept as the decimal number written there and becomes
      a double when it is read ([JS.lit]).  Doubles have 53 significant
      bits here but no bound on the exponent: overflow to [Infinity]
      and the subnormal numbers, which start at magnitudes of 1e308 and
      1e-308, are not modelled, and zero has no sign.
    - Every service method runs in the monad [M]: it receives the
      behaviour of the file system ([IO], which reads and writes fail),
      threads the files and the error log, and returns a value or the
      error it throws. *)

From Stdlib Require Import List String Ascii Bool Arith ZArith NArith QArith Lia.
From Stdlib Require Import Permutation Sorted.
From Stdlib Require Import DecimalString DecimalNat DecimalN Finite.
From Stdlib Require Import Qround Qabs Qpower Lqa.
From Stdlib Require Import Reals Qreals Lra.
Import ListNotations.

Local Open Scope string_scope.
Local Open Scope list_scope.
Local Open Scope Z_scope.

(* ================================================================== *)
(** * JavaScript values used by the services *)
(* ================================================================== *)

Module JS.

(** [a || b] on numbers that are integers: [0] is falsy. *)
Definition orZ (a : option Z) (b : Z) : Z :=
  match a with
  | Some v => if v =? 0 then b else v
  | None => b
  end.

(** [a || b] on strings: the empty string is falsy. *)
Definition orStr (a : option string) (b : string) : string :=
  match a with
  | Some v => if String.eqb v "" then b else v
  | None => b
  end.

(** [a || b] on booleans. *)
Definition orBool (a : option bool) (b : bool) : bool :=
  match a with
  | Some v => v || b
  | None => b
  end.

(** [a || b] on arrays: every array, also the empty one, is truthy. *)
Definition orList {A} (a : option (list A)) (b : list A) : list A :=
  match a with
  | Some v => v
  | None => b
  end.

(** [a || b] on rationals. *)
Definition orQ (a : option Q) (b : Q) : Q :=
  match a with
  | Some v => if Qeq_bool v 0 then b else v
  | None => b
  end.

(** A key of an object literal that is spread over another object: the
    key may be absent, or present with a value that may be [undefined]. *)
Inductive field (A : Type) : Type :=
| Absent
| Present (v : option A).
Arguments Absent {A}.
Arguments Present {A} v.

(** [obj.key]: an absent key reads as [undefined]. *)
Definition read {A} (f : field A) : option A :=
  match f with
  | Absent => None
  | Present v => v
  end.

(** The value of [key] in [{...old, ...patch}]. *)
Definition spread {A} (old : option A) (f : field A) : option A :=
  match f with
  | Absent => old
  | Present v => v
  end.

(** [`${n}`] for a natural number: its decimal numeral. *)
Definition natToString (n : nat) : string :=
  NilEmpty.string_of_uint (Nat.to_uint n).

(** ** Numbers

    A number is the exact value of a double or one of the three special
    values.  The operations follow IEEE 754: the exact result is rounded
    to the nearest double, ties to even; infinities, [NaN] and division
    by zero are as in the standard.  Zero has no sign and the exponent
    is not bounded. *)
Inductive num :=
| Fin (q : Q)
| PInf                                         (* Infinity *)
| NInf                                         (* -Infinity *)
| NaN.

Definition zero : num := Fin 0.

(** The largest power of two that is at most [a], for [a > 0]. *)
Definition binade (a : Q) : Q :=
  let e := Z.log2 (Qnum a) - Z.log2 (Zpos (Qden a)) in
  if Qle_bool (Qpower 2 e) a then Qpower 2 e else Qpower 2 (e - 1).

(** The integer nearest to [x], the even one at a tie. *)
Definition nearestEven (x : Q) : Z :=
  let f := Qfloor x in
  match (x - inject_Z f ?= 1 # 2)%Q with
  | Lt => f
  | Gt => f + 1
  | Eq => if Z.even f then f else f + 1
  end.

(** The double nearest to a rational: the multiple of the unit in the
    last place (the binade over 2^52, which leaves 53 significant bits)
    that is nearest to it, the even multiple at a tie. *)
Definition rnd (q : Q) : Q :=
  let q := Qred q in
  if Qeq_bool q 0 then 0%Q
  else
    let a := Qabs q in
    let ulp := (binade a * (1 # 2 ^ 52))%Q in
    let v := (inject_Z (nearestEven (a / ulp)) * ulp)%Q in
    Qred (if Qnum q <? 0 then - v else v).

(** A decimal literal, in the source or in a JSON file, as a number. *)
Definition lit (q : Q) : num := Fin (rnd q).

Definition sgn (q : Q) : Z := Z.sgn (Qnum q).

(** The infinity of a given sign; [0 * Infinity] and the like are [NaN]. *)
Definition inf (s : Z) : num :=
  match s with
  | Z0 => NaN
  | Zpos _ => PInf
  | Zneg _ => NInf
  end.

Definition sgnNum (x : num) : option Z :=
  match x with
  | Fin q => Some (sgn q)
  | PInf => Some 1
  | NInf => Some (-1)
  | NaN => None
  end.

Definition neg (x : num) : num :=
  match x with
  | Fin q => Fin (rnd (- q))
  | PInf => NInf
  | NInf => PInf
  | NaN => NaN
  end.

(** [x + y] *)
Definition add (x y : num) : num :=
  match x, y with
  | NaN, _ | _, NaN => NaN
  | Fin a, Fin b => Fin (rnd (a + b))
  | PInf, NInf | NInf, PInf => NaN
  | PInf, _ | _, PInf => PInf
  | NInf, _ | _, NInf => NInf
  end.

(** [x - y] *)
Definition sub (x y : num) : num :=
  match x, y with
  | Fin a, Fin b => Fin (rnd (a - b))
  | _, _ => add x (neg y)
  end.

(** [x * y] *)
Definition mul (x y : num) : num :=
  match x, y with
  | Fin a, Fin b => Fin (rnd (a * b))
  | _, _ =>
      match sgnNum x, sgnNum y with
      | Some s, Some t => inf (s * t)
      | _, _ => NaN
      end
  end.

(** [x / y]: a non-zero number over zero is an infinity, [0 / 0] is [NaN]. *)
Definition div (x y : num) : num :=
  match x, y with
  | NaN, _ | _, NaN => NaN
  | Fin a, Fin b =>
      if Qeq_bool b 0 then inf (sgn a) else Fin (rnd (a / b))
  | Fin _, _ => Fin 0
  | _, Fin b =>
      match sgnNum x with
      | Some s => inf (if sgn b =? 0 then s else s * sgn b)
      | None => NaN
      end
  | _, _ => NaN
  end.

(** [x > y]; every comparison with [NaN] is false. *)
Definition gtb (x y : num) : bool :=
  match x, y with
  | NaN, _ | _, NaN => false
  | Fin a, Fin b => negb (Qle_bool a b)
  | PInf, PInf => false
  | PInf, _ => true
  | _, NInf => match x with NInf => false | _ => true end
  | _, _ => false
  end.

(** [x < y] *)
Definition ltb (x y : num) : bool := gtb y x.

Definition isFinite (x : num) : bool :=
  match x with
  | Fin _ => true
  | _ => false
  end.

(** A value that is a number or a string, as the result of
    [cond ? x.toFixed(2) : 0] is. *)
Inductive value :=
| VNum (n : num)
| VStr (s : string).

(** ** Number.prototype.toFixed(2) *)

Definition NtoString (n : N) : string := NilEmpty.string_of_uint (N.to_uint n).

(** The two decimals, for a number of hundredths below 100. *)
Definition twoDigits (m : nat) : string :=
  if (m <? 10)%nat
  then "0" ++ natToString m
  else natToString m.

(** The integer [n] for which [n / 100 - |q|] is as close to zero as
    possible, the larger one when there are two; [q] is the exact value
    of the double. *)
Definition hundredths (q : Q) : Z := Qfloor (Qabs q * 100 + (1 # 2)).

(** [x.toFixed(2)].  (From 1e21 upward JavaScript switches to the
    exponent form; here the fixed form is kept throughout.) *)
Definition toFixed2 (x : num) : string :=
  match x with
  | NaN => "NaN"
  | PInf => "Infinity"
  | NInf => "-Infinity"
  | Fin q =>
      let n := hundredths q in
      (if Qnum q <? 0 then "-" else "") ++
      NtoString (Z.to_N (n / 100)) ++ "." ++ twoDigits (Z.to_nat (n mod 100))
  end.

(** ** parseFloat *)

Definition isDigit (c : ascii) : bool :=
  let n := nat_of_ascii c in ((48 <=? n) && (n <=? 57))%nat.

(** The longest prefix of digits, and what follows it. *)
Fixpoint spanDigits (s : string) : string * string :=
  match s with
  | String c r =>
      if isDigit c
      then let (d, rest) := spanDigits r in (String c d, rest)
      else ("", s)
  | EmptyString => ("", "")
  end.

Definition digitsValue (d : string) : N :=
  match NilEmpty.uint_of_string d with
  | Some u => N.of_uint u
  | None => 0%N
  end.

Definition isSpace (c : ascii) : bool :=
  let n := nat_of_ascii c in ((n =? 32) || ((9 <=? n) && (n <=? 13)))%nat.

Fixpoint skipSpaces (s : string) : string :=
  match s with
  | String c r => if isSpace c then skipSpaces r else s
  | EmptyString => s
  end.

(** [parseFloat(s)] on a string: leading blanks, a sign, then
    [Infinity] or the longest decimal literal, which gives the double
    nearest to it; [NaN] when there is no digit.  (The exponent part of
    a literal is not read: [toFixed2] writes none.) *)
Definition parseFloat (s : string) : num :=
  let s0 := skipSpaces s in
  let (negative, s1) :=
    match s0 with
    | String "-" r => (true, r)
    | String "+" r => (false, r)
    | _ => (false, s0)
    end in
  if String.prefix "Infinity" s1 then (if negative then NInf else PInf)
  else
    let (ip, s2) := spanDigits s1 in
    let fp := match s2 with
              | String "." r => fst (spanDigits r)
              | _ => ""
              end in
    if ((String.length ip + String.length fp) =? 0)%nat then NaN
    else
      let scale := 10 ^ Z.of_nat (String.length fp) in
      let m := Z.of_N (digitsValue ip) * scale + Z.of_N (digitsValue fp) in
      lit ((if negative then - m else m) # Z.to_pos scale).

(** [parseFloat(v)]: a number is first converted to a string and read
    back, which gives the number again. *)
Definition parseFloatOf (v : value) : num :=
  match v with
  | VNum n => n
  | VStr s => parseFloat s
  end.

(** What [parseFloat(x.toFixed(2))] gives (lemma
    [parseFloat_toFixed2]): the double nearest to the multiple of 1/100
    that [toFixed2] writes; the special values are left alone. *)
Definition roundTo2 (x : num) : num :=
  match x with
  | Fin q =>
      let n := hundredths q in
      lit ((if Qnum q <? 0 then - n else n) # 100)
  | _ => x
  end.

(** [y] is [x] rounded to two decimals: the double nearest to [n / 100],
    where [n / 100] is the multiple of 1/100 nearest to [x], the one
    away from zero at a tie. *)
Definition rounded2 (x : Q) (y : num) : Prop :=
  exists n : Z,
    (inject_Z n - (1 # 2) <= Qabs x * 100)%Q /\
    (Qabs x * 100 < inject_Z n + (1 # 2))%Q /\
    ((x < 0)%Q -> y = lit (- n # 100)) /\
    ((0 <= x)%Q -> y = lit (n # 100)).

(** [u] is [v] up to a relative error of [k]. *)
Definition within (k : Q) (u v : Q) : Prop :=
  (Qabs (u - v) <= Qabs v * k)%Q.

End JS.

(* ================================================================== *)
(** * Entities *)
(* ================================================================== *)

Definition Timestamp := string.

Module Category.
Record t := mk {
  id : string;
  name : string;
  description : string;
  sortOrder : Z;
  isActive : bool;
  createdAt : Timestamp;
  updatedAt : Timestamp
}.

(** The object passed to [updateCategory]; [None] is an absent key.
    (A key [id] or [updatedAt] of the object is overwritten by the
    service and is left out.) *)
Record patch := mkPatch {
  p_name : option string;
  p_description : option string;
  p_sortOrder : option Z;
  p_isActive : option bool;
  p_createdAt : option Timestamp
}.
End Category.

Module Dish.
Record t := mk {
  id : string;
  categoryId : string;
  name : string;
  description : string;
  price : Q;
  status : string;
  stock : Z;
  imageUrl : string;
  ingredients : list string;
  allergens : list string;
  preparationTime : Z;
  calories : Z;
  isSpicy : bool;
  isVegetarian : bool;
  createdAt : Timestamp;
  updatedAt : Timestamp
}.

(** The request body handed to [createDish]; [None] is a missing key. *)
Record data := mkData {
  d_name : option string;
  d_categoryId : option string;
  d_price : option Q;
  d_description : option string;
  d_status : option string;
  d_stock : option Z;
  d_imageUrl : option string;
  d_ingredients : option (list string);
  d_allergens : option (list string);
  d_preparationTime : option Z;
  d_calories : option Z;
  d_isSpicy : option bool;
  d_isVegetarian : option bool
}.

Definition setStock (v : Z) (now : Timestamp) (d : t) : t :=
  mk (id d) (categoryId d) (name d) (description d) (price d) (status d) v
     (imageUrl d) (ingredients d) (allergens d) (preparationTime d)
     (calories d) (isSpicy d) (isVegetarian d) (createdAt d) now.
End Dish.

Module Item.
(** One inventory record. *)
Record t := mk {
  dishId : string;
  stock : Z;
  alertThreshold : option Z;
  lastUpdated : Timestamp;
  supplier : option string;
  cost : option Q;
  expiryDate : option string;
  adjustmentReason : option string;
  lastAdjustment : option Z;
  lastAdjustmentDate : option Timestamp
}.

(** The [additionalData] argument of [updateDishStock].  The callers in
    the repository pass these keys and no others. *)
Record extra := mkExtra {
  x_alertThreshold : JS.field Z;
  x_supplier : JS.field string;
  x_cost : JS.field Q;
  x_expiryDate : JS.field string;
  x_adjustmentReason : JS.field string;
  x_lastAdjustment : JS.field Z;
  x_lastAdjustmentDate : JS.field Timestamp
}.

(** [{}], the default of [additionalData]. *)
Definition noExtra : extra :=
  mkExtra JS.Absent JS.Absent JS.Absent JS.Absent JS.Absent JS.Absent JS.Absent.

Definition setStock (v : Z) (now : Timestamp) (r : t) : t :=
  mk (dishId r) v (alertThreshold r) now (supplier r) (cost r) (expiryDate r)
     (adjustmentReason r) (lastAdjustment r) (lastAdjustmentDate r).

(** An inventory record joined with its dish, as the low-stock and
    out-of-stock listings return it. *)
Record enriched := mkEnriched {
  item : t;
  dishName : string;
  dishPrice : Q;
  dishStatus : string;
  categoryId : option string
}.
End Item.

Module Promotion.
Record t := mk {
  id : string;
  applicableDishes : list string;
  totalOrders : Q;
  totalRevenue : Q;
  discountGiven : Q;
  conversionRate : Q;
  startDate : string;
  endDate : string
}.

Record overall := mkOverall {
  totalPromotionalOrders : Q;
  totalPromotionalRevenue : Q;
  totalDiscountGiven : Q;
  averageConversionRate : Q
}.

(** The content of promotions.stats.json. *)
Record stats := mkStats {
  activePromotions : list t;
  completedPromotions : list t;
  overallStats : overall
}.
End Promotion.

Module TopDish.
Record t := mk {
  dishId : string;
  orders : Q;
  revenue : Q
}.

Record enriched := mkEnriched {
  entry : t;
  dishName : string;
  dishPrice : Q;
  categoryId : option string
}.
End TopDish.

Module PeakHour.
Record t := mk {
  hour : string;
  orders : Q
}.

Record withRevenue := mkWithRevenue {
  entry : t;
  revenue : string
}.
End PeakHour.

Module Orders.
(** The content of orders.stats.json. *)
Record stats := mkStats {
  todayRevenue : Q;
  yesterdayRevenue : Q;
  todayOrders : Q;
  yesterdayOrders : Q;
  averageOrderValue : Q;
  ordersByStatus : list (string * Q);
  topDishes : list TopDish.t;
  peakHours : list PeakHour.t
}.
End Orders.

Module DishReview.
(** An entry of [dishReviews] joined with its dish, as
    [getReviewStatistics] hands it to [findTopRatedDish].  A review
    count is a natural number. *)
Record t := mk {
  dishId : string;
  averageRating : Q;
  totalReviews : N;
  dishName : string;
  dishPrice : Q;
  categoryId : option string
}.
End DishReview.

Module Month.
(** An entry of [monthlyTrend]. *)
Record t := mk {
  month : string;
  averageRating : Q;
  totalReviews : N
}.
End Month.

(* ================================================================== *)
(** * The data store *)
(* ================================================================== *)

Module DataStore.

Inductive File := Categories | Dishes | Inventory | OrdersStats | PromotionsStats.

Definition File_eqb (a b : File) : bool :=
  match a, b with
  | Categories, Categories | Dishes, Dishes | Inventory, Inventory
  | OrdersStats, OrdersStats | PromotionsStats, PromotionsStats => true
  | _, _ => false
  end.

(** The content of the JSON files. *)
Record Store := mkStore {
  categories : list Category.t;
  dishes : list Dish.t;
  inventory : list Item.t;
  ordersStats : Orders.stats;
  promotionsStats : Promotion.stats
}.

(** The errors the services throw; the comment gives the message. *)
Inductive Error :=
| ReadFailed (f : File)            (* Failed to read data from <f>.json *)
| WriteFailed (f : File)           (* Failed to write data to <f>.json *)
| MissingRequiredFields (fields : list string)
                                   (* Missing required fields: ... *)
| CategoryNotFound (categoryId : string)
                                   (* Category not found: <id> *)
| CategoryHasDishes (n : nat)      (* Cannot delete category with existing
                                      dishes. Found <n> dishes ... *)
| InventoryNotFound (dishId : string).
                                   (* Inventory not found for dish: <id> *)

(** How the controllers answer an error of the service: by the text of
    its message, and with 500 for anything they do not recognise. *)
Inductive Kind := ValidationError | NotFoundError | ConflictError | InternalError.

Definition kind (e : Error) : Kind :=
  match e with
  | CategoryNotFound _ => ValidationError       (* 400 INVALID_CATEGORY *)
  | InventoryNotFound _ => NotFoundError        (* 404 NOT_FOUND *)
  | CategoryHasDishes _ => ConflictError        (* 409 CONFLICT *)
  | MissingRequiredFields _ => InternalError
  | ReadFailed _ | WriteFailed _ => InternalError
  end.

(** One [logger.error] call: its message and the error it was given. *)
Record LogEntry := mkLog { message : string; cause : Error }.

Record World := mkWorld {
  files : Store;
  errorLog : list LogEntry
}.

(** The file system as the services meet it: which reads and which
    writes throw. *)
Record IO := mkIO {
  readFails : File -> bool;
  writeFails : File -> bool;
  now : Timestamp                  (* new Date().toISOString() *)
}.

Definition reliable (t : Timestamp) : IO := mkIO (fun _ => false) (fun _ => false) t.

Inductive Result (A : Type) : Type :=
| Ok (a : A)
| Err (e : Error).
Arguments Ok {A} a.
Arguments Err {A} e.

Definition M (A : Type) : Type := IO -> World -> Result A * World.

Definition ret {A} (a : A) : M A := fun _ w => (Ok a, w).

Definition bind {A B} (m : M A) (k : A -> M B) : M B :=
  fun io w =>
    match m io w with
    | (Ok a, w') => k a io w'
    | (Err e, w') => (Err e, w')
    end.

Definition throw {A} (e : Error) : M A := fun _ w => (Err e, w).

Definition clock : M Timestamp := fun io w => (Ok (now io), w).

Definition logError (msg : string) (e : Error) : M unit :=
  fun _ w => (Ok tt, mkWorld (files w) (errorLog w ++ [mkLog msg e])).

(** [try { body } catch (error) { logger.error(msg, error); throw error; }] *)
Definition tryLog {A} (msg : string) (body : M A) : M A :=
  fun io w =>
    match body io w with
    | (Ok a, w') => (Ok a, w')
    | (Err e, w') => (Err e, mkWorld (files w') (errorLog w' ++ [mkLog msg e]))
    end.

(** [try { body } catch (error) { logger.error(msg, error); }]: the error
    is logged and the method returns normally. *)
Definition trySwallow (msg : string) (body : M unit) : M unit :=
  fun io w =>
    match body io w with
    | (Ok a, w') => (Ok a, w')
    | (Err e, w') => (Ok tt, mkWorld (files w') (errorLog w' ++ [mkLog msg e]))
    end.

Definition fileName (f : File) : string :=
  match f with
  | Categories => "categories"
  | Dishes => "dishes"
  | Inventory => "inventory"
  | OrdersStats => "orders.stats"
  | PromotionsStats => "promotions.stats"
  end.

(** [readData(filename)]: the parsed content, or the error is logged and
    rethrown as "Failed to read data". *)
Definition readData {A} (f : File) (get : Store -> A) : M A :=
  fun io w =>
    if readFails io f
    then (Err (ReadFailed f),
          mkWorld (files w)
            (errorLog w ++ [mkLog ("Error reading data from " ++ fileName f ++ ".json:")%string
                                  (ReadFailed f)]))
    else (Ok (get (files w)), w).

(** [writeData(filename, data)]: replaces the file as a whole.  (The
    backup copy it takes first never makes it fail and is left out.) *)
Definition writeData {A} (f : File) (set : A -> Store -> Store) (data : A) : M unit :=
  fun io w =>
    if writeFails io f
    then (Err (WriteFailed f),
          mkWorld (files w)
            (errorLog w ++ [mkLog ("Error writing data to " ++ fileName f ++ ".json:")%string
                                  (WriteFailed f)]))
    else (Ok tt, mkWorld (set data (files w)) (errorLog w)).

Definition setCategories (l : list Category.t) (s : Store) : Store :=
  mkStore l (dishes s) (inventory s) (ordersStats s) (promotionsStats s).
Definition setDishes (l : list Dish.t) (s : Store) : Store :=
  mkStore (categories s) l (inventory s) (ordersStats s) (promotionsStats s).
Definition setInventory (l : list Item.t) (s : Store) : Store :=
  mkStore (categories s) (dishes s) l (ordersStats s) (promotionsStats s).

(** Records that carry an [id] property. *)
Class HasId (A : Type) := getId : A -> string.
#[global] Instance Category_HasId : HasId Category.t := Category.id.
#[global] Instance Dish_HasId : HasId Dish.t := Dish.id.

(** [findById(data, id)]: the first item with that id, or [null]. *)
Definition findById {A} `{HasId A} (data : list A) (id : string) : option A :=
  find (fun item => String.eqb (getId item) id) data.

(** [Array.prototype.findIndex]; [None] stands for [-1]. *)
Fixpoint findIndex {A} (p : A -> bool) (l : list A) : option nat :=
  match l with
  | [] => None
  | x :: l' => if p x then Some 0%nat else option_map S (findIndex p l')
  end.

(** [findIndexById(data, id)]. *)
Definition findIndexById {A} `{HasId A} (data : list A) (id : string) : option nat :=
  findIndex (fun item => String.eqb (getId item) id) data.

(** [data[i] = v] for an index inside the array. *)
Fixpoint setNth {A} (i : nat) (v : A) (l : list A) : list A :=
  match l, i with
  | [], _ => []
  | _ :: l', O => v :: l'
  | x :: l', S i' => x :: setNth i' v l'
  end.

(** The loop of [generateId]: [fuel] bounds the number of candidates
    tried; with [fuel] the length of [existing] the bound is never met
    (lemma [generateId_fresh]). *)
Fixpoint generateId_loop (fuel : nat) (prefix : string) (existing : list string)
    (counter : nat) : string :=
  let newId := (prefix ++ JS.natToString counter)%string in
  match fuel with
  | O => newId
  | S fuel' =>
      if existsb (String.eqb newId) existing
      then generateId_loop fuel' prefix existing (S counter)
      else newId
  end.

(** [generateId(prefix, existingData)]: [prefix] followed by the smallest
    counter from 1 whose id is unused. *)
Definition generateId {A} `{HasId A} (prefix : string) (existingData : list A) : string :=
  generateId_loop (List.length existingData) prefix (map getId existingData) 1%nat.

(** [validateRequiredFields(obj, requiredFields)], on the fields as
    (name, is it undefined, null or the empty string). *)
Definition validateRequiredFields (fields : list (string * bool)) : M unit :=
  let missingFields := map fst (filter snd fields) in
  if (0 <? List.length missingFields)%nat
  then throw (MissingRequiredFields missingFields)
  else ret tt.

Definition missingStr (o : option string) : bool :=
  match o with
  | None => true
  | Some s => String.eqb s ""
  end.

Definition missing {A} (o : option A) : bool :=
  match o with
  | None => true
  | Some _ => false
  end.

End DataStore.

Import DataStore.

Declare Scope m_scope.
Delimit Scope m_scope with m.
Notation "x <- m ;; k" := (bind m (fun x => k))
  (at level 61, m at next level, right associativity) : m_scope.
Notation "m ;;; k" := (bind m (fun _ => k))
  (at level 61, right associativity) : m_scope.

Local Open Scope m_scope.

(* ================================================================== *)
(** * Menu service *)
(* ================================================================== *)

Module MenuService.

(** [getCategoryById(categoryId)] *)
Definition getCategoryById (categoryId : string) : M (option Category.t) :=
  tryLog ("Error getting category " ++ categoryId ++ ":")%string
    (categories <- readData Categories categories ;;
     ret (findById categories categoryId)).

(** [{...category, ...updateData, id: categoryId,
      ...addTimestamps({}, true)}]: the last spread sets [updatedAt]
    only, so a [createdAt] of [updateData] stays. *)
Definition mergeCategory (c : Category.t) (updateData : Category.patch)
    (categoryId : string) (t : Timestamp) : Category.t :=
  Category.mk categoryId
    (match Category.p_name updateData with Some v => v | None => Category.name c end)
    (match Category.p_description updateData with Some v => v | None => Category.description c end)
    (match Category.p_sortOrder updateData with Some v => v | None => Category.sortOrder c end)
    (match Category.p_isActive updateData with Some v => v | None => Category.isActive c end)
    (match Category.p_createdAt updateData with Some v => v | None => Category.createdAt c end)
    t.

(** [updateCategory(categoryId, updateData)]: [null] when the id is unknown. *)
Definition updateCategory (categoryId : string) (updateData : Category.patch)
    : M (option Category.t) :=
  tryLog ("Error updating category " ++ categoryId ++ ":")%string
    (categories <- readData Categories categories ;;
     match findIndexById categories categoryId with
     | None => ret None
     | Some categoryIndex =>
         match nth_error categories categoryIndex with
         | None => ret None   (* not reached: the index is inside the array *)
         | Some current =>
             t <- clock ;;
             let updatedCategory := mergeCategory current updateData categoryId t in
             writeData Categories setCategories
               (setNth categoryIndex updatedCategory categories) ;;;
             ret (Some updatedCategory)
         end
     end).

(** [deleteCategory(categoryId)]: refuses a category that dishes refer
    to, else clears [isActive]; the boolean tells whether the category
    existed. *)
Definition deleteCategory (categoryId : string) : M bool :=
  tryLog ("Error deleting category " ++ categoryId ++ ":")%string
    (dishes <- readData Dishes dishes ;;
     let categoryDishes :=
       filter (fun dish => String.eqb (Dish.categoryId dish) categoryId) dishes in
     if (0 <? List.length categoryDishes)%nat
     then throw (CategoryHasDishes (List.length categoryDishes))
     else
       result <- updateCategory categoryId
                   (Category.mkPatch None None None (Some false) None) ;;
       match result with
       | Some _ => ret true
       | None => ret false
       end).

(** The record [createInventoryEntry] and [synchronizeInventory] push
    for a dish that has none. *)
Definition freshItem (dishId : string) (stock : Z) (t : Timestamp) : Item.t :=
  Item.mk dishId stock (Some 5) t (Some "") (Some 0%Q) None None None None.

(** [createInventoryEntry(dishId, initialStock)]: any error is logged and
    not rethrown. *)
Definition createInventoryEntry (dishId : string) (initialStock : Z) : M unit :=
  trySwallow ("Error creating inventory entry for dish " ++ dishId ++ ":")%string
    (inventory <- readData Inventory inventory ;;
     match find (fun item => String.eqb (Item.dishId item) dishId) inventory with
     | Some _ => ret tt                          (* Entry already exists *)
     | None =>
         t <- clock ;;
         writeData Inventory setInventory
           (inventory ++ [freshItem dishId initialStock t])
     end).

Definition unwrap {A} (o : option A) (d : A) : A :=
  match o with
  | Some v => v
  | None => d
  end.

(** The object literal [newDish] of [createDish]: the fields of the
    request, with the defaults of the service. *)
Definition newDishOf (dishData : Dish.data) (newId : string) (t : Timestamp) : Dish.t :=
  Dish.mk newId
    (unwrap (Dish.d_categoryId dishData) "")
    (unwrap (Dish.d_name dishData) "")
    (JS.orStr (Dish.d_description dishData) "")
    (unwrap (Dish.d_price dishData) 0%Q)         (* parseFloat(dishData.price) *)
    (JS.orStr (Dish.d_status dishData) "on")
    (JS.orZ (Dish.d_stock dishData) 0)
    (JS.orStr (Dish.d_imageUrl dishData) "")
    (JS.orList (Dish.d_ingredients dishData) [])
    (JS.orList (Dish.d_allergens dishData) [])
    (JS.orZ (Dish.d_preparationTime dishData) 0)
    (JS.orZ (Dish.d_calories dishData) 0)
    (JS.orBool (Dish.d_isSpicy dishData) false)
    (JS.orBool (Dish.d_isVegetarian dishData) false)
    t t.

(** [createDish(dishData)] *)
Definition createDish (dishData : Dish.data) : M Dish.t :=
  tryLog "Error creating dish:"
    (dishes <- readData Dishes dishes ;;
     validateRequiredFields
       [("name", missingStr (Dish.d_name dishData));
        ("categoryId", missingStr (Dish.d_categoryId dishData));
        ("price", missing (Dish.d_price dishData))] ;;;
     (* the three fields are present from here on *)
     category <- getCategoryById (unwrap (Dish.d_categoryId dishData) "") ;;
     match category with
     | None => throw (CategoryNotFound (unwrap (Dish.d_categoryId dishData) ""))
     | Some _ =>
         let newId := generateId "dish_" dishes in
         t <- clock ;;
         let newDish := newDishOf dishData newId t in
         writeData Dishes setDishes (dishes ++ [newDish]) ;;;
         createInventoryEntry newId (JS.orZ (Dish.d_stock dishData) 0) ;;;
         ret newDish
     end).

End MenuService.

(* ================================================================== *)
(** * Inventory service *)
(* ================================================================== *)

Module InventoryService.

Definition forDish (dishId : string) (item : Item.t) : bool :=
  String.eqb (Item.dishId item) dishId.

(** [getInventoryByDishId(dishId)] *)
Definition getInventoryByDishId (dishId : string) : M (option Item.t) :=
  tryLog ("Error getting inventory for dish " ++ dishId ++ ":")%string
    (inventory <- readData Inventory inventory ;;
     ret (find (forDish dishId) inventory)).

(** [updateDishStockField(dishId, newStock)]: the write-through to the
    dish; any error is logged and not rethrown. *)
Definition updateDishStockField (dishId : string) (newStock : Z) : M unit :=
  trySwallow ("Error updating dish stock field for " ++ dishId ++ ":")%string
    (dishes <- readData Dishes dishes ;;
     match findIndexById dishes dishId with
     | Some dishIndex =>
         match nth_error dishes dishIndex with
         | Some dish =>
             t <- clock ;;
             writeData Dishes setDishes
               (setNth dishIndex (Dish.setStock newStock t dish) dishes)
         | None => ret tt     (* not reached: the index is inside the array *)
         end
     | None => ret tt
     end).

(** [value || null] on a string. *)
Definition orNull (a : option string) : option string :=
  match a with
  | Some v => if String.eqb v "" then None else Some v
  | None => None
  end.

(** [updateDishStock(dishId, newStock, additionalData)] *)
Definition updateDishStock (dishId : string) (newStock : Z)
    (additionalData : Item.extra) : M Item.t :=
  tryLog ("Error updating stock for dish " ++ dishId ++ ":")%string
    (inventory <- readData Inventory inventory ;;
     match findIndex (forDish dishId) inventory with
     | None =>
         t <- clock ;;
         let newInventoryItem :=
           Item.mk dishId newStock
             (Some (JS.orZ (JS.read (Item.x_alertThreshold additionalData)) 5))
             t
             (Some (JS.orStr (JS.read (Item.x_supplier additionalData)) ""))
             (Some (JS.orQ (JS.read (Item.x_cost additionalData)) 0%Q))
             (orNull (JS.read (Item.x_expiryDate additionalData)))
             None None None in
         writeData Inventory setInventory (inventory ++ [newInventoryItem]) ;;;
         updateDishStockField dishId newStock ;;;
         ret newInventoryItem
     | Some inventoryIndex =>
         match nth_error inventory inventoryIndex with
         | None => throw (InventoryNotFound dishId)
                        (* not reached: the index is inside the array *)
         | Some current =>
             t <- clock ;;
             let updatedInventoryItem :=
               Item.mk (Item.dishId current) newStock
                 (JS.spread (Item.alertThreshold current) (Item.x_alertThreshold additionalData))
                 t
                 (JS.spread (Item.supplier current) (Item.x_supplier additionalData))
                 (JS.spread (Item.cost current) (Item.x_cost additionalData))
                 (JS.spread (Item.expiryDate current) (Item.x_expiryDate additionalData))
                 (JS.spread (Item.adjustmentReason current) (Item.x_adjustmentReason additionalData))
                 (JS.spread (Item.lastAdjustment current) (Item.x_lastAdjustment additionalData))
                 (JS.spread (Item.lastAdjustmentDate current) (Item.x_lastAdjustmentDate additionalData)) in
             writeData Inventory setInventory
               (setNth inventoryIndex updatedInventoryItem inventory) ;;;
             updateDishStockField dishId newStock ;;;
             ret updatedInventoryItem
         end
     end).

(** [customThreshold || item.alertThreshold]: a custom threshold of 0 is
    falsy and gives way to the threshold of the item. *)
Definition thresholdFor (customThreshold : option Z) (item : Item.t) : option Z :=
  match customThreshold with
  | Some c => if c =? 0 then Item.alertThreshold item else Some c
  | None => Item.alertThreshold item
  end.

(** [item.stock <= threshold]; a comparison with [undefined] is false. *)
Definition isLow (customThreshold : option Z) (item : Item.t) : bool :=
  match thresholdFor customThreshold item with
  | Some threshold => Item.stock item <=? threshold
  | None => false
  end.

Definition enrich (dishes : list Dish.t) (inventoryItem : Item.t) : Item.enriched :=
  match findById dishes (Item.dishId inventoryItem) with
  | Some dish =>
      Item.mkEnriched inventoryItem (Dish.name dish) (Dish.price dish)
        (Dish.status dish) (Some (Dish.categoryId dish))
  | None => Item.mkEnriched inventoryItem "Unknown Dish" 0%Q "unknown" None
  end.

Definition stockOf (e : Item.enriched) : Z := Item.stock (Item.item e).

(** [Array.prototype.sort((a, b) => a.stock - b.stock)]: a stable sort,
    written as an insertion from the right. *)
Fixpoint insertByStock (x : Item.enriched) (l : list Item.enriched) : list Item.enriched :=
  match l with
  | [] => [x]
  | y :: l' =>
      if stockOf x <=? stockOf y then x :: y :: l' else y :: insertByStock x l'
  end.

Definition sortByStock (l : list Item.enriched) : list Item.enriched :=
  fold_right insertByStock [] l.

(** The order the listing is sorted in. *)
Definition byStock (a b : Item.enriched) : Prop := stockOf a <= stockOf b.

(** [getLowStockDishes(customThreshold = null)] *)
Definition getLowStockDishes (customThreshold : option Z) : M (list Item.enriched) :=
  tryLog "Error getting low stock dishes:"
    (inventory <- readData Inventory inventory ;;
     dishes <- readData Dishes dishes ;;
     let lowStockInventory := filter (isLow customThreshold) inventory in
     let lowStockDishes := map (enrich dishes) lowStockInventory in
     ret (sortByStock lowStockDishes)).

(** The threshold as the specification words it,
    [customThreshold ?? item.alertThreshold]: only a missing custom
    threshold gives way to the threshold of the item. *)
Definition thresholdFor_spec (customThreshold : option Z) (item : Item.t) : option Z :=
  match customThreshold with
  | Some c => Some c
  | None => Item.alertThreshold item
  end.

Definition isLow_spec (customThreshold : option Z) (item : Item.t) : bool :=
  match thresholdFor_spec customThreshold item with
  | Some threshold => Item.stock item <=? threshold
  | None => false
  end.

(** The listing the specification describes: the records at or below
    the threshold of the specification, joined with their dish, by
    ascending stock. *)
Definition lowStockDishes_spec (customThreshold : option Z) (s : Store)
    : list Item.enriched :=
  sortByStock (map (enrich (dishes s)) (filter (isLow_spec customThreshold) (inventory s))).

(** [adjustStock(dishId, adjustment, reason)] *)
Definition adjustStock (dishId : string) (adjustment : Z) (reason : string) : M Item.t :=
  tryLog ("Error adjusting stock for dish " ++ dishId ++ ":")%string
    (currentInventory <- getInventoryByDishId dishId ;;
     match currentInventory with
     | None => throw (InventoryNotFound dishId)
     | Some current =>
         let newStock := Z.max 0 (Item.stock current + adjustment) in
         t <- clock ;;
         updateDishStock dishId newStock
           (Item.mkExtra JS.Absent JS.Absent JS.Absent JS.Absent
              (JS.Present (Some reason))
              (JS.Present (Some adjustment))
              (JS.Present (Some t)))
     end).

(** [existingInventory.stock = ...; existingInventory.lastUpdated = ...]:
    the object found by [find] is the first one for the dish, and it is
    changed in place inside the array. *)
Fixpoint updateFirst (p : Item.t -> bool) (f : Item.t -> Item.t) (l : list Item.t)
    : list Item.t :=
  match l with
  | [] => []
  | x :: l' => if p x then f x :: l' else x :: updateFirst p f l'
  end.

Record SyncResult := mkSync {
  created : nat;
  updated : nat;
  total : nat;
  message : string
}.

(** The body of the loop over the dishes; the state is the array read
    from the inventory file and the two counters.  Every dish and every
    record has an integer [stock] here, as [Dish.t] and [Item.t] say;
    what the loop does with a dish without [stock] is told by
    [RawSync.syncDish] below. *)
Definition syncDish (t : Timestamp) (acc : list Item.t * nat * nat) (dish : Dish.t)
    : list Item.t * nat * nat :=
  let '(inventory, created, updated) := acc in
  match find (forDish (Dish.id dish)) inventory with
  | None =>
      (inventory ++ [MenuService.freshItem (Dish.id dish)
                       (JS.orZ (Some (Dish.stock dish)) 0) t],
       S created, updated)
  | Some existingInventory =>
      if negb (Item.stock existingInventory =? Dish.stock dish)
      then (updateFirst (forDish (Dish.id dish))
              (Item.setStock (Dish.stock dish) t) inventory,
            created, S updated)
      else (inventory, created, updated)
  end.

(** [synchronizeInventory()] *)
Definition synchronizeInventory : M SyncResult :=
  tryLog "Error synchronizing inventory:"
    (dishes <- readData Dishes dishes ;;
     inventory <- readData Inventory inventory ;;
     t <- clock ;;
     let '(inventory', created, updated) :=
       fold_left (syncDish t) dishes (inventory, 0%nat, 0%nat) in
     (if (0 <? created)%nat || (0 <? updated)%nat
      then writeData Inventory setInventory inventory'
      else ret tt) ;;;
     ret (mkSync created updated (List.length inventory')
            ("Synchronized inventory: " ++ JS.natToString created ++ " created, "
               ++ JS.natToString updated ++ " updated")%string)).

(** The inventory has a record for the dish, and the first such record
    carries the stock of the dish. *)
Definition synced (inv : list Item.t) (d : Dish.t) : Prop :=
  exists r, find (forDish (Dish.id d)) inv = Some r /\ Item.stock r = Dish.stock d.

End InventoryService.

(** ** The loop of the synchronisation on untyped records

    A dishes file edited by hand may hold a dish without [stock].  The
    loop of [synchronizeInventory] is embedded here once more on records
    whose [stock] may be [undefined], cut down to the fields the loop
    reads and writes.  On typed records it is
    [InventoryService.syncDish] (lemma [RawSync_agrees]). *)
Module RawSync.

Record dish := mkDish {
  id : string;
  stock : option Z
}.

Record item := mkItem {
  dishId : string;
  itemStock : option Z;
  lastUpdated : Timestamp
}.

(** [a !== b] on values that are integers or [undefined]. *)
Definition differ (a b : option Z) : bool :=
  match a, b with
  | Some x, Some y => negb (x =? y)
  | None, None => false
  | _, _ => true
  end.

Fixpoint updateFirst (p : item -> bool) (f : item -> item) (l : list item) : list item :=
  match l with
  | [] => []
  | x :: l' => if p x then f x :: l' else x :: updateFirst p f l'
  end.

Definition syncDish (t : Timestamp) (acc : list item * nat * nat) (d : dish)
    : list item * nat * nat :=
  let '(inventory, created, updated) := acc in
  match find (fun i => String.eqb (dishId i) (id d)) inventory with
  | None =>
      (inventory ++ [mkItem (id d) (Some (JS.orZ (stock d) 0)) t],   (* dish.stock || 0 *)
       S created, updated)
  | Some existingInventory =>
      if differ (itemStock existingInventory) (stock d)
      then (updateFirst (fun i => String.eqb (dishId i) (id d))
              (fun i => mkItem (dishId i) (stock d) t) inventory,
            created, S updated)
      else (inventory, created, updated)
  end.

(** The counters of the second of two runs in a row.  (Between the runs
    the array goes through the file; a key whose value is [undefined]
    is not written and reads as [undefined] again.) *)
Definition secondRun (t1 t2 : Timestamp) (dishes : list dish) (inventory : list item)
    : nat * nat :=
  let '(inventory1, _, _) := fold_left (syncDish t1) dishes (inventory, 0%nat, 0%nat) in
  let '(_, created, updated) := fold_left (syncDish t2) dishes (inventory1, 0%nat, 0%nat) in
  (created, updated).

Definition ofDish (d : Dish.t) : dish := mkDish (Dish.id d) (Some (Dish.stock d)).

Definition ofItem (r : Item.t) : item :=
  mkItem (Item.dishId r) (Some (Item.stock r)) (Item.lastUpdated r).

End RawSync.

(* ================================================================== *)
(** * Statistics service *)
(* ================================================================== *)

Module StatsService.

(** ** Orders *)

Record OrderMetrics := mkOrderMetrics {
  revenueGrowthRate : JS.num;
  orderGrowthRate : JS.num;
  averageOrderValue : Q;
  conversionRate : JS.value;
  peakHourRevenue : list PeakHour.withRevenue
}.

(** [{...orderStats, topDishes: enrichedTopDishes, metrics}] *)
Record OrderStatistics := mkOrderStatistics {
  orderStats : Orders.stats;
  topDishes : list TopDish.enriched;
  metrics : OrderMetrics
}.

(** [calculateConversionRate(orderStats)] *)
Definition calculateConversionRate (orderStats : Orders.stats) : JS.value :=
  let estimatedVisitors := JS.mul (JS.lit (Orders.todayOrders orderStats)) (JS.lit 3) in
  if JS.gtb (JS.lit (Orders.todayOrders orderStats)) JS.zero
  then JS.VStr (JS.toFixed2
                  (JS.mul (JS.div (JS.lit (Orders.todayOrders orderStats)) estimatedVisitors)
                          (JS.lit 100)))
  else JS.VNum JS.zero.

(** [calculatePeakHourRevenue(peakHours, avgOrderValue)] *)
Definition calculatePeakHourRevenue (peakHours : list PeakHour.t) (avgOrderValue : Q)
    : list PeakHour.withRevenue :=
  map (fun hour =>
         PeakHour.mkWithRevenue hour
           (JS.toFixed2 (JS.mul (JS.lit (PeakHour.orders hour)) (JS.lit avgOrderValue))))
      peakHours.

Definition enrichTopDish (dishes : list Dish.t) (topDish : TopDish.t) : TopDish.enriched :=
  match findById dishes (TopDish.dishId topDish) with
  | Some dish =>
      TopDish.mkEnriched topDish (Dish.name dish) (Dish.price dish)
        (Some (Dish.categoryId dish))
  | None => TopDish.mkEnriched topDish "Unknown Dish" 0%Q None
  end.

(** [getOrderStatistics(options)] *)
Definition getOrderStatistics : M OrderStatistics :=
  tryLog "Error getting order statistics:"
    (orderStats <- readData OrdersStats ordersStats ;;
     dishes <- readData Dishes dishes ;;
     let enrichedTopDishes := map (enrichTopDish dishes) (Orders.topDishes orderStats) in
     let growthRate :=
       if JS.gtb (JS.lit (Orders.yesterdayRevenue orderStats)) JS.zero
       then JS.VStr (JS.toFixed2
              (JS.mul
                 (JS.div (JS.sub (JS.lit (Orders.todayRevenue orderStats))
                                 (JS.lit (Orders.yesterdayRevenue orderStats)))
                         (JS.lit (Orders.yesterdayRevenue orderStats)))
                 (JS.lit 100)))
       else JS.VNum JS.zero in
     let orderGrowthRate :=
       if JS.gtb (JS.lit (Orders.yesterdayOrders orderStats)) JS.zero
       then JS.VStr (JS.toFixed2
              (JS.mul
                 (JS.div (JS.sub (JS.lit (Orders.todayOrders orderStats))
                                 (JS.lit (Orders.yesterdayOrders orderStats)))
                         (JS.lit (Orders.yesterdayOrders orderStats)))
                 (JS.lit 100)))
       else JS.VNum JS.zero in
     ret (mkOrderStatistics orderStats enrichedTopDishes
            (mkOrderMetrics
               (JS.parseFloatOf growthRate)
               (JS.parseFloatOf orderGrowthRate)
               (Orders.averageOrderValue orderStats)
               (calculateConversionRate orderStats)
               (calculatePeakHourRevenue (Orders.peakHours orderStats)
                  (Orders.averageOrderValue orderStats))))).

(** ** Promotions *)

(** The [analytics] block of [getPromotionAnalytics].  Its fields
    [ordersPerDay], [revenuePerDay] and [effectivenessScore] come from
    helpers of their own (two of them through [Date]) and are not part
    of this record. *)
Record PromotionMetrics := mkPromotionMetrics {
  roi : JS.num;
  promotionAverageOrderValue : JS.num;
  discountPercentage : JS.num
}.

Record DishInfo := mkDishInfo {
  info_id : string;
  info_name : string;
  info_price : Q;
  info_categoryId : string
}.

(** [{...promotion, isActive, applicableDishes, analytics}] *)
Record PromotionAnalytics := mkPromotionAnalytics {
  promotion : Promotion.t;
  isActive : bool;
  applicableDishes : list DishInfo;
  analytics : PromotionMetrics
}.

(** The lookup at the head of [getPromotionAnalytics]: the active
    promotions first, then the completed ones. *)
Definition findPromotion (promotionStats : Promotion.stats) (promotionId : string)
    : option (Promotion.t * bool) :=
  match find (fun p => String.eqb (Promotion.id p) promotionId)
             (Promotion.activePromotions promotionStats) with
  | Some p => Some (p, true)
  | None =>
      match find (fun p => String.eqb (Promotion.id p) promotionId)
                 (Promotion.completedPromotions promotionStats) with
      | Some p => Some (p, false)
      | None => None
      end
  end.

(** [promotion.applicableDishes.map(...).filter(dish => dish !== null)] *)
Fixpoint knownDishes (dishes : list Dish.t) (ids : list string) : list DishInfo :=
  match ids with
  | [] => []
  | dishId :: rest =>
      match findById dishes dishId with
      | Some dish =>
          mkDishInfo (Dish.id dish) (Dish.name dish) (Dish.price dish) (Dish.categoryId dish)
            :: knownDishes dishes rest
      | None => knownDishes dishes rest
      end
  end.

(** [getPromotionAnalytics(promotionId)] *)
Definition getPromotionAnalytics (promotionId : string) : M (option PromotionAnalytics) :=
  tryLog ("Error getting promotion analytics for " ++ promotionId ++ ":")%string
    (promotionStats <- readData PromotionsStats promotionsStats ;;
     dishes <- readData Dishes dishes ;;
     match findPromotion promotionStats promotionId with
     | None => ret None
     | Some (promotion, isActive) =>
         let applicableDishes := knownDishes dishes (Promotion.applicableDishes promotion) in
         let totalRevenue := JS.lit (Promotion.totalRevenue promotion) in
         let discountGiven := JS.lit (Promotion.discountGiven promotion) in
         let totalOrders := JS.lit (Promotion.totalOrders promotion) in
         let roi :=
           if JS.gtb totalRevenue JS.zero
           then JS.VStr (JS.toFixed2
                  (JS.mul (JS.div (JS.sub totalRevenue discountGiven) discountGiven)
                          (JS.lit 100)))
           else JS.VNum JS.zero in
         let averageOrderValue :=
           if JS.gtb totalOrders JS.zero
           then JS.VStr (JS.toFixed2 (JS.div totalRevenue totalOrders))
           else JS.VNum JS.zero in
         let discountPercentage :=
           if JS.gtb totalRevenue JS.zero
           then JS.VStr (JS.toFixed2
                  (JS.mul (JS.div discountGiven (JS.add totalRevenue discountGiven))
                          (JS.lit 100)))
           else JS.VNum JS.zero in
         ret (Some (mkPromotionAnalytics promotion isActive applicableDishes
                      (mkPromotionMetrics
                         (JS.parseFloatOf roi)
                         (JS.parseFloatOf averageOrderValue)
                         (JS.parseFloatOf discountPercentage))))
     end).

(** ** Reviews *)

Inductive Trend :=
| TrendFlat (direction : string) (change : Z)
      (* { direction, change } *)
| TrendFull (direction : string) (ratingChange : string) (reviewChange : Z)
            (reviewGrowthRate : JS.value).
      (* { direction, ratingChange, reviewChange, reviewGrowthRate } *)

Definition count (n : N) : JS.num := JS.lit (inject_Z (Z.of_N n)).

(** The object [calculateReviewTrend] returns from the last two months. *)
Definition trendOf (previous latest : Month.t) : Trend :=
  let ratingChange :=
    JS.sub (JS.lit (Month.averageRating latest)) (JS.lit (Month.averageRating previous)) in
  let reviewChange :=
    JS.sub (count (Month.totalReviews latest)) (count (Month.totalReviews previous)) in
  TrendFull
    (if JS.gtb ratingChange (JS.lit (1 # 10)) then "improving"
     else if JS.ltb ratingChange (JS.lit (- 1 # 10)) then "declining"
     else "stable")
    (JS.toFixed2 ratingChange)
    (Z.of_N (Month.totalReviews latest) - Z.of_N (Month.totalReviews previous))
    (if JS.gtb (count (Month.totalReviews previous)) JS.zero
     then JS.VStr (JS.toFixed2
            (JS.mul (JS.div reviewChange (count (Month.totalReviews previous)))
                    (JS.lit 100)))
     else JS.VNum JS.zero).

(** [calculateReviewTrend(monthlyTrend)] *)
Definition calculateReviewTrend (monthlyTrend : list Month.t) : Trend :=
  if (List.length monthlyTrend <? 2)%nat
  then TrendFlat "stable" 0
  else
    match nth_error monthlyTrend (List.length monthlyTrend - 1),
          nth_error monthlyTrend (List.length monthlyTrend - 2) with
    | Some latest, Some previous => trendOf previous latest
    | _, _ => TrendFlat "stable" 0   (* not reached: both indices are inside *)
    end.

(** [averageRating * Math.log(totalReviews + 1)], with the real
    logarithm for [Math.log]. *)
Definition score (e : DishReview.t) : R :=
  (Q2R (DishReview.averageRating e)
   * ln (IZR (Z.of_N (DishReview.totalReviews e)) + 1))%R.

(** The callback of the [reduce]: [currentScore > topScore ? current : top]. *)
Definition better (top current : DishReview.t) : DishReview.t :=
  if Rlt_dec (score top) (score current) then current else top.

(** [findTopRatedDish(dishReviews)]: [null] on the empty array, else a
    [reduce] without initial value, which starts from the first entry. *)
Definition findTopRatedDish (dishReviews : list DishReview.t) : option DishReview.t :=
  match dishReviews with
  | [] => None
  | first :: rest => Some (fold_left better rest first)
  end.

End StatsService.

(* ================================================================== *)
(** * Further methods of the services *)
(* ================================================================== *)

(** [Array.prototype.sort(compare)] for a comparator that orders by a
    key: a stable sort, written as an insertion from the right. *)
Module Sorting.

Fixpoint insertBy {A} (le : A -> A -> bool) (x : A) (l : list A) : list A :=
  match l with
  | [] => [x]
  | y :: l' => if le x y then x :: y :: l' else y :: insertBy le x l'
  end.

Definition sortBy {A} (le : A -> A -> bool) (l : list A) : list A :=
  fold_right (insertBy le) [] l.

End Sorting.

(** [try { ... = body } catch (error) { logger.error(msg, error); }]
    inside a loop: the value when there is one, nothing after the error
    was logged. *)
Definition catchLog {A} (msg : string) (body : M A) : M (option A) :=
  fun io w =>
    match body io w with
    | (Ok a, w') => (Ok (Some a), w')
    | (Err e, w') => (Ok None, mkWorld (files w') (errorLog w' ++ [mkLog msg e]))
    end.

Module CategoryOps.

(** The request body handed to [createCategory]. *)
Record data := mkData {
  c_name : option string;
  c_description : option string;
  c_sortOrder : option Z;
  c_isActive : option bool
}.

(** [createCategory(categoryData)] *)
Definition createCategory (categoryData : data) : M Category.t :=
  tryLog "Error creating category:"
    (categories <- readData Categories categories ;;
     validateRequiredFields [("name", missingStr (c_name categoryData))] ;;;
     let newId := generateId "cat_" categories in
     t <- clock ;;
     let newCategory :=
       Category.mk newId
         (MenuService.unwrap (c_name categoryData) "")
         (JS.orStr (c_description categoryData) "")
         (JS.orZ (c_sortOrder categoryData) (Z.of_nat (List.length categories) + 1))
         (match c_isActive categoryData with Some b => b | None => true end)
         t t in
     writeData Categories setCategories (categories ++ [newCategory]) ;;;
     ret newCategory).

Definition setSortOrder (v : Z) (t : Timestamp) (c : Category.t) : Category.t :=
  Category.mk (Category.id c) (Category.name c) (Category.description c) v
    (Category.isActive c) (Category.createdAt c) t.

(** One turn of the [forEach] of [updateCategoriesSort]: an id that
    names no category is passed over. *)
Definition applySort (t : Timestamp) (categories : list Category.t) (item : string * Z)
    : list Category.t :=
  match findIndexById categories (fst item) with
  | Some categoryIndex =>
      match nth_error categories categoryIndex with
      | Some c => setNth categoryIndex (setSortOrder (snd item) t c) categories
      | None => categories   (* not reached: the index is inside the array *)
      end
  | None => categories
  end.

Definition bySortOrder (a b : Category.t) : bool :=
  Category.sortOrder a <=? Category.sortOrder b.

(** [updateCategoriesSort(sortData)]: the file receives the categories
    in their stored order; the array returned is sorted by [sortOrder]. *)
Definition updateCategoriesSort (sortData : list (string * Z)) : M (list Category.t) :=
  tryLog "Error updating categories sort order:"
    (categories <- readData Categories categories ;;
     t <- clock ;;
     let updated := fold_left (applySort t) sortData categories in
     writeData Categories setCategories updated ;;;
     ret (Sorting.sortBy bySortOrder updated)).

End CategoryOps.

Module DishOps.

(** The object passed to [updateDish]; [None] is an absent key.  (A key
    [id] or [updatedAt] of the object is overwritten by the service and
    is left out.) *)
Record patch := mkPatch {
  p_categoryId : option string;
  p_name : option string;
  p_description : option string;
  p_price : option Q;
  p_status : option string;
  p_stock : option Z;
  p_imageUrl : option string;
  p_ingredients : option (list string);
  p_allergens : option (list string);
  p_preparationTime : option Z;
  p_calories : option Z;
  p_isSpicy : option bool;
  p_isVegetarian : option bool;
  p_createdAt : option Timestamp
}.

(** [{ status }] *)
Definition statusPatch (status : string) : patch :=
  mkPatch None None None None (Some status) None None None None None None None None None.

Definition over {A} (new : option A) (old : A) : A :=
  match new with
  | Some v => v
  | None => old
  end.

(** [{...dish, ...updateData, id: dishId,
      price: updateData.price ? parseFloat(updateData.price) : dish.price,
      ...addTimestamps({}, true)}]: the last spread sets [updatedAt]
    only, so a [createdAt] of [updateData] stays. *)
Definition mergeDish (d : Dish.t) (updateData : patch) (dishId : string) (t : Timestamp)
    : Dish.t :=
  Dish.mk dishId
    (over (p_categoryId updateData) (Dish.categoryId d))
    (over (p_name updateData) (Dish.name d))
    (over (p_description updateData) (Dish.description d))
    (match p_price updateData with
     | Some v => if Qeq_bool v 0 then Dish.price d else v
     | None => Dish.price d
     end)
    (over (p_status updateData) (Dish.status d))
    (over (p_stock updateData) (Dish.stock d))
    (over (p_imageUrl updateData) (Dish.imageUrl d))
    (over (p_ingredients updateData) (Dish.ingredients d))
    (over (p_allergens updateData) (Dish.allergens d))
    (over (p_preparationTime updateData) (Dish.preparationTime d))
    (over (p_calories updateData) (Dish.calories d))
    (over (p_isSpicy updateData) (Dish.isSpicy d))
    (over (p_isVegetarian updateData) (Dish.isVegetarian d))
    (over (p_createdAt updateData) (Dish.createdAt d))
    t.

(** [if (updateData.categoryId) { ... }]: a category id that is given
    and not empty must name a category. *)
Definition checkCategory (categoryId : option string) : M unit :=
  match categoryId with
  | Some c =>
      if String.eqb c "" then ret tt
      else
        category <- MenuService.getCategoryById c ;;
        match category with
        | None => throw (CategoryNotFound c)
        | Some _ => ret tt
        end
  | None => ret tt
  end.

(** The category named by the patch, if any, exists and can be looked up. *)
Definition categoryAccepted (io : IO) (w : World) (updateData : patch) : Prop :=
  match p_categoryId updateData with
  | None => True
  | Some c =>
      c = "" \/
      (readFails io Categories = false /\ findById (categories (files w)) c <> None)
  end.

(** [updateDish(dishId, updateData)]: [null] when the id is unknown. *)
Definition updateDish (dishId : string) (updateData : patch) : M (option Dish.t) :=
  tryLog ("Error updating dish " ++ dishId ++ ":")%string
    (dishes <- readData Dishes dishes ;;
     match findIndexById dishes dishId with
     | None => ret None
     | Some dishIndex =>
         checkCategory (p_categoryId updateData) ;;;
         match nth_error dishes dishIndex with
         | None => ret None   (* not reached: the index is inside the array *)
         | Some current =>
             t <- clock ;;
             let updatedDish := mergeDish current updateData dishId t in
             writeData Dishes setDishes (setNth dishIndex updatedDish dishes) ;;;
             ret (Some updatedDish)
         end
     end).

(** [deleteDish(dishId)]: the dish is switched off, not removed. *)
Definition deleteDish (dishId : string) : M bool :=
  tryLog ("Error deleting dish " ++ dishId ++ ":")%string
    (result <- updateDish dishId (statusPatch "off") ;;
     match result with
     | Some _ => ret true
     | None => ret false
     end).

End DishOps.

Module StockOps.
Import InventoryService.

(** [getOutOfStockDishes()]: no sort, the records keep the order of the
    file. *)
Definition getOutOfStockDishes : M (list Item.enriched) :=
  tryLog "Error getting out of stock dishes:"
    (inventory <- readData Inventory inventory ;;
     dishes <- readData Dishes dishes ;;
     let outOfStockInventory := filter (fun item => Item.stock item =? 0) inventory in
     ret (map (enrich dishes) outOfStockInventory)).

(** One element of the array handed to [batchUpdateStock]. *)
Record update := mkUpdate {
  u_dishId : option string;
  u_stock : option Z;
  u_supplier : option string;
  u_cost : option Q;
  u_expiryDate : option string;
  u_alertThreshold : option Z
}.

(** [{supplier: update.supplier, cost: update.cost,
      expiryDate: update.expiryDate, alertThreshold: update.alertThreshold}]:
    the four keys are always there, with [undefined] for what the entry
    does not give. *)
Definition extraOf (u : update) : Item.extra :=
  Item.mkExtra
    (JS.Present (u_alertThreshold u))
    (JS.Present (u_supplier u))
    (JS.Present (u_cost u))
    (JS.Present (u_expiryDate u))
    JS.Absent JS.Absent JS.Absent.

(** [!update.dishId || update.stock === undefined] *)
Definition invalid (u : update) : bool :=
  missingStr (u_dishId u) || missing (u_stock u).

(** The [for ... of] loop of [batchUpdateStock]. *)
Fixpoint batchLoop (stockUpdates : list update) (updatedItems : list Item.t)
    : M (list Item.t) :=
  match stockUpdates with
  | [] => ret updatedItems
  | u :: rest =>
      if invalid u then batchLoop rest updatedItems
      else
        let dishId := MenuService.unwrap (u_dishId u) "" in
        updatedItem <-
          catchLog ("Error updating stock for dish " ++ dishId ++ " in batch:")%string
            (updateDishStock dishId (MenuService.unwrap (u_stock u) 0) (extraOf u)) ;;
        match updatedItem with
        | Some item => batchLoop rest (updatedItems ++ [item])
        | None => batchLoop rest updatedItems
        end
  end.

(** [batchUpdateStock(stockUpdates)] *)
Definition batchUpdateStock (stockUpdates : list update) : M (list Item.t) :=
  tryLog "Error in batch stock update:" (batchLoop stockUpdates []).

(** The entries a batch leaves in the log when each of its updates
    fails with [cause], which the data store logged as [first]: for
    every entry of the batch that has a dish id and a stock, the entry
    of the data store, the entry of [updateDishStock] and the entry of
    the batch. *)
Definition failureLog (first : string) (cause : Error) (stockUpdates : list update)
    : list LogEntry :=
  flat_map
    (fun u =>
       let dishId := MenuService.unwrap (u_dishId u) "" in
       [mkLog first cause;
        mkLog ("Error updating stock for dish " ++ dishId ++ ":")%string cause;
        mkLog ("Error updating stock for dish " ++ dishId ++ " in batch:")%string cause])
    (filter (fun u => negb (invalid u)) stockUpdates).

(** The outcome of [validateStockOperation]: an error whose message
    quotes the three numbers, or the new stock. *)
Inductive StockCheck :=
| WouldBeNegative (currentStock adjustment newStock : Z)
| StockValue (newStock : Z).

(** [validateStockOperation(currentStock, adjustment)], the check the
    controller runs before it calls [adjustStock]. *)
Definition validateStockOperation (currentStock adjustment : Z) : StockCheck :=
  let newStock := currentStock + adjustment in
  if newStock <? 0
  then WouldBeNegative currentStock adjustment newStock
  else StockValue newStock.

End StockOps.

Module PromotionOps.

(** [Math.min(x, y)]: [NaN] when either is. *)
Definition min (x y : JS.num) : JS.num :=
  match x, y with
  | JS.NaN, _ | _, JS.NaN => JS.NaN
  | _, _ => if JS.gtb x y then y else x
  end.

(** [(p.totalRevenue * p.conversionRate) - p.discountGiven] *)
Definition performance (p : Promotion.t) : JS.num :=
  JS.sub (JS.mul (JS.lit (Promotion.totalRevenue p)) (JS.lit (Promotion.conversionRate p)))
         (JS.lit (Promotion.discountGiven p)).

Definition betterPromotion (best current : Promotion.t) : Promotion.t :=
  if JS.gtb (performance current) (performance best) then current else best.

(** [findBestPerformingPromotion(promotions)] *)
Definition findBestPerformingPromotion (promotions : list Promotion.t)
    : option Promotion.t :=
  match promotions with
  | [] => None
  | first :: rest => Some (fold_left betterPromotion rest first)
  end.

(** [calculatePromotionEffectiveness(promotionStats)] *)
Definition calculatePromotionEffectiveness (promotionStats : Promotion.stats) : JS.value :=
  let overallStats := Promotion.overallStats promotionStats in
  if Qeq_bool (Promotion.totalPromotionalOrders overallStats) 0
  then JS.VNum JS.zero
  else
    let avgConversionRate := JS.lit (Promotion.averageConversionRate overallStats) in
    let roi :=
      if JS.gtb (JS.lit (Promotion.totalDiscountGiven overallStats)) JS.zero
      then JS.div (JS.sub (JS.lit (Promotion.totalPromotionalRevenue overallStats))
                          (JS.lit (Promotion.totalDiscountGiven overallStats)))
                  (JS.lit (Promotion.totalDiscountGiven overallStats))
      else JS.zero in
    JS.VStr (JS.toFixed2 (JS.add (JS.mul avgConversionRate (JS.lit 100))
                                 (JS.mul roi (JS.lit 10)))).

(** The number [calculateEffectivenessScore] formats:
    [Math.min(conversionScore + roi + volumeScore, 100)]. *)
Definition effectiveness (promotion : Promotion.t) : JS.num :=
  let totalRevenue := JS.lit (Promotion.totalRevenue promotion) in
  let discountGiven := JS.lit (Promotion.discountGiven promotion) in
  let conversionScore := JS.mul (JS.lit (Promotion.conversionRate promotion)) (JS.lit 100) in
  let roi :=
    if JS.gtb totalRevenue discountGiven
    then JS.mul (JS.div (JS.sub totalRevenue discountGiven) discountGiven) (JS.lit 10)
    else JS.zero in
  let volumeScore :=
    min (JS.div (JS.lit (Promotion.totalOrders promotion)) (JS.lit 10)) (JS.lit 20) in
  min (JS.add (JS.add conversionScore roi) volumeScore) (JS.lit 100).

(** [calculateEffectivenessScore(promotion)] *)
Definition calculateEffectivenessScore (promotion : Promotion.t) : string :=
  JS.toFixed2 (effectiveness promotion).

End PromotionOps.

Module ReviewOps.

(** [dish.averageRating < 4.0 || dish.totalReviews < 10] *)
Definition needsImprovement (dish : DishReview.t) : bool :=
  JS.ltb (JS.lit (DishReview.averageRating dish)) (JS.lit 4)
  || (DishReview.totalReviews dish <? 10)%N.

(** The order of [(a, b) => a.averageRating - b.averageRating]. *)
Definition byRating (a b : DishReview.t) : bool :=
  Qle_bool (DishReview.averageRating a) (DishReview.averageRating b).

(** [findDishesNeedingImprovement(dishReviews)] *)
Definition findDishesNeedingImprovement (dishReviews : list DishReview.t)
    : list DishReview.t :=
  firstn 5 (Sorting.sortBy byRating (filter needsImprovement dishReviews)).

End ReviewOps.

Module SummaryOps.
Import DataStore.

(** The counters of the object [getInventorySummary] returns.  The
    fields that come from [Date] ([expiringItems], [lastUpdated]) and
    the two that go through [item.cost] and [Math.round] ([totalValue],
    [averageStockPerItem]) are not part of this record. *)
Record StockStatus := mkStockStatus {
  healthy : Z;
  lowStock : nat;
  outOfStock : nat
}.

Record Summary := mkSummary {
  totalItems : nat;
  totalStock : Z;
  lowStockItems : nat;
  outOfStockItems : nat;
  stockStatus : StockStatus
}.

(** [item.stock <= item.alertThreshold]; a comparison with [undefined]
    is false. *)
Definition belowAlert (item : Item.t) : bool :=
  match Item.alertThreshold item with
  | Some threshold => Item.stock item <=? threshold
  | None => false
  end.

(** [item.stock === 0] *)
Definition soldOut (item : Item.t) : bool := Item.stock item =? 0.

(** [getInventorySummary()] *)
Definition getInventorySummary : M Summary :=
  tryLog "Error generating inventory summary:"
    (inventory <- readData Inventory inventory ;;
     dishes <- readData Dishes dishes ;;
     let totalItems := List.length inventory in
     let totalStock := fold_left (fun sum item => sum + Item.stock item) inventory 0 in
     let lowStockItems := List.length (filter belowAlert inventory) in
     let outOfStockItems := List.length (filter soldOut inventory) in
     ret (mkSummary totalItems totalStock lowStockItems outOfStockItems
            (mkStockStatus
               (Z.of_nat totalItems - Z.of_nat lowStockItems - Z.of_nat outOfStockItems)
               lowStockItems outOfStockItems))).

End SummaryOps.

(* ================================================================== *)
(** * Sample data *)
(* ================================================================== *)

Module Sample.

Definition t0 : Timestamp := "2024-01-01T00:00:00.000Z".
Definition t1 : Timestamp := "2024-06-01T12:00:00.000Z".

Definition category (id : string) : Category.t :=
  Category.mk id "Mains" "" 1 true t0 t0.

Definition dish (id categoryId status : string) (stock : Z) : Dish.t :=
  Dish.mk id categoryId "Noodles" "" (25 # 2) status stock "" [] [] 10 450
    false false t0 t0.

Definition item (dishId : string) (stock alertThreshold : Z) : Item.t :=
  Item.mk dishId stock (Some alertThreshold) t0 (Some "") (Some 0%Q) None
    None None None.

Definition noOrders : Orders.stats := Orders.mkStats 0 0 0 0 0 [] [] [].

Definition noPromotions : Promotion.stats :=
  Promotion.mkStats [] [] (Promotion.mkOverall 0 0 0 0).

Definition world (c : list Category.t) (d : list Dish.t) (i : list Item.t) : World :=
  mkWorld (mkStore c d i noOrders noPromotions) [].

(** One category, one dish, and its inventory record with 5 in stock. *)
Definition shop : World :=
  world [category "cat_1"] [dish "dish_1" "cat_1" "on" 5] [item "dish_1" 5 5].

(** A file system on which the dishes file cannot be written. *)
Definition dishesUnwritable : IO :=
  mkIO (fun _ => false) (fun f => File_eqb f Dishes) t1.

(** A file system on which the inventory file cannot be written. *)
Definition inventoryUnwritable : IO :=
  mkIO (fun _ => false) (fun f => File_eqb f Inventory) t1.

(** An empty menu with one category. *)
Definition emptyShop : World := world [category "cat_1"] [] [].

(** The empty menu after [PUT /dish/dish_1/stock] with stock 7: the
    controller checks the format of the id only, so the service stores
    an inventory record for a dish that does not exist yet. *)
Definition stockedAhead : World :=
  snd (InventoryService.updateDishStock "dish_1" 7 Item.noExtra (reliable t0) emptyShop).

(** A request body for [createDish] with an initial stock of 3. *)
Definition soup : Dish.data :=
  Dish.mkData (Some "Soup") (Some "cat_1") (Some (9 # 2)) None None (Some 3)
    None None None None None None None.

(** Two dishes; the inventory knows the first with another stock and
    does not know the second. *)
Definition outOfStep : World :=
  world [category "cat_1"]
    [dish "dish_1" "cat_1" "on" 5; dish "dish_2" "cat_1" "on" 2]
    [item "dish_1" 3 5].

(** Three promotions: an ordinary one, one that gave no discount, and
    one without revenue. *)
Definition promo (id : string) (totalRevenue discountGiven : Q) : Promotion.t :=
  Promotion.mk id ["dish_1"] 40 totalRevenue discountGiven (1 # 4)
    "2024-05-01" "2024-05-31".

Definition promotions : Promotion.stats :=
  Promotion.mkStats
    [promo "promo_1" 1500 300; promo "promo_2" 800 0]
    [promo "promo_3" 0 50]
    (Promotion.mkOverall 120 2300 350 (1 # 4)).

Definition orders : Orders.stats :=
  Orders.mkStats 1250 1000 45 0 (250 # 9) [("completed", 40%Q); ("pending", 5%Q)]
    [TopDish.mk "dish_1" 12 150] [PeakHour.mk "12:00" 9].

(** The shop with its statistics files. *)
Definition shopWithStats : World :=
  mkWorld (mkStore [category "cat_1"] [dish "dish_1" "cat_1" "on" 5]
             [item "dish_1" 5 5] orders promotions) [].

(** The two dishes of the specification: A with one review of 4.9, B
    with 200 reviews averaging 4.5. *)
Definition dishA : DishReview.t :=
  DishReview.mk "dish_1" (49 # 10) 1 "A" (25 # 2) (Some "cat_1").

Definition dishB : DishReview.t :=
  DishReview.mk "dish_2" (45 # 10) 200 "B" (25 # 2) (Some "cat_1").

Definition january : Month.t := Month.mk "2024-01" (42 # 10) 80.
Definition february : Month.t := Month.mk "2024-02" (44 # 10) 100.
Definition march : Month.t := Month.mk "2024-03" (41 # 10) 90.

(** Two dishes under one id, with different stocks, and no inventory. *)
Definition twins : World :=
  world [category "cat_1"] [dish "dish_1" "cat_1" "on" 5; dish "dish_1" "cat_1" "on" 7] [].

(** Revenue 183 after 160, and a promotion with revenue 183 for a
    discount of 160: the exact growth, 14.375, is a tie between 14.37
    and 14.38. *)
Definition shopNearTie : World :=
  mkWorld (mkStore [category "cat_1"] [dish "dish_1" "cat_1" "on" 5]
             [item "dish_1" 5 5]
             (Orders.mkStats 183 160 45 40 (250 # 9) [] [] [])
             (Promotion.mkStats [promo "promo_4" 183 160] []
                (Promotion.mkOverall 120 2300 350 (1 # 4)))) [].

End Sample.

(** Further sample data. *)
Module Sample2.

(** Three categories stored out of display order. *)
Definition cat (id : string) (sortOrder : Z) : Category.t :=
  Category.mk id "Starters" "" sortOrder true Sample.t0 Sample.t0.

Definition menu : World :=
  Sample.world [cat "cat_1" 3; cat "cat_2" 1; cat "cat_3" 2]
    [Sample.dish "dish_1" "cat_1" "on" 5; Sample.dish "dish_2" "cat_2" "on" 0]
    [Sample.item "dish_1" 5 5; Sample.item "dish_2" 0 2].

Definition drinks : CategoryOps.data :=
  CategoryOps.mkData (Some "Drinks") None None None.

(** A batch with one entry that gives the dish and the stock only. *)
Definition restock : list StockOps.update :=
  [StockOps.mkUpdate (Some "dish_2") (Some 0) None None None None].

Definition review (id : string) (rating : Q) (reviews : N) : DishReview.t :=
  DishReview.mk id rating reviews "Dish" (25 # 2) (Some "cat_1").

Definition reviews : list DishReview.t :=
  [review "dish_1" (48 # 10) 120; review "dish_2" (35 # 10) 40;
   review "dish_3" (45 # 10) 3; review "dish_4" (31 # 10) 60].

(** A shop whose two dishes are both sold out. *)
Definition soldOutShop : World :=
  Sample.world [cat "cat_1" 1]
    [Sample.dish "dish_1" "cat_1" "on" 0; Sample.dish "dish_2" "cat_1" "on" 0]
    [Sample.item "dish_1" 0 5; Sample.item "dish_2" 0 5].

(** A promotion with a revenue of 3 from 40 orders. *)
Definition smallOrders : World :=
  mkWorld (mkStore [] [] [] Sample.noOrders
             (Promotion.mkStats
                [Promotion.mk "promo_5" [] 40 3 1 (1 # 4) "2024-05-01" "2024-05-31"] []
                (Promotion.mkOverall 40 3 1 (1 # 4)))) [].

End Sample2.

(* ================================================================== *)
(** * Array scans *)
(* ================================================================== *)

Section Scans.
Context {A : Type}.
Variable p : A -> bool.

Lemma findIndex_find (l : list A) (i : nat) :
  findIndex p l = Some i ->
  exists x, nth_error l i = Some x /\ find p l = Some x /\ p x = true.
Proof.
  revert i; induction l as [|a l IH]; intros i; simpl; [discriminate|].
  destruct (p a) eqn:Ha.
  - intros [= <-]. exists a; auto.
  - destruct (findIndex p l) as [j|]; simpl; [|discriminate].
    intros [= <-]. destruct (IH j eq_refl) as (x & ? & ? & ?). exists x; auto.
Qed.

Lemma findIndex_None (l : list A) :
  findIndex p l = None <-> find p l = None.
Proof.
  induction l as [|a l IH]; simpl; [tauto|].
  destruct (p a); [split; discriminate|].
  destruct (findIndex p l); simpl; [|tauto].
  split; intro H; [discriminate | apply IH in H; discriminate].
Qed.

Lemma find_setNth_hit (l : list A) (i : nat) (v : A) :
  findIndex p l = Some i -> p v = true -> find p (setNth i v l) = Some v.
Proof.
  revert i; induction l as [|a l IH]; intros i; simpl; [discriminate|].
  destruct (p a) eqn:Ha.
  - intros [= <-] Hv. simpl. now rewrite Hv.
  - destruct (findIndex p l) as [j|]; simpl; [|discriminate].
    intros [= <-] Hv. simpl. rewrite Ha. auto.
Qed.

Lemma find_app_last (l : list A) (x : A) :
  find p l = None -> p x = true -> find p (l ++ [x]) = Some x.
Proof.
  induction l as [|a l IH]; simpl; intros H Hx.
  - now rewrite Hx.
  - destruct (p a); [discriminate|auto].
Qed.

Lemma find_app_keep (l : list A) (x y : A) :
  find p l = Some y -> find p (l ++ [x]) = Some y.
Proof.
  induction l as [|a l IH]; simpl; [discriminate|].
  destruct (p a); auto.
Qed.

End Scans.

(* ================================================================== *)
(** * Fresh identifiers *)
(* ================================================================== *)

Section FreshIds.

Lemma natToString_inj (n m : nat) : JS.natToString n = JS.natToString m -> n = m.
Proof.
  unfold JS.natToString. intros H.
  apply DecimalNat.Unsigned.to_uint_inj.
  assert (Some (Nat.to_uint n) = Some (Nat.to_uint m)) as [=]; auto.
  rewrite <- !NilEmpty.usu. now rewrite H.
Qed.

Lemma append_inj (p a b : string) : (p ++ a = p ++ b)%string -> a = b.
Proof.
  induction p as [|c p IH]; simpl; auto. intros [=]. auto.
Qed.

Lemma existsb_eqb_In (x : string) (l : list string) :
  existsb (String.eqb x) l = true <-> In x l.
Proof.
  rewrite existsb_exists. split.
  - intros (y & Hy & He). apply String.eqb_eq in He. now subst.
  - intros H. exists x. split; auto. apply String.eqb_refl.
Qed.

(** The candidates the loop tries. *)
Lemma generateId_loop_tried (fuel : nat) (prefix : string) (existing : list string) :
  forall counter,
    In (generateId_loop fuel prefix existing counter) existing ->
    forall k, (k <= fuel)%nat ->
      In (prefix ++ JS.natToString (counter + k))%string existing.
Proof.
  induction fuel as [|fuel IH]; intros counter Hin k Hk.
  - assert (k = 0%nat) as -> by lia. rewrite Nat.add_0_r. exact Hin.
  - simpl in Hin.
    destruct (existsb _ existing) eqn:He.
    + destruct k as [|k].
      * rewrite Nat.add_0_r. now apply existsb_eqb_In.
      * replace (counter + S k)%nat with (S counter + k)%nat by lia.
        apply IH; [exact Hin|lia].
    + exfalso. apply existsb_eqb_In in Hin. congruence.
Qed.

(** The id [generateId] returns is not in use: the bound on the loop is
    never what stops it. *)
Lemma generateId_loop_fresh (prefix : string) (existing : list string) (counter : nat) :
  ~ In (generateId_loop (List.length existing) prefix existing counter) existing.
Proof.
  intros Hin.
  pose proof (generateId_loop_tried _ _ _ _ Hin) as Hall.
  set (cands := map (fun k => (prefix ++ JS.natToString (counter + k))%string)
                    (seq 0 (S (List.length existing)))).
  assert (Hnd : NoDup cands).
  { apply Finite.Injective_map_NoDup; [|apply seq_NoDup].
    intros a b H. apply append_inj, natToString_inj in H. lia. }
  assert (Hincl : incl cands existing).
  { intros x Hx. apply in_map_iff in Hx. destruct Hx as (k & <- & Hk).
    apply in_seq in Hk. apply Hall. lia. }
  pose proof (NoDup_incl_length Hnd Hincl) as Hlen.
  unfold cands in Hlen. rewrite length_map, length_seq in Hlen. lia.
Qed.

Example generateId_samples :
  generateId "dish_" ([] : list Dish.t) = "dish_1" /\
  generateId "dish_" [Sample.dish "dish_1" "cat_1" "on" 5;
                      Sample.dish "dish_3" "cat_1" "on" 5] = "dish_2" /\
  generateId "cat_" [Sample.category "cat_2"; Sample.category "cat_1"] = "cat_3".
Proof. repeat split. Qed.

Lemma generateId_fresh {A} `{HasId A} (prefix : string) (existingData : list A) :
  forall item, In item existingData -> getId item <> generateId prefix existingData.
Proof.
  intros item Hin Heq. unfold generateId in Heq.
  apply (generateId_loop_fresh prefix (map getId existingData) 1).
  rewrite length_map, <- Heq. now apply in_map.
Qed.

End FreshIds.

(* ================================================================== *)
(** * Running the monad *)
(* ================================================================== *)

(** Unfolds one layer of the monad; the file-system hypotheses in the
    context decide the reads and writes. *)
Ltac run :=
  unfold tryLog, trySwallow, bind, ret, throw, clock, readData, writeData in *;
  simpl in *.

Section WriteThrough.
Import InventoryService.

(** The write-through never fails and touches the dishes file only. *)
Lemma updateDishStockField_ok (dishId : string) (newStock : Z) (io : IO) (w : World) :
  exists w',
    updateDishStockField dishId newStock io w = (Ok tt, w') /\
    categories (files w') = categories (files w) /\
    inventory (files w') = inventory (files w).
Proof.
  unfold updateDishStockField. run.
  destruct (readFails io Dishes); simpl; [eauto|].
  destruct (findIndexById _ _); simpl; [|eauto].
  destruct (nth_error _ _); simpl; [|eauto].
  destruct (writeFails io Dishes); simpl; eauto.
Qed.

(** When the dishes file can be read and written, the dish found under
    [dishId] is the one found before, with the new stock. *)
Lemma updateDishStockField_dishes (dishId : string) (newStock : Z) (io : IO)
    (w w' : World) :
  readFails io Dishes = false ->
  writeFails io Dishes = false ->
  updateDishStockField dishId newStock io w = (Ok tt, w') ->
  findById (dishes (files w')) dishId =
  option_map (Dish.setStock newStock (now io)) (findById (dishes (files w)) dishId).
Proof.
  intros Hr Hw. unfold updateDishStockField. run. rewrite Hr. simpl.
  destruct (findIndexById (dishes (files w)) dishId) as [i|] eqn:Ei; simpl.
  - destruct (findIndex_find _ _ _ Ei) as (x & Hx & Hf & Hpx).
    rewrite Hx. simpl. rewrite Hw. simpl. intros [= <-]. simpl.
    unfold findById. rewrite Hf. simpl. apply find_setNth_hit; auto.
  - intros [= <-]. unfold findById, findIndexById in *.
    apply findIndex_None in Ei. now rewrite Ei.
Qed.

(** When the dishes file cannot be read or written, the write-through
    leaves the dishes as they are. *)
Lemma updateDishStockField_swallows (dishId : string) (newStock : Z) (io : IO)
    (w w' : World) :
  updateDishStockField dishId newStock io w = (Ok tt, w') ->
  readFails io Dishes = true \/ writeFails io Dishes = true ->
  dishes (files w') = dishes (files w).
Proof.
  unfold updateDishStockField. run.
  destruct (readFails io Dishes) eqn:Hr; simpl.
  - intros [= <-] _. reflexivity.
  - destruct (findIndexById _ _); simpl; [|intros [= <-] _; reflexivity].
    destruct (nth_error _ _); simpl; [|intros [= <-] _; reflexivity].
    destruct (writeFails io Dishes) eqn:Hw; simpl; intros [= <-] [X|X];
      try discriminate; reflexivity.
Qed.

(** What the write-through leaves in the error log: nothing when it
    went through, and else the error of the data store followed by its
    own entry. *)
Lemma updateDishStockField_log (dishId : string) (newStock : Z) (io : IO)
    (w w' : World) :
  updateDishStockField dishId newStock io w = (Ok tt, w') ->
  let msg := ("Error updating dish stock field for " ++ dishId ++ ":")%string in
  (readFails io Dishes = false -> writeFails io Dishes = false ->
     errorLog w' = errorLog w) /\
  (readFails io Dishes = true ->
     errorLog w' = errorLog w ++
       [mkLog "Error reading data from dishes.json:" (ReadFailed Dishes);
        mkLog msg (ReadFailed Dishes)]) /\
  (readFails io Dishes = false -> writeFails io Dishes = true ->
   findById (dishes (files w)) dishId <> None ->
     errorLog w' = errorLog w ++
       [mkLog "Error writing data to dishes.json:" (WriteFailed Dishes);
        mkLog msg (WriteFailed Dishes)]).
Proof.
  unfold updateDishStockField, trySwallow, bind, readData.
  destruct (readFails io Dishes) eqn:Hr.
  - intros [= <-]. cbn [errorLog]. rewrite <- app_assoc.
    split; [discriminate|]. split; [reflexivity|discriminate].
  - destruct (findIndexById (dishes (files w)) dishId) as [i|] eqn:Ei.
    + destruct (findIndex_find _ _ _ Ei) as (x & Hx & _ & _). rewrite Hx.
      unfold clock, writeData. destruct (writeFails io Dishes) eqn:Hw.
      * intros [= <-]. cbn [errorLog]. rewrite <- app_assoc.
        split; [discriminate|]. split; [discriminate|reflexivity].
      * intros [= <-]. cbn [errorLog].
        split; [reflexivity|]. split; discriminate.
    + cbn [ret]. intros [= <-].
      split; [reflexivity|]. split; [discriminate|].
      intros _ _ Hex. exfalso. apply Hex.
      apply findIndex_None in Ei. exact Ei.
Qed.

(** [updateDishStock] when the inventory file can be read and written:
    it returns the record now stored first for the dish, with the stock
    it was given. *)
Lemma updateDishStock_ok (dishId : string) (newStock : Z) (x : Item.extra)
    (io : IO) (w : World) :
  readFails io Inventory = false ->
  writeFails io Inventory = false ->
  exists r w1 w',
    updateDishStock dishId newStock x io w = (Ok r, w') /\
    updateDishStockField dishId newStock io w1 = (Ok tt, w') /\
    Item.stock r = newStock /\
    find (forDish dishId) (inventory (files w')) = Some r /\
    dishes (files w1) = dishes (files w) /\
    errorLog w1 = errorLog w.
Proof.
  intros Hr Hw. unfold updateDishStock.
  unfold tryLog, bind at 1. unfold readData at 1. rewrite Hr.
  destruct (findIndex (forDish dishId) (inventory (files w))) as [i|] eqn:Ei.
  - destruct (findIndex_find _ _ _ Ei) as (cur & Hcur & Hfind & Hp).
    rewrite Hcur. unfold bind, clock, writeData at 1. rewrite Hw. simpl.
    match goal with |- context [updateDishStockField _ _ io ?w1] =>
      destruct (updateDishStockField_ok dishId newStock io w1) as (w' & E & _ & Hinv);
      rewrite E; exists (Item.mk (Item.dishId cur) newStock
        (JS.spread (Item.alertThreshold cur) (Item.x_alertThreshold x)) (now io)
        (JS.spread (Item.supplier cur) (Item.x_supplier x))
        (JS.spread (Item.cost cur) (Item.x_cost x))
        (JS.spread (Item.expiryDate cur) (Item.x_expiryDate x))
        (JS.spread (Item.adjustmentReason cur) (Item.x_adjustmentReason x))
        (JS.spread (Item.lastAdjustment cur) (Item.x_lastAdjustment x))
        (JS.spread (Item.lastAdjustmentDate cur) (Item.x_lastAdjustmentDate x))), w1, w'
    end.
    simpl. repeat split; auto.
    rewrite Hinv. simpl. apply find_setNth_hit; auto.
  - apply findIndex_None in Ei.
    unfold bind, clock, writeData at 1. rewrite Hw. simpl.
    match goal with |- context [updateDishStockField _ _ io ?w1] =>
      destruct (updateDishStockField_ok dishId newStock io w1) as (w' & E & _ & Hinv);
      rewrite E; eexists _, w1, w'
    end.
    simpl. repeat split; auto.
    rewrite Hinv. simpl. apply find_app_last; auto.
    unfold forDish. simpl. apply String.eqb_refl.
Qed.

End WriteThrough.

(* ================================================================== *)
(** * Stock adjustment and write-through *)
(* ================================================================== *)

Section Stock.
Import InventoryService.

(** C3.  With the inventory file readable and writable:
    - when the inventory holds a record for [dishId] with stock [S],
      [adjustStock dishId D reason] succeeds and leaves that record with
      stock [max 0 (S + D)], which is not negative;
    - when it holds none, [adjustStock] throws "Inventory not found",
      which the controller answers as NOT_FOUND, and no file changes. *)
Theorem adjustStock_clamps (io : IO) (w : World) (dishId reason : string) (D : Z) :
  readFails io Inventory = false ->
  writeFails io Inventory = false ->
  (forall cur, find (forDish dishId) (inventory (files w)) = Some cur ->
     exists r w',
       adjustStock dishId D reason io w = (Ok r, w') /\
       find (forDish dishId) (inventory (files w')) = Some r /\
       Item.stock r = Z.max 0 (Item.stock cur + D) /\
       0 <= Item.stock r) /\
  (find (forDish dishId) (inventory (files w)) = None ->
     exists w',
       adjustStock dishId D reason io w = (Err (InventoryNotFound dishId), w') /\
       kind (InventoryNotFound dishId) = NotFoundError /\
       files w' = files w).
Proof.
  intros Hr Hw. split.
  - intros cur Hcur. unfold adjustStock, getInventoryByDishId.
    unfold tryLog at 1. unfold bind at 1. unfold tryLog at 1.
    unfold bind at 1. unfold readData at 1. rewrite Hr. unfold ret at 1.
    rewrite Hcur. unfold bind at 1, clock at 1.
    destruct (updateDishStock_ok dishId (Z.max 0 (Item.stock cur + D))
                (Item.mkExtra JS.Absent JS.Absent JS.Absent JS.Absent
                   (JS.Present (Some reason)) (JS.Present (Some D))
                   (JS.Present (Some (now io)))) io w Hr Hw)
      as (r & w1 & w' & E & _ & Hs & Hf & _).
    rewrite E. exists r, w'. repeat split; auto. rewrite Hs. lia.
  - intros Hnone. unfold adjustStock, getInventoryByDishId. run.
    rewrite Hr. simpl. rewrite Hnone. simpl. eexists. repeat split.
Qed.

(** C7, as amended.  When the inventory file can be read and written,
    [updateDishStock dishId newStock extra] succeeds and the inventory
    record of the dish holds [newStock].  When the dishes file can be
    read and written too, the dish stored under [dishId] holds the same
    stock, is kept when it existed, and nothing is logged.  When reading
    or writing the dishes file fails, the call still succeeds and the
    dishes are as they were; the failure is logged: the error log
    receives the error of the data store and then the entry "Error
    updating dish stock field for <dishId>:" of the write-through (a
    failing write is met only when the dish exists). *)
Theorem updateDishStock_write_through (io : IO) (w : World) (dishId : string)
    (newStock : Z) (additionalData : Item.extra) :
  readFails io Inventory = false ->
  writeFails io Inventory = false ->
  exists r w',
    updateDishStock dishId newStock additionalData io w = (Ok r, w') /\
    find (forDish dishId) (inventory (files w')) = Some r /\
    Item.stock r = newStock /\
    (readFails io Dishes = false -> writeFails io Dishes = false ->
       (forall d, findById (dishes (files w')) dishId = Some d ->
                  Dish.stock d = Item.stock r) /\
       (findById (dishes (files w)) dishId <> None ->
        findById (dishes (files w')) dishId <> None) /\
       errorLog w' = errorLog w) /\
    (readFails io Dishes = true \/ writeFails io Dishes = true ->
       dishes (files w') = dishes (files w)) /\
    (readFails io Dishes = true ->
       errorLog w' = errorLog w ++
         [mkLog "Error reading data from dishes.json:" (ReadFailed Dishes);
          mkLog ("Error updating dish stock field for " ++ dishId ++ ":")%string
                (ReadFailed Dishes)]) /\
    (readFails io Dishes = false -> writeFails io Dishes = true ->
     findById (dishes (files w)) dishId <> None ->
       errorLog w' = errorLog w ++
         [mkLog "Error writing data to dishes.json:" (WriteFailed Dishes);
          mkLog ("Error updating dish stock field for " ++ dishId ++ ":")%string
                (WriteFailed Dishes)]).
Proof.
  intros Hri Hwi.
  destruct (updateDishStock_ok dishId newStock additionalData io w Hri Hwi)
    as (r & w1 & w' & E & Ef & Hs & Hf & Hd & Hl).
  destruct (updateDishStockField_log _ _ _ _ _ Ef) as (Lok & Lread & Lwrite).
  rewrite Hd, Hl in *.
  exists r, w'. split; [exact E|]. split; [exact Hf|]. split; [exact Hs|].
  split; [|split; [|split]].
  - intros Hrd Hwd.
    pose proof (updateDishStockField_dishes _ _ _ _ _ Hrd Hwd Ef) as Hafter.
    rewrite Hd in Hafter. split; [|split].
    + intros d Hfd. rewrite Hafter in Hfd.
      destruct (findById (dishes (files w)) dishId); simpl in Hfd; [|discriminate].
      injection Hfd as <-. simpl. now rewrite Hs.
    + rewrite Hafter.
      destruct (findById (dishes (files w)) dishId); simpl; congruence.
    + apply Lok; assumption.
  - intros Hbad. rewrite <- Hd.
    exact (updateDishStockField_swallows _ _ _ _ _ Ef Hbad).
  - exact Lread.
  - exact Lwrite.
Qed.

End Stock.

Section StockExamples.
Import InventoryService.

Lemma adjustStock_clamps_witness :
  (exists r w',
     adjustStock "dish_1" (-7) "spoiled" (reliable Sample.t1) Sample.shop = (Ok r, w') /\
     find (forDish "dish_1") (inventory (files w')) = Some r /\
     Item.stock r = Z.max 0 (5 + -7) /\
     0 <= Item.stock r) /\
  (exists w',
     adjustStock "dish_9" (-7) "spoiled" (reliable Sample.t1) Sample.shop
       = (Err (InventoryNotFound "dish_9"), w') /\
     kind (InventoryNotFound "dish_9") = NotFoundError /\
     files w' = files Sample.shop).
Proof.
  split.
  - exact (proj1 (adjustStock_clamps (reliable Sample.t1) Sample.shop
                    "dish_1" "spoiled" (-7) eq_refl eq_refl)
                 (Sample.item "dish_1" 5 5) eq_refl).
  - exact (proj2 (adjustStock_clamps (reliable Sample.t1) Sample.shop
                    "dish_9" "spoiled" (-7) eq_refl eq_refl)
                 eq_refl).
Defined.

Lemma updateDishStock_write_through_witness :
  (exists r w',
     updateDishStock "dish_1" 9 Item.noExtra (reliable Sample.t1) Sample.shop = (Ok r, w') /\
     find (forDish "dish_1") (inventory (files w')) = Some r /\
     Item.stock r = 9 /\
     (forall d, findById (dishes (files w')) "dish_1" = Some d ->
                Dish.stock d = Item.stock r) /\
     (findById (dishes (files Sample.shop)) "dish_1" <> None ->
      findById (dishes (files w')) "dish_1" <> None) /\
     errorLog w' = []) /\
  (exists r w',
     updateDishStock "dish_1" 9 Item.noExtra Sample.dishesUnwritable Sample.shop
       = (Ok r, w') /\
     Item.stock r = 9 /\
     dishes (files w') = dishes (files Sample.shop) /\
     errorLog w' =
       [mkLog "Error writing data to dishes.json:" (WriteFailed Dishes);
        mkLog "Error updating dish stock field for dish_1:" (WriteFailed Dishes)]).
Proof.
  split.
  - destruct (updateDishStock_write_through (reliable Sample.t1) Sample.shop "dish_1" 9
                Item.noExtra eq_refl eq_refl) as (r & w' & E & Hf & Hs & Hd & _).
    exists r, w'. destruct (Hd eq_refl eq_refl) as (H1 & H2 & H3).
    repeat split; auto.
  - destruct (updateDishStock_write_through Sample.dishesUnwritable Sample.shop "dish_1" 9
                Item.noExtra eq_refl eq_refl) as (r & w' & E & _ & Hs & _ & Hd & _ & Hl).
    exists r, w'. split; [exact E|]. split; [exact Hs|]. split.
    + apply Hd. right. reflexivity.
    + apply (Hl eq_refl eq_refl). discriminate.
Defined.

(** C7, as stated, fails when the dishes file cannot be written: the
    write-through logs the error and returns, [updateDishStock] succeeds,
    the inventory record holds 9 and the dish still holds 5. *)
Lemma updateDishStock_write_through_swallowed :
  let out := updateDishStock "dish_1" 9 Item.noExtra Sample.dishesUnwritable Sample.shop in
  (exists r, fst out = Ok r) /\
  option_map Item.stock (find (forDish "dish_1") (inventory (files (snd out)))) = Some 9 /\
  option_map Dish.stock (findById (dishes (files (snd out))) "dish_1") = Some 5 /\
  ~ (forall r d,
       find (forDish "dish_1") (inventory (files (snd out))) = Some r ->
       findById (dishes (files (snd out))) "dish_1" = Some d ->
       Dish.stock d = Item.stock r).
Proof.
  vm_compute. repeat split; eauto.
  intros H. specialize (H _ _ eq_refl eq_refl). discriminate H.
Qed.

End StockExamples.

(* ================================================================== *)
(** * Categories *)
(* ================================================================== *)

Section Categories.
Import MenuService.

Lemma map_setNth {A B} (f : A -> B) (l : list A) (i : nat) (c v : A) :
  nth_error l i = Some c -> f v = f c -> map f (setNth i v l) = map f l.
Proof.
  revert i; induction l as [|a l IH]; intros [|i]; simpl; try discriminate.
  - intros [= <-] ->. reflexivity.
  - intros H Hv. f_equal. eauto.
Qed.

Lemma filter_nil_iff {A} (p : A -> bool) (l : list A) :
  filter p l = [] <-> forall x, In x l -> p x = false.
Proof.
  induction l as [|a l IH]; simpl.
  - split; [intros _ x []|auto].
  - destruct (p a) eqn:Ha.
    + split; [discriminate|]. intros H. specialize (H a (or_introl eq_refl)). congruence.
    + rewrite IH. split.
      * intros H x [<-|Hx]; auto.
      * intros H x Hx. auto.
Qed.

(** [updateCategory] when the categories file can be read and written. *)
Lemma updateCategory_ok (categoryId : string) (updateData : Category.patch)
    (io : IO) (w : World) :
  readFails io Categories = false ->
  writeFails io Categories = false ->
  exists w',
    updateCategory categoryId updateData io w =
      (Ok (option_map (fun c => mergeCategory c updateData categoryId (now io))
             (findById (categories (files w)) categoryId)), w') /\
    dishes (files w') = dishes (files w) /\
    inventory (files w') = inventory (files w) /\
    map Category.id (categories (files w')) = map Category.id (categories (files w)) /\
    findById (categories (files w')) categoryId =
      option_map (fun c => mergeCategory c updateData categoryId (now io))
        (findById (categories (files w)) categoryId).
Proof.
  intros Hr Hw. unfold updateCategory. run. rewrite Hr. simpl.
  destruct (findIndexById (categories (files w)) categoryId) as [i|] eqn:Ei.
  - destruct (findIndex_find _ _ _ Ei) as (c & Hc & Hf & Hp).
    rewrite Hc. simpl. rewrite Hw. simpl. unfold findById. rewrite Hf. simpl.
    eexists. split; [reflexivity|]. simpl. repeat split.
    + apply (map_setNth Category.id _ _ c); auto. simpl.
      apply String.eqb_eq in Hp. symmetry. exact Hp.
    + apply find_setNth_hit; auto. simpl. apply String.eqb_refl.
  - apply findIndex_None in Ei. unfold findById. rewrite Ei. simpl.
    eexists. split; [reflexivity|]. repeat split; auto.
Qed.

(** The two outcomes of [deleteCategory]. *)
Lemma deleteCategory_run (io : IO) (w : World) (categoryId : string) :
  readFails io Dishes = false ->
  readFails io Categories = false ->
  writeFails io Categories = false ->
  match filter (fun dish => String.eqb (Dish.categoryId dish) categoryId)
          (dishes (files w)) with
  | [] =>
      exists b w',
        deleteCategory categoryId io w = (Ok b, w') /\
        dishes (files w') = dishes (files w) /\
        inventory (files w') = inventory (files w) /\
        map Category.id (categories (files w')) = map Category.id (categories (files w)) /\
        findById (categories (files w')) categoryId =
          option_map (fun c => mergeCategory c (Category.mkPatch None None None (Some false) None)
                                 categoryId (now io))
            (findById (categories (files w)) categoryId)
  | d :: rest =>
      exists w',
        deleteCategory categoryId io w = (Err (CategoryHasDishes (S (List.length rest))), w')
  end.
Proof.
  intros Hrd Hrc Hwc. unfold deleteCategory, tryLog, bind, readData. rewrite Hrd.
  destruct (filter _ (dishes (files w))) as [|d0 rest].
  - cbn [List.length Nat.ltb Nat.leb].
    destruct (updateCategory_ok categoryId (Category.mkPatch None None None (Some false) None)
                io w Hrc Hwc) as (w' & E & Hd & Hi & Hids & Hfind).
    rewrite E.
    destruct (findById (categories (files w)) categoryId); cbn [option_map ret];
      eexists _, w'; repeat split; auto.
  - cbn [List.length Nat.ltb Nat.leb throw]. eexists. reflexivity.
Qed.

(** C4.  With the dishes file readable and the categories file readable
    and writable, [deleteCategory id] throws the "Cannot delete category
    with existing dishes" error, which the controller answers as
    CONFLICT, exactly when some dish has [categoryId = id], whatever its
    status.  When no dish has, it succeeds, the category stored under
    [id] (if any) ends with [isActive = false], and the dishes, the
    inventory and the list of category ids are as before. *)
Theorem deleteCategory_conflict_iff (io : IO) (w : World) (categoryId : string) :
  readFails io Dishes = false ->
  readFails io Categories = false ->
  writeFails io Categories = false ->
  let out := deleteCategory categoryId io w in
  ((exists e, fst out = Err e /\ kind e = ConflictError) <->
   (exists d, In d (dishes (files w)) /\ Dish.categoryId d = categoryId)) /\
  ((forall d, In d (dishes (files w)) -> Dish.categoryId d <> categoryId) ->
   (exists b, fst out = Ok b) /\
   dishes (files (snd out)) = dishes (files w) /\
   inventory (files (snd out)) = inventory (files w) /\
   map Category.id (categories (files (snd out))) = map Category.id (categories (files w)) /\
   (forall c, findById (categories (files w)) categoryId = Some c ->
      exists c', findById (categories (files (snd out))) categoryId = Some c' /\
                 Category.isActive c' = false)).
Proof.
  intros Hrd Hrc Hwc out. subst out.
  pose proof (deleteCategory_run io w categoryId Hrd Hrc Hwc) as Hrun.
  destruct (filter _ (dishes (files w))) as [|d0 rest] eqn:Ef.
  - assert (Hnone : forall d, In d (dishes (files w)) -> Dish.categoryId d <> categoryId).
    { intros d Hd Heq. rewrite filter_nil_iff in Ef. specialize (Ef d Hd). simpl in Ef.
      rewrite Heq, String.eqb_refl in Ef. discriminate. }
    destruct Hrun as (b & w' & E & Hd & Hi & Hids & Hfind). rewrite E. simpl. split.
    + split; [intros (e & He & _); discriminate|].
      intros (d & Hin & Heq). exfalso. eapply Hnone; eauto.
    + intros _. repeat split; eauto.
      intros c Hc. rewrite Hfind, Hc. simpl. eexists. split; reflexivity.
  - assert (Hin : In d0 (d0 :: rest)) by (left; reflexivity).
    rewrite <- Ef in Hin. apply filter_In in Hin. destruct Hin as [Hin Hp].
    apply String.eqb_eq in Hp.
    destruct Hrun as (w' & E). rewrite E. simpl. split.
    + split; [intros _; eauto|]. intros _. eexists. split; reflexivity.
    + intros Hnone. exfalso. eapply Hnone; eauto.
Qed.

(** The scenario of the specification: the only dishes of cat_1 are
    switched off, and the deletion is still refused; a category without
    dishes is deactivated. *)
Lemma deleteCategory_conflict_iff_witness :
  let w := Sample.world [Sample.category "cat_1"; Sample.category "cat_2"]
             [Sample.dish "dish_1" "cat_1" "off" 5; Sample.dish "dish_2" "cat_1" "off" 0]
             [] in
  (exists e, fst (deleteCategory "cat_1" (reliable Sample.t1) w) = Err e /\
             kind e = ConflictError) /\
  (exists c', findById (categories (files (snd (deleteCategory "cat_2" (reliable Sample.t1) w))))
                "cat_2" = Some c' /\ Category.isActive c' = false).
Proof.
  intros w. split.
  - apply (proj1 (deleteCategory_conflict_iff (reliable Sample.t1) w "cat_1"
                    eq_refl eq_refl eq_refl)).
    exists (Sample.dish "dish_1" "cat_1" "off" 5). split; [left|]; reflexivity.
  - destruct (proj2 (deleteCategory_conflict_iff (reliable Sample.t1) w "cat_2"
                       eq_refl eq_refl eq_refl)) as (_ & _ & _ & _ & H).
    + intros d [<-|[<-|[]]]; discriminate.
    + exact (H (Sample.category "cat_2") eq_refl).
Defined.

End Categories.

(* ================================================================== *)
(** * Dish creation *)
(* ================================================================== *)

Section Dishes.
Import MenuService.
Import InventoryService.

(** [createInventoryEntry] never throws and leaves the categories and
    the dishes alone. *)
Lemma createInventoryEntry_ok (dishId : string) (initialStock : Z) (io : IO) (w : World) :
  exists w',
    createInventoryEntry dishId initialStock io w = (Ok tt, w') /\
    categories (files w') = categories (files w) /\
    dishes (files w') = dishes (files w).
Proof.
  unfold createInventoryEntry. run.
  destruct (readFails io Inventory); simpl; [eauto|].
  destruct (find _ _); simpl; [eauto|].
  destruct (writeFails io Inventory); simpl; eauto.
Qed.

(** The inventory after [createInventoryEntry], case by case. *)
Lemma createInventoryEntry_inventory (dishId : string) (initialStock : Z)
    (io : IO) (w w' : World) :
  createInventoryEntry dishId initialStock io w = (Ok tt, w') ->
  (readFails io Inventory = false -> writeFails io Inventory = false ->
   find (forDish dishId) (inventory (files w)) = None ->
   inventory (files w') =
     inventory (files w) ++ [freshItem dishId initialStock (now io)]) /\
  (find (forDish dishId) (inventory (files w)) <> None ->
   inventory (files w') = inventory (files w)) /\
  (readFails io Inventory = true \/
   (find (forDish dishId) (inventory (files w)) = None /\
    writeFails io Inventory = true) ->
   inventory (files w') = inventory (files w) /\
   exists e,
     In (mkLog ("Error creating inventory entry for dish " ++ dishId ++ ":")%string e)
        (errorLog w')).
Proof.
  unfold createInventoryEntry, forDish. run.
  destruct (readFails io Inventory) eqn:Hr; simpl.
  - intros [= <-]. simpl. split; [discriminate|]. split; [auto|].
    intros _. split; [auto|].
    eexists. apply in_or_app. right. left. reflexivity.
  - destruct (find _ (inventory (files w))) as [r|] eqn:Ef; simpl.
    + intros [= <-]. split; [discriminate|]. split; [auto|].
      intros [X|[X _]]; discriminate.
    + destruct (writeFails io Inventory) eqn:Hw; simpl; intros [= <-]; simpl.
      * split; [discriminate|]. split; [congruence|].
        intros _. split; [auto|].
        eexists. apply in_or_app. right. left. reflexivity.
      * split; [auto|]. split; [congruence|].
        intros [X|[_ X]]; discriminate.
Qed.

(** The two outcomes of [createDish] once the required fields are there
    and the dishes and categories files can be read. *)
Lemma createDish_run (io : IO) (w : World) (dishData : Dish.data)
    (name categoryId : string) (price : Q) :
  Dish.d_name dishData = Some name -> name <> "" ->
  Dish.d_categoryId dishData = Some categoryId -> categoryId <> "" ->
  Dish.d_price dishData = Some price ->
  readFails io Dishes = false ->
  readFails io Categories = false ->
  match findById (categories (files w)) categoryId with
  | None =>
      exists w',
        createDish dishData io w = (Err (CategoryNotFound categoryId), w') /\
        files w' = files w
  | Some _ =>
      writeFails io Dishes = false ->
      let newDish :=
        newDishOf dishData (generateId "dish_" (dishes (files w))) (now io) in
      createDish dishData io w =
        (Ok newDish,
         snd (createInventoryEntry (Dish.id newDish) (JS.orZ (Dish.d_stock dishData) 0) io
                (mkWorld (setDishes (dishes (files w) ++ [newDish]) (files w))
                         (errorLog w))))
  end.
Proof.
  intros Hn Hn0 Hc Hc0 Hp Hrd Hrc.
  unfold createDish, tryLog, bind, readData. rewrite Hrd.
  unfold validateRequiredFields. rewrite Hn, Hc, Hp. unfold missingStr, missing.
  apply String.eqb_neq in Hn0, Hc0. rewrite Hn0, Hc0.
  cbn [filter snd map fst List.length Nat.ltb Nat.leb ret unwrap].
  unfold getCategoryById, tryLog, bind, readData. rewrite Hrc. cbn [ret].
  destruct (findById (categories (files w)) categoryId) as [c|].
  - intros Hwd. unfold clock, writeData. rewrite Hwd. cbv zeta.
    unfold newDishOf at 4. cbn [Dish.id].
    match goal with |- context [createInventoryEntry ?i ?s io ?w1] =>
      destruct (createInventoryEntry_ok i s io w1) as (w' & E & _)
    end.
    rewrite E. reflexivity.
  - cbn [throw]. eexists. split; reflexivity.
Qed.

(** C5, as amended.  For a request with its required fields, and with
    the dishes and categories files readable:
    - when [categoryId] names no category, [createDish] throws "Category
      not found", which the controller answers with 400, and no file
      changes;
    - otherwise (the dishes file being writable) it appends the new dish
      and returns it, and
      -- when the inventory has no record for the new id and can be read
         and written, it appends one, the only record for that id, with
         the requested initial stock (0 by default);
      -- when the inventory already has a record for the new id, the
         inventory is left as it is;
      -- when reading or writing the inventory fails, the inventory is
         left as it is, the error is logged, and the dish is still
         created and returned. *)
Theorem createDish_inventory_entry (io : IO) (w : World) (dishData : Dish.data)
    (name categoryId : string) (price : Q) :
  Dish.d_name dishData = Some name -> name <> "" ->
  Dish.d_categoryId dishData = Some categoryId -> categoryId <> "" ->
  Dish.d_price dishData = Some price ->
  readFails io Dishes = false ->
  readFails io Categories = false ->
  let out := createDish dishData io w in
  let newId := generateId "dish_" (dishes (files w)) in
  let initialStock := JS.orZ (Dish.d_stock dishData) 0 in
  (findById (categories (files w)) categoryId = None ->
     fst out = Err (CategoryNotFound categoryId) /\
     kind (CategoryNotFound categoryId) = ValidationError /\
     files (snd out) = files w) /\
  (findById (categories (files w)) categoryId <> None ->
   writeFails io Dishes = false ->
     (exists newDish,
        fst out = Ok newDish /\
        Dish.id newDish = newId /\
        Dish.categoryId newDish = categoryId /\
        Dish.stock newDish = initialStock /\
        dishes (files (snd out)) = dishes (files w) ++ [newDish]) /\
     (readFails io Inventory = false -> writeFails io Inventory = false ->
      find (forDish newId) (inventory (files w)) = None ->
      exists r,
        inventory (files (snd out)) = inventory (files w) ++ [r] /\
        filter (forDish newId) (inventory (files (snd out))) = [r] /\
        Item.dishId r = newId /\
        Item.stock r = initialStock) /\
     (find (forDish newId) (inventory (files w)) <> None ->
      inventory (files (snd out)) = inventory (files w)) /\
     (readFails io Inventory = true \/
      (find (forDish newId) (inventory (files w)) = None /\
       writeFails io Inventory = true) ->
      inventory (files (snd out)) = inventory (files w) /\
      exists e,
        In (mkLog ("Error creating inventory entry for dish " ++ newId ++ ":")%string e)
           (errorLog (snd out)))).
Proof.
  intros Hn Hn0 Hc Hc0 Hp Hrd Hrc out newId initialStock.
  pose proof (createDish_run io w dishData name categoryId price
                Hn Hn0 Hc Hc0 Hp Hrd Hrc) as Hrun.
  destruct (findById (categories (files w)) categoryId) as [c|] eqn:Ec.
  - split; [discriminate|]. intros _ Hwd. specialize (Hrun Hwd). cbv zeta in Hrun.
    subst out. rewrite Hrun. cbn [fst snd]. clear Hrun.
    set (newDish := newDishOf dishData (generateId "dish_" (dishes (files w))) (now io)).
    set (w1 := mkWorld (setDishes (dishes (files w) ++ [newDish]) (files w)) (errorLog w)).
    change (Dish.id newDish) with newId.
    destruct (createInventoryEntry_ok newId initialStock io w1) as (w' & E & _ & Hd).
    fold initialStock. rewrite E. cbn [snd].
    destruct (createInventoryEntry_inventory newId initialStock io w1 w' E)
      as (Hnew & Hold & Hfail).
    split; [|split; [|split]].
    + exists newDish. repeat split; auto.
      unfold newDish, newDishOf. simpl. now rewrite Hc.
    + intros Hri Hwi Hnone. specialize (Hnew Hri Hwi Hnone). simpl in Hnew.
      eexists. split; [exact Hnew|]. rewrite Hnew. repeat split.
      rewrite filter_app.
      assert (Hf : filter (forDish newId) (inventory (files w)) = []).
      { apply filter_nil_iff. intros x Hx.
        destruct (forDish newId x) eqn:Hpx; auto.
        exfalso. eapply find_none in Hnone; eauto. congruence. }
      rewrite Hf. simpl. unfold forDish. simpl. now rewrite String.eqb_refl.
    + intros Hsome. apply Hold. exact Hsome.
    + intros Hbad. apply Hfail. exact Hbad.
  - destruct Hrun as (w' & E & Hfiles). subst out. rewrite E. cbn [fst snd].
    split; [auto|]. intros Hne. congruence.
Qed.

Lemma createDish_inventory_entry_witness :
  let out := createDish Sample.soup (reliable Sample.t1) Sample.emptyShop in
  (exists newDish,
     fst out = Ok newDish /\
     Dish.id newDish = "dish_1" /\
     Dish.categoryId newDish = "cat_1" /\
     Dish.stock newDish = 3 /\
     dishes (files (snd out)) = [newDish]) /\
  (exists r,
     inventory (files (snd out)) = [r] /\
     filter (forDish "dish_1") (inventory (files (snd out))) = [r] /\
     Item.dishId r = "dish_1" /\
     Item.stock r = 3).
Proof.
  intros out.
  destruct (proj2 (createDish_inventory_entry (reliable Sample.t1) Sample.emptyShop
                     Sample.soup "Soup" "cat_1" (9 # 2)
                     eq_refl ltac:(discriminate) eq_refl ltac:(discriminate) eq_refl
                     eq_refl eq_refl)
                  ltac:(discriminate) eq_refl) as (Hdish & Hnew & _).
  split; [exact Hdish|exact (Hnew eq_refl eq_refl eq_refl)].
Defined.

(** When the inventory file cannot be written, the dish is created and
    returned all the same; the inventory stays empty and the error log
    receives the write error and the entry of [createInventoryEntry]. *)
Example createDish_inventory_failure_logged :
  let out := createDish Sample.soup Sample.inventoryUnwritable Sample.emptyShop in
  (exists newDish, fst out = Ok newDish /\ dishes (files (snd out)) = [newDish]) /\
  inventory (files (snd out)) = [] /\
  errorLog (snd out) =
    [mkLog "Error writing data to inventory.json:" (WriteFailed Inventory);
     mkLog "Error creating inventory entry for dish dish_1:" (WriteFailed Inventory)].
Proof. vm_compute. split; [eauto|split; reflexivity]. Qed.

(** C5, as stated, fails on a menu whose inventory already holds a
    record for the id the new dish receives: [createDish] returns dish_1
    with stock 3, [createInventoryEntry] finds the record and returns,
    and the only inventory record of dish_1 keeps its stock of 7. *)
Lemma createDish_existing_entry_kept :
  let out := createDish Sample.soup (reliable Sample.t1) Sample.stockedAhead in
  findById (categories (files Sample.stockedAhead)) "cat_1" <> None /\
  (exists newDish,
     fst out = Ok newDish /\ Dish.id newDish = "dish_1" /\ Dish.stock newDish = 3) /\
  inventory (files (snd out)) = inventory (files Sample.stockedAhead) /\
  map Item.stock (filter (forDish "dish_1") (inventory (files (snd out)))) = [7] /\
  ~ (exists r,
       filter (forDish "dish_1") (inventory (files (snd out))) = [r] /\
       Item.stock r = 3).
Proof.
  vm_compute. split; [discriminate|]. split; [eauto|]. split; [reflexivity|].
  split; [reflexivity|]. intros (r & Hr & Hs). injection Hr as <-. discriminate Hs.
Qed.

End Dishes.

(* ================================================================== *)
(** * Synchronisation of the inventory with the dishes *)
(* ================================================================== *)

Section Synchronisation.
Import InventoryService.

Lemma orZ_same (z : Z) : JS.orZ (Some z) 0 = z.
Proof. unfold JS.orZ. destruct (Z.eqb_spec z 0); congruence. Qed.

Lemma find_updateFirst_hit (p : Item.t -> bool) (f : Item.t -> Item.t)
    (l : list Item.t) (x : Item.t) :
  find p l = Some x -> p (f x) = true -> find p (updateFirst p f l) = Some (f x).
Proof.
  induction l as [|a l IH]; simpl; [discriminate|].
  destruct (p a) eqn:Ha.
  - intros [= ->] Hf. simpl. now rewrite Hf.
  - intros H Hf. simpl. rewrite Ha. auto.
Qed.

Lemma find_updateFirst_other (p q : Item.t -> bool) (f : Item.t -> Item.t)
    (l : list Item.t) :
  (forall x, p x = true -> q x = false /\ q (f x) = false) ->
  find q (updateFirst p f l) = find q l.
Proof.
  intros H. induction l as [|a l IH]; simpl; auto.
  destruct (p a) eqn:Ha; simpl.
  - destruct (H a Ha) as [H1 H2]. now rewrite H1, H2.
  - rewrite IH. reflexivity.
Qed.

Lemma forDish_other (a b : string) (x : Item.t) :
  a <> b -> forDish a x = true -> forDish b x = false.
Proof.
  unfold forDish. intros Hab Ha. apply String.eqb_eq in Ha.
  apply String.eqb_neq. congruence.
Qed.

(** A dish that is in step is skipped by the loop. *)
Lemma syncDish_skip (t : Timestamp) (inv : list Item.t) (c u : nat) (d : Dish.t) :
  synced inv d -> syncDish t (inv, c, u) d = (inv, c, u).
Proof.
  intros (r & Hf & Hs). unfold syncDish. rewrite Hf, Hs, Z.eqb_refl. reflexivity.
Qed.

Lemma sync_fold_skip (t : Timestamp) (l : list Dish.t) (inv : list Item.t) (c u : nat) :
  Forall (synced inv) l -> fold_left (syncDish t) l (inv, c, u) = (inv, c, u).
Proof.
  induction 1 as [|d l Hd _ IH]; cbn [fold_left]; auto. now rewrite syncDish_skip.
Qed.

(** One turn of the loop brings its dish in step. *)
Lemma syncDish_syncs (t : Timestamp) (inv : list Item.t) (c u : nat) (d : Dish.t) :
  synced (fst (fst (syncDish t (inv, c, u) d))) d.
Proof.
  unfold syncDish, synced.
  destruct (find (forDish (Dish.id d)) inv) as [r|] eqn:Hf.
  - destruct (Z.eqb_spec (Item.stock r) (Dish.stock d)) as [He|Hne]; simpl.
    + eauto.
    + exists (Item.setStock (Dish.stock d) t r). split; [|reflexivity].
      apply find_updateFirst_hit; auto.
      apply find_some in Hf. exact (proj2 Hf).
  - simpl. eexists. split.
    + apply find_app_last; auto. unfold forDish. simpl. apply String.eqb_refl.
    + simpl. apply orZ_same.
Qed.

(** A turn of the loop for another dish id leaves a dish in step. *)
Lemma syncDish_keeps (t : Timestamp) (inv : list Item.t) (c u : nat) (d d' : Dish.t) :
  Dish.id d' <> Dish.id d ->
  synced inv d -> synced (fst (fst (syncDish t (inv, c, u) d'))) d.
Proof.
  intros Hne (r & Hf & Hs). unfold syncDish, synced.
  destruct (find (forDish (Dish.id d')) inv) as [r'|] eqn:Hf'.
  - destruct (Z.eqb_spec (Item.stock r') (Dish.stock d')); simpl; [eauto|].
    exists r. split; auto. rewrite find_updateFirst_other; auto.
    intros x Hx. split; apply (forDish_other (Dish.id d') (Dish.id d)); auto.
  - simpl. exists r. split; auto. eapply find_app_keep; eauto.
Qed.

Lemma sync_fold_keeps (t : Timestamp) (l : list Dish.t) (d : Dish.t) :
  ~ In (Dish.id d) (map Dish.id l) ->
  forall inv c u,
    synced inv d -> synced (fst (fst (fold_left (syncDish t) l (inv, c, u)))) d.
Proof.
  induction l as [|d' l IH]; cbn [fold_left map]; intros Hnin inv c u Hs; auto.
  pose proof (syncDish_keeps t inv c u d d') as Hk.
  destruct (syncDish t (inv, c, u) d') as [[inv1 c1] u1]. simpl in Hk.
  apply IH; [intros Hin; apply Hnin; right; exact Hin|].
  apply Hk; auto. intros Heq. apply Hnin. left. exact Heq.
Qed.

(** After the loop every dish is in step, provided no two dishes share
    an id. *)
Lemma sync_fold_syncs (t : Timestamp) (l : list Dish.t) :
  NoDup (map Dish.id l) ->
  forall inv c u,
    Forall (synced (fst (fst (fold_left (syncDish t) l (inv, c, u))))) l.
Proof.
  induction l as [|d l IH]; cbn [fold_left map]; intros Hnd inv c u; [constructor|].
  inversion Hnd as [|? ? Hnin Hnd']; subst.
  pose proof (syncDish_syncs t inv c u d) as Hd.
  destruct (syncDish t (inv, c, u) d) as [[inv1 c1] u1]. simpl in Hd.
  constructor; [|apply IH; auto].
  apply sync_fold_keeps; auto.
Qed.

(** The counters only grow, and the array changes only when one of
    them does: when both are at their start, the array is the one read
    from the file, and skipping the write loses nothing. *)
Lemma syncDish_counts (t : Timestamp) (inv : list Item.t) (c u : nat) (d : Dish.t) :
  let '(inv', c', u') := syncDish t (inv, c, u) d in
  (c <= c' /\ u <= u')%nat /\ (c' = c -> u' = u -> inv' = inv).
Proof.
  unfold syncDish. destruct (find _ inv) as [r|].
  - destruct (negb _); (split; [lia|]); intros; auto; lia.
  - split; [lia|]. intros; lia.
Qed.

Lemma sync_fold_counts (t : Timestamp) (l : list Dish.t) :
  forall inv c u,
    let '(inv', c', u') := fold_left (syncDish t) l (inv, c, u) in
    (c <= c' /\ u <= u')%nat /\ (c' = c -> u' = u -> inv' = inv).
Proof.
  induction l as [|d l IH]; cbn [fold_left]; intros inv c u.
  - split; [lia|auto].
  - pose proof (syncDish_counts t inv c u d) as H1.
    destruct (syncDish t (inv, c, u) d) as [[inv1 c1] u1].
    specialize (IH inv1 c1 u1).
    destruct (fold_left (syncDish t) l (inv1, c1, u1)) as [[inv2 c2] u2].
    destruct H1 as [[? ?] H1], IH as [[? ?] IH]. split; [lia|].
    intros -> ->. assert (c1 = c) by lia. assert (u1 = u) by lia. subst.
    rewrite IH; auto.
Qed.



Lemma RawSync_updateFirst (p : Item.t -> bool) (q : RawSync.item -> bool)
    (f : Item.t -> Item.t) (g : RawSync.item -> RawSync.item) (l : list Item.t) :
  (forall x, q (RawSync.ofItem x) = p x) ->
  (forall x, g (RawSync.ofItem x) = RawSync.ofItem (f x)) ->
  RawSync.updateFirst q g (map RawSync.ofItem l) = map RawSync.ofItem (updateFirst p f l).
Proof.
  intros Hq Hg. induction l as [|a l IH]; cbn [map RawSync.updateFirst updateFirst];
    [reflexivity|].
  rewrite Hq. destruct (p a); cbn [map]; [now rewrite Hg|now rewrite IH].
Qed.

Lemma RawSync_find (p : Item.t -> bool) (q : RawSync.item -> bool) (l : list Item.t) :
  (forall x, q (RawSync.ofItem x) = p x) ->
  find q (map RawSync.ofItem l) = option_map RawSync.ofItem (find p l).
Proof.
  intros Hq. induction l as [|a l IH]; cbn [map find]; [reflexivity|].
  rewrite Hq. destruct (p a); [reflexivity|exact IH].
Qed.

(** On dishes and records that carry an integer stock the loop on
    untyped records is the loop of the service. *)
Lemma RawSync_agrees (t : Timestamp) (l : list Dish.t) :
  forall (inv : list Item.t) (c u : nat),
    fold_left (RawSync.syncDish t) (map RawSync.ofDish l) (map RawSync.ofItem inv, c, u)
    = (let '(inv', c', u') := fold_left (syncDish t) l (inv, c, u) in
       (map RawSync.ofItem inv', c', u')).
Proof.
  induction l as [|d l IH]; intros inv c u; cbn [map fold_left]; [reflexivity|].
  assert (Hstep : RawSync.syncDish t (map RawSync.ofItem inv, c, u) (RawSync.ofDish d)
                  = (let '(inv', c', u') := syncDish t (inv, c, u) d in
                     (map RawSync.ofItem inv', c', u'))).
  { unfold RawSync.syncDish, syncDish.
    cbn [RawSync.ofDish RawSync.id RawSync.stock].
    rewrite (RawSync_find (forDish (Dish.id d))) by reflexivity.
    destruct (find (forDish (Dish.id d)) inv) as [r|]; cbn [option_map].
    - cbn [RawSync.ofItem RawSync.itemStock RawSync.differ].
      destruct (negb (Item.stock r =? Dish.stock d)); [|reflexivity].
      rewrite (RawSync_updateFirst (forDish (Dish.id d)) _
                 (Item.setStock (Dish.stock d) t)); reflexivity.
    - rewrite map_app. reflexivity. }
  rewrite Hstep. destruct (syncDish t (inv, c, u) d) as [[inv1 c1] u1]. apply IH.
Qed.


(** The first run on that sample creates one record and updates one. *)
Example synchronizeInventory_first_run :
  option_map (fun r => (created r, updated r, total r))
    (match fst (synchronizeInventory (reliable Sample.t1) Sample.outOfStep) with
     | Ok r => Some r
     | Err _ => None
     end) = Some (1, 1, 2)%nat.
Proof. reflexivity. Qed.

End Synchronisation.

(* ================================================================== *)
(** * Low-stock listing *)
(* ================================================================== *)

Section LowStock.
Import InventoryService.

Lemma insertByStock_perm (x : Item.enriched) (l : list Item.enriched) :
  Permutation (x :: l) (insertByStock x l).
Proof.
  induction l as [|y l IH]; simpl; auto.
  destruct (stockOf x <=? stockOf y); auto.
  eapply perm_trans; [apply perm_swap|]. now constructor.
Qed.

Lemma sortByStock_perm (l : list Item.enriched) : Permutation l (sortByStock l).
Proof.
  induction l as [|x l IH]; simpl; auto.
  eapply perm_trans; [|apply insertByStock_perm]. now constructor.
Qed.

Lemma insertByStock_sorted (x : Item.enriched) (l : list Item.enriched) :
  Sorted byStock l -> Sorted byStock (insertByStock x l).
Proof.
  induction 1 as [|y l Hs IH Hhd]; simpl; [repeat constructor|].
  destruct (Z.leb_spec (stockOf x) (stockOf y)).
  - constructor; [constructor; auto|]. constructor. exact H.
  - constructor; auto.
    destruct l as [|z l]; simpl in *.
    + constructor. unfold byStock. lia.
    + destruct (Z.leb_spec (stockOf x) (stockOf z)); constructor.
      * unfold byStock. lia.
      * inversion Hhd; auto.
Qed.

Lemma sortByStock_sorted (l : list Item.enriched) : Sorted byStock (sortByStock l).
Proof.
  induction l as [|x l IH]; simpl; [constructor|]. now apply insertByStock_sorted.
Qed.

(** What [getLowStockDishes] returns when both files can be read: the
    records at or below the threshold the code computes, each joined
    with its dish, in ascending order of stock.  A record whose stock
    equals its threshold is listed. *)
Lemma getLowStockDishes_run (io : IO) (w : World) (customThreshold : option Z) :
  readFails io Inventory = false ->
  readFails io Dishes = false ->
  exists l,
    getLowStockDishes customThreshold io w = (Ok l, w) /\
    Sorted byStock l /\
    Permutation l (map (enrich (dishes (files w)))
                     (filter (isLow customThreshold) (inventory (files w)))) /\
    (forall item,
       In item (inventory (files w)) ->
       thresholdFor customThreshold item = Some (Item.stock item) ->
       In (enrich (dishes (files w)) item) l).
Proof.
  intros Hri Hrd. unfold getLowStockDishes, tryLog, bind, readData.
  rewrite Hri, Hrd. cbn [ret]. eexists. split; [reflexivity|].
  split; [apply sortByStock_sorted|]. split.
  - apply Permutation_sym, sortByStock_perm.
  - intros item Hin Hthr.
    eapply Permutation_in; [apply sortByStock_perm|].
    apply in_map, filter_In. split; auto.
    unfold isLow. rewrite Hthr. apply Z.leb_refl.
Qed.

(** The code and the specification agree on every custom threshold
    except 0. *)
Lemma getLowStockDishes_agrees (io : IO) (w : World) (customThreshold : option Z) :
  readFails io Inventory = false ->
  readFails io Dishes = false ->
  customThreshold <> Some 0 ->
  getLowStockDishes customThreshold io w =
    (Ok (lowStockDishes_spec customThreshold (files w)), w).
Proof.
  intros Hri Hrd Hne. unfold getLowStockDishes, tryLog, bind, readData.
  rewrite Hri, Hrd. cbn [ret]. unfold lowStockDishes_spec. do 4 f_equal.
  apply filter_ext. intros item. unfold isLow, isLow_spec, thresholdFor, thresholdFor_spec.
  destruct customThreshold as [c|]; auto.
  destruct (Z.eqb_spec c 0); [congruence|reflexivity].
Qed.

(** C2 at a custom threshold of 0.  The inventory holds one record,
    dish_1 with stock 3 and alert threshold 5.  The specification lists
    the records with [stock <= 0], that is none; the code takes 0 for a
    missing threshold, falls back on the alert threshold and lists
    dish_1. *)
Theorem getLowStockDishes_zero_threshold :
  let w := Sample.world [Sample.category "cat_1"]
             [Sample.dish "dish_1" "cat_1" "on" 3] [Sample.item "dish_1" 3 5] in
  lowStockDishes_spec (Some 0) (files w) = [] /\
  getLowStockDishes (Some 0) (reliable Sample.t1) w =
    (Ok [Item.mkEnriched (Sample.item "dish_1" 3 5) "Noodles" (25 # 2) "on" (Some "cat_1")], w) /\
  getLowStockDishes (Some 0) (reliable Sample.t1) w =
  getLowStockDishes None (reliable Sample.t1) w.
Proof.
  vm_compute. repeat split.
Qed.

End LowStock.

(* ================================================================== *)
(** * Rounding to two decimals *)
(* ================================================================== *)

Section Rounding.
Import JS.

(** The numbers of JavaScript at work: 2.675 and 1.005 are not doubles,
    and the doubles next to them lie below. *)
Example rnd_samples :
  rnd (1 # 10) = (3602879701896397 # 36028797018963968)%Q /\
  rnd 100 = 100%Q /\
  add (lit (1 # 10)) (lit (2 # 10)) <> lit (3 # 10) /\
  gtb (sub (lit (44 # 10)) (lit (43 # 10))) (lit (1 # 10)) = true /\
  rnd 9007199254740993 = 9007199254740992%Q /\
  rnd 9007199254740995 = 9007199254740996%Q.
Proof. repeat split; try reflexivity. vm_compute. discriminate. Qed.

Example toFixed2_samples :
  toFixed2 (lit (3346 # 1000)) = "3.35" /\
  toFixed2 (lit (- 2675 # 1000)) = "-2.67" /\
  toFixed2 (lit (1005 # 1000)) = "1.00" /\
  toFixed2 (lit (- 1 # 1000)) = "-0.00" /\
  toFixed2 (lit 400) = "400.00" /\
  toFixed2 (mul (div (sub (lit 183) (lit 160)) (lit 160)) (lit 100)) = "14.37" /\
  toFixed2 (div (lit 3) (lit 40)) = "0.07" /\
  toFixed2 PInf = "Infinity" /\
  toFixed2 NaN = "NaN".
Proof. repeat split. Qed.

Example parseFloat_samples :
  parseFloat "3.35" = lit (67 # 20) /\
  parseFloat "-0.00" = Fin 0 /\
  parseFloat "400.00" = Fin 400 /\
  parseFloat "Infinity" = PInf /\
  parseFloat "-Infinity" = NInf /\
  parseFloat "NaN" = NaN /\
  parseFloat " 12abc" = Fin 12 /\
  parseFloat ".5" = Fin (1 # 2).
Proof. repeat split. Qed.

Example division_samples :
  div (Fin 800) (Fin 0) = PInf /\
  div (Fin (- 800)) (Fin 0) = NInf /\
  div (Fin 0) (Fin 0) = NaN /\
  mul PInf (Fin 100) = PInf /\
  mul NaN (Fin 100) = NaN.
Proof. repeat split. Qed.

(** ** Rounding to the nearest double *)

Lemma binade_pos (a : Q) : (0 < binade a)%Q.
Proof.
  unfold binade. destruct (Qle_bool _ _); apply Qpower_0_lt; reflexivity.
Qed.

Lemma binade_le (a : Q) : (0 < a)%Q -> (binade a <= a)%Q.
Proof.
  intros Ha. unfold binade.
  destruct (Qle_bool _ a) eqn:E; [now apply Qle_bool_iff|]. clear E.
  destruct a as [n d]. cbn [Qnum Qden].
  assert (Hn : 0 < n) by (unfold Qlt in Ha; simpl in Ha; lia).
  destruct (Z.log2_spec n Hn) as [Hl _].
  destruct (Z.log2_spec (Zpos d) eq_refl) as [_ Hu].
  pose proof (Z.log2_nonneg n). pose proof (Z.log2_nonneg (Zpos d)).
  replace (Z.log2 n - Z.log2 (Z.pos d) - 1)
    with (Z.log2 n - Z.succ (Z.log2 (Z.pos d))) by lia.
  rewrite Qpower_minus by discriminate.
  change 2%Q with (inject_Z 2). rewrite <- !Zpower_Qpower by lia.
  set (A := 2 ^ Z.log2 n) in *. set (B := 2 ^ Z.succ (Z.log2 (Z.pos d))) in *.
  rewrite (Qmake_Qdiv n d).
  assert (HB : (0 < inject_Z B)%Q) by (rewrite <- (Zlt_Qlt 0); lia).
  assert (HD : (0 < inject_Z (Z.pos d))%Q) by (rewrite <- (Zlt_Qlt 0); lia).
  apply Qle_shift_div_l; [exact HD|].
  unfold Qdiv. rewrite <- Qmult_assoc, (Qmult_comm (/ inject_Z B)), Qmult_assoc.
  apply Qle_shift_div_r; [exact HB|].
  rewrite <- !inject_Z_mult, <- Zle_Qle. nia.
Qed.

Lemma nearestEven_close (x : Q) :
  (inject_Z (nearestEven x) - (1 # 2) <= x <= inject_Z (nearestEven x) + (1 # 2))%Q.
Proof.
  unfold nearestEven. pose proof (Qfloor_le x) as Hl. pose proof (Qlt_floor x) as Hu.
  rewrite inject_Z_plus in Hu. change (inject_Z 1) with 1%Q in Hu.
  set (f := Qfloor x) in *.
  destruct (Qcompare_spec (x - inject_Z f) (1 # 2)) as [E|E|E].
  - destruct (Z.even f); [|rewrite inject_Z_plus; change (inject_Z 1) with 1%Q]; Lqa.lra.
  - Lqa.lra.
  - rewrite inject_Z_plus; change (inject_Z 1) with 1%Q. Lqa.lra.
Qed.

(** Rounding does not depend on how the rational is written. *)
Lemma rnd_wd (q q' : Q) : (q == q')%Q -> rnd q = rnd q'.
Proof.
  intros H. unfold rnd. now rewrite (Qred_complete _ _ H).
Qed.

Lemma Qnum_neg_iff (q : Q) : (Qnum q <? 0) = true <-> (q < 0)%Q.
Proof.
  rewrite Z.ltb_lt. unfold Qlt. simpl. rewrite Z.mul_1_r. reflexivity.
Qed.

(** The double nearest to a number is within half a unit in the last
    place of it, a relative error of at most 2^-53, and has its sign. *)
Lemma rnd_close (q : Q) :
  within (1 # 9007199254740992) (rnd q) q /\
  ((0 < q)%Q -> (0 < rnd q)%Q) /\
  ((q < 0)%Q -> (rnd q < 0)%Q).
Proof.
  unfold within, rnd. pose proof (Qred_correct q) as Hq. set (q' := Qred q) in *.
  destruct (Qeq_bool q' 0) eqn:E0.
  { apply Qeq_bool_iff in E0. rewrite E0 in Hq.
    split; [|split; intros H; rewrite <- Hq in H; discriminate].
    rewrite <- Hq. discriminate. }
  assert (Hne : ~ (q' == 0)%Q).
  { intros H. apply Qeq_bool_iff in H. congruence. }
  assert (Ha : (0 < Qabs q')%Q).
  { destruct (Q_dec q' 0) as [[H|H]|H]; [| |contradiction];
      apply Qabs_case; intros; Lqa.lra. }
  set (a := Qabs q') in *.
  pose proof (binade_pos a) as HP. pose proof (binade_le a Ha) as HPa.
  set (P := binade a) in *.
  set (ulp := (P * (1 # 2 ^ 52))%Q).
  assert (Hulp : (ulp == P * (1 # 4503599627370496))%Q) by reflexivity.
  assert (Hu0 : (0 < ulp)%Q) by Lqa.lra.
  pose proof (nearestEven_close (a / ulp)) as Hm.
  set (m := nearestEven (a / ulp)) in *.
  assert (Hx : (a / ulp * ulp == a)%Q) by (field; Lqa.lra).
  set (x := (a / ulp)%Q) in *.
  set (v := (inject_Z m * ulp)%Q).
  assert (Hv : (- (1 # 2) * ulp <= v - a <= (1 # 2) * ulp)%Q).
  { unfold v. destruct Hm. split; Lqa.nra. }
  assert (Hvpos : (0 < v)%Q) by Lqa.lra.
  assert (Hb : (ulp * (1 # 2) <= a * (1 # 9007199254740992))%Q) by Lqa.lra.
  destruct (Qnum q' <? 0) eqn:Es.
  - apply Qnum_neg_iff in Es.
    assert (Haq : (a == - q')%Q) by (unfold a; apply Qabs_neg; Lqa.lra).
    rewrite Qred_correct. split; [|split; intros H; Lqa.lra].
    rewrite <- Hq. fold a. apply Qabs_Qle_condition. Lqa.lra.
  - assert (Es' : ~ (q' < 0)%Q) by (rewrite <- Qnum_neg_iff; congruence).
    assert (Haq : (a == q')%Q) by (unfold a; apply Qabs_pos; Lqa.lra).
    rewrite Qred_correct. split; [|split; intros H; Lqa.lra].
    rewrite <- Hq. fold a. apply Qabs_Qle_condition. Lqa.lra.
Qed.

Lemma rnd_pos (q : Q) : (0 < q)%Q -> (0 < rnd q)%Q.
Proof. apply rnd_close. Qed.

Lemma rnd_pos_inv (q : Q) : (0 < rnd q)%Q -> (0 < q)%Q.
Proof.
  intros H. destruct (Q_dec q 0) as [[Hlt|Hgt]|Heq]; [|exact Hgt|].
  - apply rnd_close in Hlt. Lqa.lra.
  - rewrite (rnd_wd _ _ Heq) in H. discriminate.
Qed.

Lemma rnd_zero (q : Q) : (rnd q == 0)%Q <-> (q == 0)%Q.
Proof.
  split; intros H.
  - destruct (Q_dec q 0) as [[Hlt|Hgt]|Heq]; [| |exact Heq].
    + apply rnd_close in Hlt. Lqa.lra.
    + apply rnd_close in Hgt. Lqa.lra.
  - now rewrite (rnd_wd _ _ H).
Qed.

(** For a positive number, with a coarser bound that is easier to carry. *)
Lemma rnd_near (q : Q) :
  (0 < q)%Q ->
  (q * (999999 # 1000000) <= rnd q <= q * (1000001 # 1000000))%Q.
Proof.
  intros Hq. destruct (rnd_close q) as (Hc & _ & _). unfold within in Hc.
  rewrite (Qabs_pos q) in Hc by Lqa.lra.
  apply Qabs_Qle_condition in Hc. Lqa.lra.
Qed.

(** ** Relative errors *)

Lemma within_refl (v : Q) : within 0 v v.
Proof.
  unfold within. setoid_replace (v - v)%Q with 0%Q by ring.
  rewrite Qmult_0_r. discriminate.
Qed.

Lemma within_scale (k u v c : Q) : within k u v -> within k (u * c) (v * c).
Proof.
  unfold within. intros H.
  setoid_replace (u * c - v * c)%Q with ((u - v) * c)%Q by ring.
  rewrite !Qabs_Qmult. pose proof (Qabs_nonneg c).
  setoid_replace (Qabs v * Qabs c * k)%Q with (Qabs v * k * Qabs c)%Q by ring.
  apply Qmult_le_compat_r; assumption.
Qed.

Lemma within_rnd (k u v : Q) :
  (0 <= k)%Q -> within k u v ->
  within (k + (1 # 9007199254740992) * (1 + k)) (rnd u) v.
Proof.
  unfold within. intros Hk H.
  destruct (rnd_close u) as (Hr & _ & _). unfold within in Hr.
  pose proof (Qabs_triangle (rnd u - u) (u - v)) as T1.
  setoid_replace (rnd u - u + (u - v))%Q with (rnd u - v)%Q in T1 by ring.
  pose proof (Qabs_triangle v (u - v)) as T2.
  setoid_replace (v + (u - v))%Q with u in T2 by ring.
  pose proof (Qabs_nonneg v). pose proof (Qabs_nonneg (u - v)).
  set (V := Qabs v) in *. set (U := Qabs u) in *. set (D := Qabs (u - v)) in *.
  set (R := Qabs (rnd u - u)) in *. set (G := Qabs (rnd u - v)) in *.
  Lqa.nra.
Qed.

Lemma within_weaken (k k' u v : Q) : (k <= k')%Q -> within k u v -> within k' u v.
Proof.
  unfold within. intros Hk H. pose proof (Qabs_nonneg v).
  set (V := Qabs v) in *. set (D := Qabs (u - v)) in *. Lqa.nra.
Qed.

(** ** Reading back what [toFixed2] wrote *)

Lemma spanDigits_uint (u : Decimal.uint) (rest : string) :
  spanDigits (NilEmpty.string_of_uint u ++ String "." rest)
  = (NilEmpty.string_of_uint u, String "." rest).
Proof.
  induction u; simpl; try rewrite IHu; reflexivity.
Qed.

Lemma head_uint (u : Decimal.uint) (rest : string) :
  let s := (NilEmpty.string_of_uint u ++ String "." rest)%string in
  skipSpaces s = s /\
  match s with
  | String "-" r => (true, r)
  | String "+" r => (false, r)
  | _ => (false, s)
  end = (false, s) /\
  String.prefix "Infinity" s = false.
Proof.
  destruct u; simpl; repeat split.
Qed.

Lemma digitsValue_uint (u : Decimal.uint) :
  digitsValue (NilEmpty.string_of_uint u) = N.of_uint u.
Proof.
  unfold digitsValue. now rewrite NilEmpty.usu.
Qed.

Lemma twoDigits_read (m : nat) :
  (m < 100)%nat ->
  spanDigits (twoDigits m) = (twoDigits m, "") /\
  String.length (twoDigits m) = 2%nat /\
  digitsValue (twoDigits m) = N.of_nat m.
Proof.
  intros H.
  do 100 (destruct m as [|m]; [vm_compute; repeat split|]).
  lia.
Qed.

Lemma hundredths_nonneg (q : Q) : 0 <= hundredths q.
Proof.
  unfold hundredths.
  change 0 with (Qfloor 0). apply Qfloor_resp_le.
  pose proof (Qabs_nonneg q) as H.
  assert (0 <= Qabs q * 100)%Q by (apply Qmult_le_0_compat; [exact H|discriminate]).
  assert (0 <= 1 # 2)%Q by discriminate.
  change 0%Q with (0 + 0)%Q. apply Qplus_le_compat; assumption.
Qed.

(** Reading back what [toFixed2] wrote gives the number rounded to two
    decimals. *)
Lemma parseFloat_toFixed2 (x : num) : parseFloat (toFixed2 x) = roundTo2 x.
Proof.
  destruct x as [q| | |]; try reflexivity.
  unfold toFixed2, roundTo2. cbv zeta.
  pose proof (hundredths_nonneg q) as Hn.
  set (n := hundredths q) in *.
  assert (Hm : (Z.to_nat (n mod 100) < 100)%nat).
  { pose proof (Z.mod_pos_bound n 100 ltac:(lia)). lia. }
  destruct (twoDigits_read _ Hm) as (Hspan & Hlen & Hval).
  set (frac := twoDigits (Z.to_nat (n mod 100))) in *.
  unfold NtoString. set (u := N.to_uint (Z.to_N (n / 100))).
  assert (Hu : N.of_uint u = Z.to_N (n / 100)) by apply DecimalN.Unsigned.of_to.
  destruct (head_uint u frac) as (Hskip & Hsign & Hinf).
  assert (Hbody : forall negative : bool,
    (if String.prefix "Infinity" (NilEmpty.string_of_uint u ++ String "." frac)
     then if negative then NInf else PInf
     else
       let (ip, s2) := spanDigits (NilEmpty.string_of_uint u ++ String "." frac) in
       let fp := match s2 with
                 | String "." r => fst (spanDigits r)
                 | _ => ""
                 end in
       if ((String.length ip + String.length fp) =? 0)%nat then NaN
       else
         let scale := 10 ^ Z.of_nat (String.length fp) in
         let m := Z.of_N (digitsValue ip) * scale + Z.of_N (digitsValue fp) in
         lit ((if negative then - m else m) # Z.to_pos scale))
    = lit ((if negative then - n else n) # 100)).
  { intros negative. rewrite Hinf, spanDigits_uint.
    change (match String "." frac with
            | String "." r => fst (spanDigits r)
            | _ => ""
            end) with (fst (spanDigits frac)).
    rewrite Hspan. cbn [fst]. rewrite Hlen, digitsValue_uint, Hval, Hu.
    rewrite Nat.add_comm. cbn [Nat.add Nat.eqb].
    cbv zeta. change (10 ^ Z.of_nat 2) with 100. change (Z.to_pos 100) with 100%positive.
    assert (Hsum : Z.of_N (Z.to_N (n / 100)) * 100 + Z.of_N (N.of_nat (Z.to_nat (n mod 100))) = n).
    { pose proof (Z.mod_pos_bound n 100 ltac:(lia)).
      assert (0 <= n / 100) by (apply Z.div_pos; lia).
      rewrite Z2N.id by lia. rewrite nat_N_Z, Z2Nat.id by lia.
      pose proof (Z.div_mod n 100 ltac:(lia)). lia. }
    rewrite Hsum. reflexivity. }
  unfold parseFloat.
  destruct (Qnum q <? 0).
  - change ("-" ++ NilEmpty.string_of_uint u ++ "." ++ frac)%string
      with (String "-" (NilEmpty.string_of_uint u ++ String "." frac)).
    cbn [skipSpaces isSpace nat_of_ascii]. simpl skipSpaces.
    apply (Hbody true).
  - change ("" ++ NilEmpty.string_of_uint u ++ "." ++ frac)%string
      with (NilEmpty.string_of_uint u ++ String "." frac)%string.
    rewrite Hskip, Hsign. apply (Hbody false).
Qed.

(** [hundredths q] is the integer nearest to [|q| * 100], the larger
    one at a tie. *)
Lemma hundredths_nearest (q : Q) :
  (inject_Z (hundredths q) - (1 # 2) <= Qabs q * 100 /\
   Qabs q * 100 < inject_Z (hundredths q) + (1 # 2))%Q.
Proof.
  unfold hundredths. set (x := (Qabs q * 100 + (1 # 2))%Q).
  pose proof (Qfloor_le x) as Hle. pose proof (Qlt_floor x) as Hlt.
  rewrite inject_Z_plus in Hlt. subst x. split.
  - apply Qplus_le_l with (z := (1 # 2)%Q). ring_simplify.
    ring_simplify in Hle. exact Hle.
  - apply Qplus_lt_l with (z := (1 # 2)%Q).
    eapply Qlt_le_trans; [exact Hlt|]. ring_simplify. apply Qle_refl.
Qed.

(** Rounding to two decimals does not depend on how the rational is
    written. *)
Lemma roundTo2_wd (q q' : Q) : (q == q')%Q -> roundTo2 (Fin q) = roundTo2 (Fin q').
Proof.
  intros H. unfold roundTo2. cbv zeta.
  assert (Hh : hundredths q = hundredths q').
  { unfold hundredths. now rewrite H. }
  assert (Hs : (Qnum q <? 0) = (Qnum q' <? 0)).
  { apply eq_true_iff_eq. rewrite !Qnum_neg_iff. now rewrite H. }
  now rewrite Hh, Hs.
Qed.

Lemma gtb_Fin (a b : Q) : gtb (Fin a) (Fin b) = true <-> (b < a)%Q.
Proof.
  simpl. rewrite negb_true_iff. split.
  - intros H. apply Qnot_le_lt. intros Hle. apply Qle_bool_iff in Hle. congruence.
  - intros H. destruct (Qle_bool a b) eqn:E; auto.
    apply Qle_bool_iff in E. exfalso. eapply Qlt_not_le; eauto.
Qed.

Lemma gtb_Fin_false (a b : Q) : gtb (Fin a) (Fin b) = false <-> ~ (b < a)%Q.
Proof.
  rewrite <- gtb_Fin. destruct (gtb (Fin a) (Fin b)); split; congruence.
Qed.

(** What [parseFloat(x.toFixed(2))] returns is [x] rounded to two
    decimals. *)
Lemma read_fixed (x : Q) : rounded2 x (parseFloat (toFixed2 (Fin x))).
Proof.
  rewrite parseFloat_toFixed2. unfold roundTo2, rounded2. cbv zeta.
  exists (hundredths x). destruct (hundredths_nearest x) as [H1 H2].
  split; [exact H1|]. split; [exact H2|]. split; intros Hx.
  - apply Qnum_neg_iff in Hx. rewrite Hx. reflexivity.
  - destruct (Qnum x <? 0) eqn:E; [apply Qnum_neg_iff in E; Lqa.lra|reflexivity].
Qed.

Lemma gtb_lit_zero (c : Q) : gtb (lit c) zero = true <-> (0 < c)%Q.
Proof.
  unfold lit, zero. rewrite gtb_Fin. split; [apply rnd_pos_inv|apply rnd_pos].
Qed.

Lemma gtb_lit_zero_false (c : Q) : gtb (lit c) zero = false <-> ~ (0 < c)%Q.
Proof.
  rewrite <- gtb_lit_zero. destruct (gtb (lit c) zero); split; congruence.
Qed.

Lemma inf_of_positive (x : Q) : (0 < x)%Q -> inf (sgn x) = PInf.
Proof.
  intros H. unfold Qlt in H. simpl in H. rewrite Z.mul_1_r in H.
  unfold sgn. destruct (Qnum x); simpl; try lia. reflexivity.
Qed.

(** [(a - b) / b * 100] in the arithmetic of the services, for doubles
    [a] and [b] and a divisor that is not zero: a finite number, the
    rational of the same formula up to three roundings. *)
Lemma ratio_percent (a b : Q) :
  ~ (b == 0)%Q ->
  exists x, mul (div (sub (Fin a) (Fin b)) (Fin b)) (lit 100) = Fin x /\
            within (1 # 2 ^ 51) x ((a - b) / b * 100).
Proof.
  intros Hb. change (lit 100) with (Fin 100). unfold sub, div.
  destruct (Qeq_bool b 0) eqn:E; [apply Qeq_bool_iff in E; contradiction|].
  unfold mul. eexists. split; [reflexivity|].
  pose proof (within_rnd 0 (a - b) (a - b) ltac:(discriminate) (within_refl _)) as H1.
  apply (within_scale _ _ _ (/ b)) in H1.
  apply within_rnd in H1; [|discriminate].
  apply (within_scale _ _ _ 100) in H1.
  apply within_rnd in H1; [|discriminate].
  eapply within_weaken; [|exact H1]. vm_compute. discriminate.
Qed.

(** [a / b] for doubles and a divisor that is not zero. *)
Lemma quotient (a b : Q) :
  ~ (b == 0)%Q ->
  exists x, div (Fin a) (Fin b) = Fin x /\ within (1 # 2 ^ 53) x (a / b).
Proof.
  intros Hb. unfold div.
  destruct (Qeq_bool b 0) eqn:E; [apply Qeq_bool_iff in E; contradiction|].
  eexists. split; [reflexivity|].
  pose proof (within_rnd 0 (a / b) (a / b) ltac:(discriminate) (within_refl _)) as H1.
  eapply within_weaken; [|exact H1]. vm_compute. discriminate.
Qed.

End Rounding.

(* ================================================================== *)
(** * Growth rates and promotion ROI *)
(* ================================================================== *)

Section Rates.
Import JS.
Import StatsService.

(** The value of [cond ? (((a - b) / b) * 100).toFixed(2) : 0] after
    [parseFloat], for a condition [c > 0] and doubles [a] and [b]. *)
Lemma guarded_percent (c a b : Q) :
  let v := parseFloatOf
             (if gtb (lit c) zero
              then VStr (toFixed2 (mul (div (sub (Fin a) (Fin b)) (Fin b)) (lit 100)))
              else VNum zero) in
  ((0 < c)%Q -> ~ (b == 0)%Q ->
     exists x, mul (div (sub (Fin a) (Fin b)) (Fin b)) (lit 100) = Fin x /\
               within (1 # 2 ^ 51) x ((a - b) / b * 100) /\
               rounded2 x v) /\
  ((0 < c)%Q -> (b == 0)%Q -> (0 < a)%Q -> v = PInf) /\
  (~ (0 < c)%Q -> v = Fin 0).
Proof.
  intros v. subst v.
  destruct (gtb (lit c) zero) eqn:E.
  - apply gtb_lit_zero in E. cbn [parseFloatOf].
    split; [|split; [|contradiction]].
    + intros _ Hb. destruct (ratio_percent a b Hb) as (x & Ex & Hx).
      exists x. split; [exact Ex|]. split; [exact Hx|]. rewrite Ex. apply read_fixed.
    + intros _ Hb Ha. rewrite parseFloat_toFixed2.
      change (lit 100) with (Fin 100). unfold sub, div.
      apply Qeq_bool_iff in Hb. rewrite Hb. apply Qeq_bool_iff in Hb.
      rewrite inf_of_positive; [reflexivity|].
      apply rnd_pos. rewrite Hb. unfold Qminus. rewrite Qplus_0_r. exact Ha.
  - apply gtb_lit_zero_false in E. cbn [parseFloatOf].
    split; [intros; contradiction|]. split; [intros; contradiction|auto].
Qed.

(** C6.  With the statistics and dishes files readable,
    [getOrderStatistics] returns metrics in which
    - [revenueGrowthRate], when [yesterdayRevenue > 0], is the value [x]
      of [((todayRevenue - yesterdayRevenue) / yesterdayRevenue) * 100]
      in double arithmetic, rounded to two decimals: [x] is the rational
      of that formula up to a relative error of 2^-51, and the rate is
      the multiple of 1/100 nearest to [x] (away from zero at a tie),
      as a double;
    - [revenueGrowthRate] is the number 0 when [yesterdayRevenue] is 0
      (or negative);
    - [orderGrowthRate] is the same with the order counts. *)
Theorem getOrderStatistics_growth (io : IO) (w : World) :
  readFails io OrdersStats = false ->
  readFails io Dishes = false ->
  exists r,
    getOrderStatistics io w = (Ok r, w) /\
    let s := ordersStats (files w) in
    let todayRevenue := rnd (Orders.todayRevenue s) in
    let yesterdayRevenue := rnd (Orders.yesterdayRevenue s) in
    let todayOrders := rnd (Orders.todayOrders s) in
    let yesterdayOrders := rnd (Orders.yesterdayOrders s) in
    ((0 < Orders.yesterdayRevenue s)%Q ->
       exists x,
         mul (div (sub (Fin todayRevenue) (Fin yesterdayRevenue)) (Fin yesterdayRevenue))
             (lit 100) = Fin x /\
         within (1 # 2 ^ 51) x
           ((todayRevenue - yesterdayRevenue) / yesterdayRevenue * 100) /\
         rounded2 x (revenueGrowthRate (metrics r))) /\
    (~ (0 < Orders.yesterdayRevenue s)%Q ->
       revenueGrowthRate (metrics r) = Fin 0) /\
    ((0 < Orders.yesterdayOrders s)%Q ->
       exists x,
         mul (div (sub (Fin todayOrders) (Fin yesterdayOrders)) (Fin yesterdayOrders))
             (lit 100) = Fin x /\
         within (1 # 2 ^ 51) x
           ((todayOrders - yesterdayOrders) / yesterdayOrders * 100) /\
         rounded2 x (orderGrowthRate (metrics r))) /\
    (~ (0 < Orders.yesterdayOrders s)%Q ->
       orderGrowthRate (metrics r) = Fin 0).
Proof.
  intros Hro Hrd. unfold getOrderStatistics, tryLog, bind, readData.
  rewrite Hro, Hrd. cbn [ret]. eexists. split; [reflexivity|].
  cbv zeta. cbn [metrics revenueGrowthRate orderGrowthRate].
  set (s := ordersStats (files w)).
  destruct (guarded_percent (Orders.yesterdayRevenue s) (rnd (Orders.todayRevenue s))
              (rnd (Orders.yesterdayRevenue s))) as (Hrev & _ & Hrev0).
  destruct (guarded_percent (Orders.yesterdayOrders s) (rnd (Orders.todayOrders s))
              (rnd (Orders.yesterdayOrders s))) as (Hord & _ & Hord0).
  cbv zeta in Hrev, Hrev0, Hord, Hord0.
  split; [|split; [|split]].
  - intros H. apply Hrev; [exact H|]. rewrite rnd_zero. intros E. rewrite E in H. discriminate.
  - exact Hrev0.
  - intros H. apply Hord; [exact H|]. rewrite rnd_zero. intros E. rewrite E in H. discriminate.
  - exact Hord0.
Qed.

(** The sample statistics: revenue went from 1000 to 1250, a growth of
    25; there were no orders yesterday, and the order growth is 0. *)
Lemma getOrderStatistics_growth_witness :
  exists r,
    getOrderStatistics (reliable Sample.t1) Sample.shopWithStats
      = (Ok r, Sample.shopWithStats) /\
    rounded2 25 (revenueGrowthRate (metrics r)) /\
    orderGrowthRate (metrics r) = Fin 0.
Proof.
  destruct (getOrderStatistics_growth (reliable Sample.t1) Sample.shopWithStats
              eq_refl eq_refl) as (r & E & Hrev & _ & _ & Hord).
  exists r. split; [exact E|]. split.
  - destruct (Hrev eq_refl) as (x & Ex & _ & Hx).
    vm_compute in Ex. injection Ex as <-. exact Hx.
  - apply Hord. discriminate.
Defined.

(** Revenue from 160 to 183: the quotient 23/160 is not a double, the
    product with 100 comes out just below 14.375, and the rate is
    14.37. *)
Example getOrderStatistics_growth_near_tie :
  exists r,
    getOrderStatistics (reliable Sample.t1) Sample.shopNearTie
      = (Ok r, Sample.shopNearTie) /\
    revenueGrowthRate (metrics r) = lit (1437 # 100).
Proof. eexists. split; reflexivity. Qed.

(** C1.  With the statistics and dishes files readable,
    [getPromotionAnalytics id] returns [null] when no promotion has the
    id, and otherwise the analytics of the first promotion with that id
    (active ones first), in which [roi] is
    - when [totalRevenue > 0] and [discountGiven] is not 0, the value
      [x] of [((totalRevenue - discountGiven) / discountGiven) * 100] in
      double arithmetic, rounded to two decimals: [x] is the rational of
      that formula up to a relative error of 2^-51, and [roi] is the
      multiple of 1/100 nearest to [x] (away from zero at a tie), as a
      double;
    - [Infinity] when [totalRevenue > 0] and [discountGiven] is 0, since
      the guard looks at [totalRevenue] and not at the divisor;
    - the number 0 when [totalRevenue] is 0 (or negative). *)
Theorem getPromotionAnalytics_roi (io : IO) (w : World) (promotionId : string) :
  readFails io PromotionsStats = false ->
  readFails io Dishes = false ->
  match findPromotion (promotionsStats (files w)) promotionId with
  | None => getPromotionAnalytics promotionId io w = (Ok None, w)
  | Some (p, active) =>
      exists r,
        getPromotionAnalytics promotionId io w = (Ok (Some r), w) /\
        promotion r = p /\
        isActive r = active /\
        let totalRevenue := rnd (Promotion.totalRevenue p) in
        let discountGiven := rnd (Promotion.discountGiven p) in
        ((0 < Promotion.totalRevenue p)%Q -> ~ (Promotion.discountGiven p == 0)%Q ->
           exists x,
             mul (div (sub (Fin totalRevenue) (Fin discountGiven)) (Fin discountGiven))
                 (lit 100) = Fin x /\
             within (1 # 2 ^ 51) x
               ((totalRevenue - discountGiven) / discountGiven * 100) /\
             rounded2 x (roi (analytics r))) /\
        ((0 < Promotion.totalRevenue p)%Q -> (Promotion.discountGiven p == 0)%Q ->
           roi (analytics r) = PInf) /\
        (~ (0 < Promotion.totalRevenue p)%Q -> roi (analytics r) = Fin 0)
  end.
Proof.
  intros Hrp Hrd. unfold getPromotionAnalytics, tryLog, bind, readData.
  rewrite Hrp, Hrd.
  destruct (findPromotion (promotionsStats (files w)) promotionId) as [[p active]|];
    [|reflexivity].
  cbn [ret]. eexists. split; [reflexivity|].
  cbn [promotion isActive analytics roi]. split; [reflexivity|]. split; [reflexivity|].
  cbv zeta.
  destruct (guarded_percent (Promotion.totalRevenue p) (rnd (Promotion.totalRevenue p))
              (rnd (Promotion.discountGiven p))) as (Hrat & Hinf & Hzero).
  cbv zeta in Hrat, Hinf, Hzero.
  split; [|split].
  - intros Htr Hdg. apply Hrat; [exact Htr|]. now rewrite rnd_zero.
  - intros Htr Hdg. apply Hinf; [exact Htr| |now apply rnd_pos]. now rewrite rnd_zero.
  - exact Hzero.
Qed.

(** The three sample promotions: revenue 1500 for a discount of 300
    gives 400; revenue 800 for no discount gives [Infinity]; no revenue
    gives 0 whatever the discount. *)
Lemma getPromotionAnalytics_roi_witness :
  (exists r,
     getPromotionAnalytics "promo_1" (reliable Sample.t1) Sample.shopWithStats
       = (Ok (Some r), Sample.shopWithStats) /\
     rounded2 400 (roi (analytics r))) /\
  (exists r,
     getPromotionAnalytics "promo_2" (reliable Sample.t1) Sample.shopWithStats
       = (Ok (Some r), Sample.shopWithStats) /\
     roi (analytics r) = PInf) /\
  (exists r,
     getPromotionAnalytics "promo_3" (reliable Sample.t1) Sample.shopWithStats
       = (Ok (Some r), Sample.shopWithStats) /\
     roi (analytics r) = Fin 0).
Proof.
  repeat split.
  - destruct (getPromotionAnalytics_roi (reliable Sample.t1) Sample.shopWithStats
                "promo_1" eq_refl eq_refl) as (r & E & _ & _ & H & _).
    exists r. split; [exact E|].
    destruct (H eq_refl ltac:(discriminate)) as (x & Ex & _ & Hx).
    vm_compute in Ex. injection Ex as <-. exact Hx.
  - destruct (getPromotionAnalytics_roi (reliable Sample.t1) Sample.shopWithStats
                "promo_2" eq_refl eq_refl) as (r & E & _ & _ & _ & H & _).
    exists r. split; [exact E|]. apply H; reflexivity.
  - destruct (getPromotionAnalytics_roi (reliable Sample.t1) Sample.shopWithStats
                "promo_3" eq_refl eq_refl) as (r & E & _ & _ & _ & _ & H).
    exists r. split; [exact E|]. apply H. discriminate.
Defined.

(** Revenue 183 for a discount of 160: [roi] is 14.37, as the service
    computes it in doubles. *)
Example getPromotionAnalytics_roi_near_tie :
  exists r,
    getPromotionAnalytics "promo_4" (reliable Sample.t1) Sample.shopNearTie
      = (Ok (Some r), Sample.shopNearTie) /\
    roi (analytics r) = lit (1437 # 100).
Proof. eexists. split; reflexivity. Qed.

End Rates.

(* ================================================================== *)
(** * Review trend and top-rated dish *)
(* ================================================================== *)

Section Reviews.
Import StatsService.

(** C10.  On an empty series and on a series of one month
    [calculateReviewTrend] returns [{direction: 'stable', change: 0}];
    on a series of two months or more it returns the object computed
    from the last two entries, whatever comes before them. *)
Theorem calculateReviewTrend_last_two :
  calculateReviewTrend [] = TrendFlat "stable" 0 /\
  (forall only, calculateReviewTrend [only] = TrendFlat "stable" 0) /\
  (forall older previous latest,
     calculateReviewTrend (older ++ [previous; latest]) = trendOf previous latest) /\
  (forall older previous latest,
     calculateReviewTrend (older ++ [previous; latest])
     = calculateReviewTrend [previous; latest]).
Proof.
  assert (H : forall older previous latest,
             calculateReviewTrend (older ++ [previous; latest]) = trendOf previous latest).
  { intros older previous latest. unfold calculateReviewTrend.
    rewrite length_app. cbn [List.length].
    replace (List.length older + 2 <? 2)%nat with false
      by (symmetry; apply Nat.ltb_ge; lia).
    replace (List.length older + 2 - 1)%nat with (List.length older + 1)%nat by lia.
    replace (List.length older + 2 - 2)%nat with (List.length older + 0)%nat by lia.
    rewrite !nth_error_app2 by lia.
    replace (List.length older + 1 - List.length older)%nat with 1%nat by lia.
    replace (List.length older + 0 - List.length older)%nat with 0%nat by lia.
    reflexivity. }
  split; [reflexivity|]. split; [reflexivity|]. split; [exact H|].
  intros older previous latest. rewrite H. symmetry. apply (H []).
Qed.

(** On the sample months the rating rose by 0.2 from January to
    February, and fell by 0.3 from February to March; January does not
    matter to the second trend. *)
Example calculateReviewTrend_sample :
  calculateReviewTrend [Sample.january; Sample.february]
    = TrendFull "improving" "0.20" 20 (JS.VStr "25.00") /\
  calculateReviewTrend [Sample.january; Sample.february; Sample.march]
    = TrendFull "declining" "-0.30" (-10) (JS.VStr "-10.00").
Proof. split; vm_compute; reflexivity. Qed.

(** From 4.3 to 4.4 the difference of the two doubles is a little more
    than the double 0.1, and the trend is "improving". *)
Example calculateReviewTrend_tenth :
  calculateReviewTrend [Month.mk "2024-01" (43 # 10) 80; Month.mk "2024-02" (44 # 10) 80]
    = TrendFull "improving" "0.10" 0 (JS.VStr "0.00").
Proof. vm_compute. reflexivity. Qed.

Local Open Scope R_scope.

Lemma better_choice (top current : DishReview.t) :
  (better top current = top \/ better top current = current) /\
  score top <= score (better top current) /\
  score current <= score (better top current).
Proof.
  unfold better. destruct (Rlt_dec (score top) (score current)); split; auto; lra.
Qed.

Lemma fold_better_max (rest : list DishReview.t) :
  forall top,
    (fold_left better rest top = top \/ In (fold_left better rest top) rest) /\
    score top <= score (fold_left better rest top) /\
    (forall e, In e rest -> score e <= score (fold_left better rest top)).
Proof.
  induction rest as [|x rest IH]; intros top; cbn [fold_left].
  - split; [auto|]. split; [lra|]. intros e [].
  - destruct (IH (better top x)) as (Hin & Hge & Hall).
    destruct (better_choice top x) as (Hc & Ht & Hx).
    split; [|split].
    + destruct Hin as [Heq|Hin]; [|right; right; exact Hin].
      rewrite Heq. destruct Hc as [->| ->]; [left; reflexivity|right; left; reflexivity].
    + lra.
    + intros e [<-|He]; [lra|auto].
Qed.

Lemma ln_2_pos : 0 < ln 2.
Proof. rewrite <- ln_1. apply ln_increasing; lra. Qed.

Lemma ln_201_lower : 3 * ln 2 < ln 201.
Proof.
  assert (H8 : ln 8 = 3 * ln 2).
  { replace 8 with (2 * (2 * 2)) by lra.
    rewrite !ln_mult by lra. lra. }
  rewrite <- H8. apply ln_increasing; lra.
Qed.

Lemma score_A_below_B : score Sample.dishA < score Sample.dishB.
Proof.
  unfold score, Sample.dishA, Sample.dishB. cbn [DishReview.averageRating DishReview.totalReviews].
  replace (IZR (Z.of_N 1) + 1) with 2 by (simpl; lra).
  replace (IZR (Z.of_N 200) + 1) with 201 by (simpl; lra).
  replace (Q2R (49 # 10)) with (49 / 10) by (unfold Q2R; simpl; lra).
  replace (Q2R (45 # 10)) with (45 / 10) by (unfold Q2R; simpl; lra).
  pose proof ln_2_pos. pose proof ln_201_lower. lra.
Qed.


End Reviews.

(* ================================================================== *)
(** * Stable sort by a key *)
(* ================================================================== *)

Section SortFacts.
Context {A : Type}.
Variable le : A -> A -> bool.
Hypothesis le_total : forall x y, le x y = false -> le y x = true.
Hypothesis le_trans : forall x y z, le x y = true -> le y z = true -> le x z = true.

Lemma insertBy_perm (x : A) (l : list A) :
  Permutation (x :: l) (Sorting.insertBy le x l).
Proof.
  induction l as [|y l IH]; simpl; auto.
  destruct (le x y); auto.
  eapply perm_trans; [apply perm_swap|]. now constructor.
Qed.

Lemma sortBy_perm (l : list A) : Permutation l (Sorting.sortBy le l).
Proof.
  induction l as [|x l IH]; simpl; auto.
  eapply perm_trans; [|apply insertBy_perm]. now constructor.
Qed.

Lemma insertBy_sorted (x : A) (l : list A) :
  StronglySorted (fun a b => le a b = true) l ->
  StronglySorted (fun a b => le a b = true) (Sorting.insertBy le x l).
Proof.
  induction 1 as [|y l Hs IH Hall]; simpl; [repeat constructor|].
  destruct (le x y) eqn:E.
  - constructor; [constructor; auto|].
    constructor; auto.
    eapply Forall_impl; [|exact Hall]. intros z Hz. simpl in Hz. eauto.
  - constructor; auto.
    eapply Permutation_Forall; [apply insertBy_perm|].
    constructor; auto.
Qed.

Lemma sortBy_sorted (l : list A) :
  StronglySorted (fun a b => le a b = true) (Sorting.sortBy le l).
Proof.
  induction l as [|x l IH]; simpl; [constructor|]. now apply insertBy_sorted.
Qed.

End SortFacts.

(* ================================================================== *)
(** * Identifiers and categories *)
(* ================================================================== *)

Section MoreCategories.
Import CategoryOps.

Lemma generateId_loop_scan (fuel : nat) (prefix : string) (existing : list string) :
  forall counter,
    exists n,
      (counter <= n <= counter + fuel)%nat /\
      generateId_loop fuel prefix existing counter = (prefix ++ JS.natToString n)%string /\
      forall k, (counter <= k < n)%nat ->
                In (prefix ++ JS.natToString k)%string existing.
Proof.
  induction fuel as [|fuel IH]; intros counter.
  - exists counter. simpl. split; [lia|]. split; [reflexivity|]. intros k Hk. lia.
  - simpl. destruct (existsb _ existing) eqn:He.
    + destruct (IH (S counter)) as (n & Hn & Heq & Hused).
      exists n. split; [lia|]. split; [exact Heq|].
      intros k Hk. destruct (Nat.eq_dec k counter) as [->|Hne].
      * now apply existsb_eqb_In.
      * apply Hused. lia.
    + exists counter. split; [lia|]. split; [reflexivity|]. intros k Hk. lia.
Qed.

(** X1.  [generateId prefix data] is [prefix] followed by a counter [n]
    that is at least 1; no item of [data] has that id, and every id
    with a smaller counter from 1 on is in use. *)
Theorem generateId_smallest_unused {A} `{HasId A} (prefix : string)
    (existingData : list A) :
  exists n,
    (1 <= n)%nat /\
    generateId prefix existingData = (prefix ++ JS.natToString n)%string /\
    ~ In (generateId prefix existingData) (map getId existingData) /\
    forall k, (1 <= k < n)%nat ->
              In (prefix ++ JS.natToString k)%string (map getId existingData).
Proof.
  unfold generateId.
  destruct (generateId_loop_scan (List.length existingData) prefix
              (map getId existingData) 1) as (n & Hn & Heq & Hused).
  exists n. split; [lia|]. split; [exact Heq|]. split; [|exact Hused].
  pose proof (generateId_loop_fresh prefix (map getId existingData) 1) as Hfresh.
  now rewrite length_map in Hfresh.
Qed.

(** X2.  With the categories file readable, [createCategory] throws
    "Missing required fields: name" and changes no file when the name is
    missing or empty.  Otherwise (the file being writable) it appends
    one category and returns it: its id is the one [generateId] gives
    and differs from every stored id, so unique ids stay unique;
    [isActive] is true unless the request says otherwise; [sortOrder] is
    the number of categories plus one when the request gives none, or
    gives 0. *)
Theorem createCategory_appends (io : IO) (w : World) (categoryData : data) :
  readFails io Categories = false ->
  let out := createCategory categoryData io w in
  let stored := categories (files w) in
  (missingStr (c_name categoryData) = true ->
     fst out = Err (MissingRequiredFields ["name"]) /\
     files (snd out) = files w) /\
  (missingStr (c_name categoryData) = false ->
   writeFails io Categories = false ->
     exists c,
       fst out = Ok c /\
       categories (files (snd out)) = stored ++ [c] /\
       Category.id c = generateId "cat_" stored /\
       (forall old, In old stored -> Category.id old <> Category.id c) /\
       (NoDup (map Category.id stored) ->
        NoDup (map Category.id (categories (files (snd out))))) /\
       Category.isActive c = match c_isActive categoryData with
                             | Some b => b
                             | None => true
                             end /\
       (c_sortOrder categoryData = None \/ c_sortOrder categoryData = Some 0 ->
        Category.sortOrder c = Z.of_nat (List.length stored) + 1)).
Proof.
  intros Hr out stored.
  destruct (missingStr (c_name categoryData)) eqn:Hm.
  - assert (E : exists w', out = (Err (MissingRequiredFields ["name"]), w') /\
                           files w' = files w).
    { subst out. unfold createCategory, tryLog, bind, readData. rewrite Hr.
      unfold validateRequiredFields. rewrite Hm.
      cbn [filter snd map fst List.length Nat.ltb Nat.leb throw].
      eexists. split; reflexivity. }
    destruct E as (w' & -> & Hf). cbn [fst snd].
    split; [intros _; split; [reflexivity|exact Hf]|intros X; discriminate X].
  - split; [intros X; discriminate X|]. intros _ Hw.
    set (c := Category.mk (generateId "cat_" stored)
                (MenuService.unwrap (c_name categoryData) "")
                (JS.orStr (c_description categoryData) "")
                (JS.orZ (c_sortOrder categoryData) (Z.of_nat (List.length stored) + 1))
                (match c_isActive categoryData with Some b => b | None => true end)
                (now io) (now io)).
    assert (E : out = (Ok c, mkWorld (setCategories (stored ++ [c]) (files w)) (errorLog w))).
    { subst out. unfold createCategory, tryLog, bind, readData. rewrite Hr.
      unfold validateRequiredFields. rewrite Hm.
      cbn [filter snd map fst List.length Nat.ltb Nat.leb ret].
      unfold clock, writeData. rewrite Hw. reflexivity. }
    rewrite E. cbn [fst snd files categories setCategories].
    exists c. split; [reflexivity|]. split; [reflexivity|]. split; [reflexivity|].
    assert (Hfresh : forall old, In old stored -> Category.id old <> Category.id c).
    { intros old Hin. apply (generateId_fresh "cat_" stored old Hin). }
    split; [exact Hfresh|]. split; [|split].
    + intros Hnd. rewrite map_app. cbn [map].
      apply NoDup_app; [exact Hnd|repeat constructor; intros []|].
      intros x Hx [<-|[]]. apply in_map_iff in Hx. destruct Hx as (old & Hid & Hin).
      exact (Hfresh old Hin Hid).
    + reflexivity.
    + subst c. cbn [Category.sortOrder]. intros [-> | ->]; reflexivity.
Qed.

Lemma createCategory_appends_witness :
  exists c,
    fst (createCategory Sample2.drinks (reliable Sample.t1) Sample2.menu) = Ok c /\
    Category.id c = "cat_4" /\
    Category.sortOrder c = 4 /\
    Category.isActive c = true.
Proof.
  destruct (proj2 (createCategory_appends (reliable Sample.t1) Sample2.menu
                     Sample2.drinks eq_refl) eq_refl eq_refl)
    as (c & E & _ & Hid & _ & _ & Hact & Hsort).
  exists c. split; [exact E|]. split; [exact Hid|]. split; [|exact Hact].
  exact (Hsort (or_introl eq_refl)).
Defined.

Lemma In_setNth_other {A} (l : list A) (i : nat) (c v x : A) :
  nth_error l i = Some c -> x <> c -> x <> v ->
  (In x (setNth i v l) <-> In x l).
Proof.
  revert i; induction l as [|a l IH]; intros [|i]; simpl; try discriminate.
  - intros [= <-] Hc Hv. split; intros [H|H]; auto; congruence.
  - intros Hn Hc Hv. rewrite (IH i Hn Hc Hv). tauto.
Qed.

Lemma find_setNth_other {A} (p q : A -> bool) (l : list A) (i : nat) (c v : A) :
  findIndex p l = Some i -> nth_error l i = Some c ->
  q c = false -> q v = false ->
  find q (setNth i v l) = find q l.
Proof.
  revert i; induction l as [|a l IH]; intros i; simpl; [discriminate|].
  destruct (p a) eqn:Ha.
  - intros [= <-] [= <-] Hc Hv. simpl. now rewrite Hc, Hv.
  - destruct (findIndex p l) as [j|]; simpl; [|discriminate].
    intros [= <-] Hn Hc Hv. simpl. destruct (q a); [reflexivity|]. eapply IH; eauto.
Qed.

(** X3.  With the categories file readable and writable,
    [updateCategory] returns [null] and leaves everything as it is when
    no category has the id.  Otherwise it returns the stored category
    with the patch applied: each of [name], [description], [sortOrder],
    [isActive] and [createdAt] is the value of the patch when the patch
    has the key and the stored value when not (so a [createdAt] in the
    patch replaces the stored one), the id is kept, and [updatedAt] is
    the time of the call.  The list of ids is as before, and every
    category with another id is untouched. *)
Theorem updateCategory_keeps_others (io : IO) (w : World) (categoryId : string)
    (updateData : Category.patch) :
  readFails io Categories = false ->
  writeFails io Categories = false ->
  let out := MenuService.updateCategory categoryId updateData io w in
  let stored := categories (files w) in
  (findById stored categoryId = None -> out = (Ok None, w)) /\
  (forall c, findById stored categoryId = Some c ->
     exists c',
       fst out = Ok (Some c') /\
       Category.id c' = categoryId /\
       Category.name c' = DishOps.over (Category.p_name updateData) (Category.name c) /\
       Category.description c' =
         DishOps.over (Category.p_description updateData) (Category.description c) /\
       Category.sortOrder c' =
         DishOps.over (Category.p_sortOrder updateData) (Category.sortOrder c) /\
       Category.isActive c' =
         DishOps.over (Category.p_isActive updateData) (Category.isActive c) /\
       Category.createdAt c' =
         DishOps.over (Category.p_createdAt updateData) (Category.createdAt c) /\
       Category.updatedAt c' = now io /\
       findById (categories (files (snd out))) categoryId = Some c' /\
       map Category.id (categories (files (snd out))) = map Category.id stored /\
       (forall other, Category.id other <> categoryId ->
          (In other (categories (files (snd out))) <-> In other stored))).
Proof.
  intros Hr Hw out stored.
  destruct (findIndexById stored categoryId) as [i|] eqn:Ei.
  - destruct (findIndex_find _ _ _ Ei) as (c & Hc & Hf & Hp).
    apply String.eqb_eq in Hp.
    set (c' := MenuService.mergeCategory c updateData categoryId (now io)).
    assert (E : out = (Ok (Some c'),
                       mkWorld (setCategories (setNth i c' stored) (files w)) (errorLog w))).
    { subst out. unfold MenuService.updateCategory, tryLog, bind, readData.
      rewrite Hr. fold stored. rewrite Ei, Hc. unfold clock, writeData. rewrite Hw.
      reflexivity. }
    rewrite E. cbn [fst snd files categories setCategories].
    split; [intros Hnone; unfold findById in Hnone; congruence|].
    intros c0 Hc0. unfold findById in Hc0. rewrite Hf in Hc0. injection Hc0 as <-.
    exists c'. do 8 (split; [reflexivity|]).
    split; [|split].
    + unfold findById. apply find_setNth_hit; [exact Ei|]. simpl. apply String.eqb_refl.
    + apply (map_setNth Category.id _ _ c); auto.
    + intros other Hother. apply (In_setNth_other _ _ c); auto.
      * intros ->. apply Hother. exact Hp.
      * intros ->. apply Hother. reflexivity.
  - assert (E : out = (Ok None, w)).
    { subst out. unfold MenuService.updateCategory, tryLog, bind, readData.
      rewrite Hr. fold stored. rewrite Ei. reflexivity. }
    split; [intros _; exact E|].
    intros c Hc. apply findIndex_None in Ei. unfold findById in Hc. congruence.
Qed.

Lemma updateCategory_keeps_others_witness :
  let out := MenuService.updateCategory "cat_2"
               (Category.mkPatch (Some "Soups") None None None (Some "1999"))
               (reliable Sample.t1) Sample2.menu in
  exists c',
    fst out = Ok (Some c') /\
    Category.id c' = "cat_2" /\
    Category.name c' = "Soups" /\
    Category.sortOrder c' = 1 /\
    Category.createdAt c' = "1999" /\
    map Category.id (categories (files (snd out))) = ["cat_1"; "cat_2"; "cat_3"].
Proof.
  intros out.
  destruct (proj2 (updateCategory_keeps_others (reliable Sample.t1) Sample2.menu "cat_2"
                     (Category.mkPatch (Some "Soups") None None None (Some "1999"))
                     eq_refl eq_refl)
                  (Sample2.cat "cat_2" 1) eq_refl)
    as (c' & E & Hid & Hn & _ & Hso & _ & Hc & _ & _ & Hids & _).
  exists c'. split; [exact E|]. split; [exact Hid|]. split; [exact Hn|].
  split; [exact Hso|]. split; [exact Hc|exact Hids].
Defined.

(** One turn of the [forEach] keeps the list of ids and the categories
    it does not name. *)
Lemma applySort_keeps (t : Timestamp) (cats : list Category.t) (item : string * Z) :
  map Category.id (applySort t cats item) = map Category.id cats /\
  (forall c, Category.id c <> fst item -> (In c (applySort t cats item) <-> In c cats)) /\
  (forall id, id <> fst item -> findById (applySort t cats item) id = findById cats id) /\
  (findById cats (fst item) = None -> applySort t cats item = cats) /\
  (findById cats (fst item) <> None ->
   exists c', findById (applySort t cats item) (fst item) = Some c' /\
              Category.sortOrder c' = snd item).
Proof.
  unfold applySort.
  destruct (findIndexById cats (fst item)) as [i|] eqn:Ei.
  - destruct (findIndex_find _ _ _ Ei) as (c & Hc & Hf & Hp).
    apply String.eqb_eq in Hp. rewrite Hc.
    split; [apply (map_setNth Category.id _ _ c); auto|].
    split; [|split; [|split]].
    + intros x Hx. apply (In_setNth_other _ _ c); auto.
      * intros ->. apply Hx. exact Hp.
      * intros ->. apply Hx. exact Hp.
    + intros id Hid. unfold findById.
      eapply find_setNth_other; [exact Ei|exact Hc| |].
      * apply String.eqb_neq. unfold getId, Category_HasId in *. congruence.
      * apply String.eqb_neq. unfold getId, Category_HasId in *. simpl. congruence.
    + intros Hnone. unfold findById in Hnone. congruence.
    + intros _. exists (setSortOrder (snd item) t c). split; [|reflexivity].
      unfold findById. apply find_setNth_hit; [exact Ei|].
      unfold getId, Category_HasId in *. simpl. apply String.eqb_eq. exact Hp.
  - split; [reflexivity|]. split; [tauto|]. split; [reflexivity|].
    split; [reflexivity|]. intros Hsome. apply findIndex_None in Ei.
    unfold findById in Hsome. contradiction.
Qed.

Lemma applySort_fold (t : Timestamp) (sortData : list (string * Z)) :
  forall cats,
    let cats' := fold_left (applySort t) sortData cats in
    map Category.id cats' = map Category.id cats /\
    (forall c, ~ In (Category.id c) (map fst sortData) -> (In c cats' <-> In c cats)) /\
    (NoDup (map fst sortData) ->
     forall id v, In (id, v) sortData -> findById cats id <> None ->
       exists c', findById cats' id = Some c' /\ Category.sortOrder c' = v).
Proof.
  induction sortData as [|item rest IH]; intros cats; cbn [fold_left map].
  - split; [reflexivity|]. split; [tauto|]. intros _ id v [].
  - destruct (applySort_keeps t cats item) as (Hids & Hother & Hfind & _ & Hset).
    destruct (IH (applySort t cats item)) as (Hids' & Hother' & Hset').
    cbv zeta in *. split; [congruence|]. split.
    + intros c Hc. rewrite Hother'; [apply Hother|]; intros X; apply Hc.
      * left. symmetry. exact X.
      * right. exact X.
    + intros Hnd id v Hin Hsome. inversion Hnd as [|? ? Hnin Hnd']; subst.
      destruct Hin as [->|Hin].
      * destruct (Hset Hsome) as (c1 & Hc1 & Hv1). cbn [fst snd] in *.
        (* the later entries name other ids and leave this category alone *)
        clear - Hc1 Hv1 Hnin.
        revert Hc1. generalize (applySort t cats (id, v)). cbn [fst] in Hnin.
        induction rest as [|item' rest IHr]; intros l Hc1; cbn [fold_left].
        -- eauto.
        -- apply IHr.
           ++ intros X. apply Hnin. right. exact X.
           ++ destruct (applySort_keeps t l item') as (_ & _ & Hf & _).
              rewrite Hf; [exact Hc1|]. intros ->. apply Hnin. left. reflexivity.
      * apply (Hset' Hnd' id v Hin).
        assert (Hne : id <> fst item).
        { intros ->. apply Hnin. apply in_map_iff. exists (fst item, v). split; auto. }
        rewrite Hfind by exact Hne. exact Hsome.
Qed.

Lemma bySortOrder_total (x y : Category.t) :
  bySortOrder x y = false -> bySortOrder y x = true.
Proof. unfold bySortOrder. rewrite Z.leb_gt, Z.leb_le. lia. Qed.

Lemma bySortOrder_trans (x y z : Category.t) :
  bySortOrder x y = true -> bySortOrder y z = true -> bySortOrder x z = true.
Proof. unfold bySortOrder. rewrite !Z.leb_le. lia. Qed.

(** X4.  With the categories file readable and writable,
    [updateCategoriesSort] succeeds on every list of updates.  The list
    of stored ids is as before; a category that no update names is
    untouched, so an update for an unknown id is passed over; when no
    id occurs twice among the updates, each category that an update
    names ends with the [sortOrder] of that update.  The array returned
    holds the stored categories in ascending [sortOrder]. *)
Theorem updateCategoriesSort_sorted (io : IO) (w : World) (sortData : list (string * Z)) :
  readFails io Categories = false ->
  writeFails io Categories = false ->
  exists result w',
    updateCategoriesSort sortData io w = (Ok result, w') /\
    map Category.id (categories (files w')) = map Category.id (categories (files w)) /\
    (forall c, ~ In (Category.id c) (map fst sortData) ->
       (In c (categories (files w')) <-> In c (categories (files w)))) /\
    (NoDup (map fst sortData) ->
     forall id v, In (id, v) sortData -> findById (categories (files w)) id <> None ->
       exists c', findById (categories (files w')) id = Some c' /\
                  Category.sortOrder c' = v) /\
    Permutation result (categories (files w')) /\
    StronglySorted (fun a b => bySortOrder a b = true) result.
Proof.
  intros Hr Hw. unfold updateCategoriesSort, tryLog, bind, readData, clock, writeData.
  rewrite Hr, Hw. cbn [ret].
  destruct (applySort_fold (now io) sortData (categories (files w))) as (Hids & Hother & Hset).
  cbv zeta in Hids, Hother, Hset.
  eexists _, _. split; [reflexivity|]. cbn [files categories setCategories].
  split; [exact Hids|]. split; [exact Hother|]. split; [exact Hset|]. split.
  - apply Permutation_sym, sortBy_perm.
  - apply sortBy_sorted; [exact bySortOrder_total|exact bySortOrder_trans].
Qed.

Lemma updateCategoriesSort_sorted_witness :
  exists result w',
    updateCategoriesSort [("cat_9", 1); ("cat_3", 0)] (reliable Sample.t1) Sample2.menu
      = (Ok result, w') /\
    map Category.id result = ["cat_3"; "cat_2"; "cat_1"] /\
    map Category.id (categories (files w')) = ["cat_1"; "cat_2"; "cat_3"].
Proof.
  destruct (updateCategoriesSort_sorted (reliable Sample.t1) Sample2.menu
              [("cat_9", 1); ("cat_3", 0)] eq_refl eq_refl)
    as (result & w' & E & Hids & _).
  exists result, w'. split; [exact E|]. split; [|exact Hids].
  vm_compute in E. injection E as <- _. reflexivity.
Defined.

End MoreCategories.

(* ================================================================== *)
(** * Dishes *)
(* ================================================================== *)

Section MoreDishes.
Import DishOps.

(** The category check of [updateDish], outcome by outcome. *)
Lemma checkCategory_run (categoryId : option string) (io : IO) (w : World) :
  match categoryId with
  | None => checkCategory categoryId io w = (Ok tt, w)
  | Some c =>
      (c = "" -> checkCategory categoryId io w = (Ok tt, w)) /\
      (c <> "" -> readFails io Categories = false ->
       checkCategory categoryId io w =
         match findById (categories (files w)) c with
         | Some _ => (Ok tt, w)
         | None => (Err (CategoryNotFound c), w)
         end)
  end.
Proof.
  destruct categoryId as [c|]; [|reflexivity]. split.
  - intros ->. reflexivity.
  - intros Hc Hr. unfold checkCategory. apply String.eqb_neq in Hc. rewrite Hc.
    unfold MenuService.getCategoryById, tryLog, bind, readData. rewrite Hr. cbn [ret].
    destruct (findById (categories (files w)) c); reflexivity.
Qed.

(** X5.  With the dishes and categories files readable, [updateDish]
    returns [null] and leaves everything as it is when no dish has the
    id, also when the patch names a category that does not exist: the
    dish is looked up first.  For a dish that exists, a patch whose
    [categoryId] is not empty and names no category makes it throw
    "Category not found", and no file changes. *)
Theorem updateDish_guards (io : IO) (w : World) (dishId : string) (updateData : patch) :
  readFails io Dishes = false ->
  readFails io Categories = false ->
  let out := updateDish dishId updateData io w in
  (findById (dishes (files w)) dishId = None -> out = (Ok None, w)) /\
  (findById (dishes (files w)) dishId <> None ->
   forall c, p_categoryId updateData = Some c -> c <> "" ->
     findById (categories (files w)) c = None ->
     fst out = Err (CategoryNotFound c) /\ files (snd out) = files w).
Proof.
  intros Hrd Hrc out. split.
  - intros Hnone. subst out. unfold updateDish, tryLog, bind, readData. rewrite Hrd.
    unfold findIndexById. apply findIndex_None in Hnone. rewrite Hnone. reflexivity.
  - intros Hsome c Hc Hne Hcat.
    destruct (findIndexById (dishes (files w)) dishId) as [i|] eqn:Ei;
      [|apply findIndex_None in Ei; contradiction].
    pose proof (checkCategory_run (p_categoryId updateData) io w) as Hcheck.
    rewrite Hc in Hcheck. destruct Hcheck as [_ Hcheck].
    specialize (Hcheck Hne Hrc). rewrite Hcat, <- Hc in Hcheck.
    subst out. unfold updateDish, tryLog, bind, readData. rewrite Hrd, Ei, Hcheck.
    split; reflexivity.
Qed.

Lemma updateDish_guards_witness :
  updateDish "dish_9" (mkPatch (Some "cat_9") None None None None None None None None
                         None None None None None)
    (reliable Sample.t1) Sample2.menu = (Ok None, Sample2.menu) /\
  fst (updateDish "dish_1" (mkPatch (Some "cat_9") None None None None None None None None
                              None None None None None)
         (reliable Sample.t1) Sample2.menu) = Err (CategoryNotFound "cat_9").
Proof.
  split.
  - exact (proj1 (updateDish_guards (reliable Sample.t1) Sample2.menu "dish_9" _
                    eq_refl eq_refl) eq_refl).
  - exact (proj1 (proj2 (updateDish_guards (reliable Sample.t1) Sample2.menu "dish_1"
                           (mkPatch (Some "cat_9") None None None None None None None None
                              None None None None None) eq_refl eq_refl)
                        ltac:(discriminate) "cat_9" eq_refl ltac:(discriminate) eq_refl)).
Defined.

(** [updateDish] on a dish that exists, with an acceptable patch. *)
Lemma updateDish_run (io : IO) (w : World) (dishId : string) (updateData : patch)
    (i : nat) (d : Dish.t) :
  readFails io Dishes = false ->
  writeFails io Dishes = false ->
  findIndexById (dishes (files w)) dishId = Some i ->
  nth_error (dishes (files w)) i = Some d ->
  categoryAccepted io w updateData ->
  updateDish dishId updateData io w =
    (Ok (Some (mergeDish d updateData dishId (now io))),
     mkWorld (setDishes (setNth i (mergeDish d updateData dishId (now io))
                           (dishes (files w))) (files w))
             (errorLog w)).
Proof.
  intros Hr Hw Ei Hd Hcat.
  assert (Hcheck : checkCategory (p_categoryId updateData) io w = (Ok tt, w)).
  { pose proof (checkCategory_run (p_categoryId updateData) io w) as H.
    unfold categoryAccepted in Hcat.
    destruct (p_categoryId updateData) as [c|]; [|exact H].
    destruct H as [Hempty Hfull]. destruct Hcat as [->|[Hrc Hex]]; [auto|].
    destruct (String.eqb_spec c ""); [auto|].
    rewrite Hfull by assumption.
    destruct (findById (categories (files w)) c); [reflexivity|contradiction]. }
  unfold updateDish, tryLog, bind, readData. rewrite Hr, Ei, Hcheck, Hd.
  unfold clock, writeData. rewrite Hw. reflexivity.
Qed.

(** X6.  With the dishes file readable and writable, [updateDish] on a
    dish that exists, with a patch whose category (if given) exists,
    returns the stored dish with the patch applied: every field other
    than [id], [price] and [updatedAt] is the value of the patch when
    the patch has the key and the stored value when not ([createdAt]
    included); the id is kept; [price] is the price of the patch when
    that is given and not 0, and the stored price otherwise;
    [updatedAt] is the time of the call.  The list of dish ids is as
    before and the dishes with another id are untouched.  The inventory
    and the categories are never written: a patch that gives a stock
    changes the stock of the dish only. *)
Theorem updateDish_merges (io : IO) (w : World) (dishId : string) (updateData : patch)
    (d : Dish.t) :
  readFails io Dishes = false ->
  writeFails io Dishes = false ->
  findById (dishes (files w)) dishId = Some d ->
  categoryAccepted io w updateData ->
  let out := updateDish dishId updateData io w in
  exists d',
    fst out = Ok (Some d') /\
    findById (dishes (files (snd out))) dishId = Some d' /\
    (Dish.id d' = dishId /\
     Dish.categoryId d' = over (p_categoryId updateData) (Dish.categoryId d) /\
     Dish.name d' = over (p_name updateData) (Dish.name d) /\
     Dish.description d' = over (p_description updateData) (Dish.description d) /\
     Dish.status d' = over (p_status updateData) (Dish.status d) /\
     Dish.stock d' = over (p_stock updateData) (Dish.stock d) /\
     Dish.imageUrl d' = over (p_imageUrl updateData) (Dish.imageUrl d) /\
     Dish.ingredients d' = over (p_ingredients updateData) (Dish.ingredients d) /\
     Dish.allergens d' = over (p_allergens updateData) (Dish.allergens d) /\
     Dish.preparationTime d' =
       over (p_preparationTime updateData) (Dish.preparationTime d) /\
     Dish.calories d' = over (p_calories updateData) (Dish.calories d) /\
     Dish.isSpicy d' = over (p_isSpicy updateData) (Dish.isSpicy d) /\
     Dish.isVegetarian d' = over (p_isVegetarian updateData) (Dish.isVegetarian d) /\
     Dish.createdAt d' = over (p_createdAt updateData) (Dish.createdAt d) /\
     Dish.updatedAt d' = now io) /\
    (forall v, p_price updateData = Some v -> ~ (v == 0)%Q -> Dish.price d' = v) /\
    (p_price updateData = None \/
     (exists v, p_price updateData = Some v /\ (v == 0)%Q) ->
       Dish.price d' = Dish.price d) /\
    map Dish.id (dishes (files (snd out))) = map Dish.id (dishes (files w)) /\
    (forall other, Dish.id other <> dishId ->
       (In other (dishes (files (snd out))) <-> In other (dishes (files w)))) /\
    inventory (files (snd out)) = inventory (files w) /\
    categories (files (snd out)) = categories (files w).
Proof.
  intros Hr Hw Hd Hcat out.
  destruct (findIndexById (dishes (files w)) dishId) as [i|] eqn:Ei;
    [|apply findIndex_None in Ei; unfold findById in Hd; congruence].
  destruct (findIndex_find _ _ _ Ei) as (d0 & Hd0 & Hf & Hp).
  unfold findById in Hd. rewrite Hf in Hd. injection Hd as ->.
  apply String.eqb_eq in Hp.
  subst out. rewrite (updateDish_run io w dishId updateData i d Hr Hw Ei Hd0 Hcat).
  cbn [fst snd files dishes inventory categories setDishes].
  eexists. split; [reflexivity|]. split.
  { unfold findById. apply find_setNth_hit; [exact Ei|]. simpl. apply String.eqb_refl. }
  split; [repeat split|].
  split.
  { intros v Hv Hne. unfold mergeDish. cbn [Dish.price]. rewrite Hv.
    destruct (Qeq_bool v 0) eqn:E; [apply Qeq_bool_iff in E; contradiction|reflexivity]. }
  split.
  { intros [E|(v & E & Hz)]; unfold mergeDish; cbn [Dish.price]; rewrite E;
      [reflexivity|].
    apply Qeq_bool_iff in Hz. now rewrite Hz. }
  split.
  { apply (map_setNth Dish.id _ _ d); auto. }
  split; [|split; reflexivity].
  intros other Hother. apply (In_setNth_other _ _ d); auto.
  - intros ->. apply Hother. exact Hp.
  - intros ->. apply Hother. reflexivity.
Qed.

Lemma updateDish_merges_witness :
  let out := updateDish "dish_1"
               (mkPatch None (Some "Ramen") None (Some 0%Q) None (Some 40) None None None
                  None None None None (Some "1999"))
               (reliable Sample.t1) Sample2.menu in
  exists d',
    fst out = Ok (Some d') /\
    Dish.name d' = "Ramen" /\
    Dish.categoryId d' = "cat_1" /\
    Dish.price d' = (25 # 2)%Q /\
    Dish.stock d' = 40 /\
    Dish.createdAt d' = "1999" /\
    option_map Item.stock
      (find (InventoryService.forDish "dish_1") (inventory (files (snd out)))) = Some 5.
Proof.
  intros out.
  destruct (updateDish_merges (reliable Sample.t1) Sample2.menu "dish_1"
              (mkPatch None (Some "Ramen") None (Some 0%Q) None (Some 40) None None None
                 None None None None (Some "1999"))
              (Sample.dish "dish_1" "cat_1" "on" 5) eq_refl eq_refl eq_refl I)
    as (d' & E & _ & Hfields & _ & Hprice & _ & _ & Hinv & _).
  destruct Hfields as (_ & Hcat & Hname & _ & _ & Hstock & _ & _ & _ & _ & _ & _ & _ & Hcr & _).
  exists d'. split; [exact E|]. split; [exact Hname|]. split; [exact Hcat|].
  split; [apply Hprice; right; exists 0%Q; split; reflexivity|].
  split; [exact Hstock|]. split; [exact Hcr|].
  fold out in Hinv. rewrite Hinv. reflexivity.
Defined.

(** X7.  With the dishes file readable and writable, [deleteDish]
    returns false and changes nothing when no dish has the id.
    Otherwise it returns true; no dish is removed; the dish stored under
    the id ends with status "off" and keeps its category and its stock;
    the inventory and the categories are as before. *)
Theorem deleteDish_soft (io : IO) (w : World) (dishId : string) :
  readFails io Dishes = false ->
  writeFails io Dishes = false ->
  let out := deleteDish dishId io w in
  (findById (dishes (files w)) dishId = None -> out = (Ok false, w)) /\
  (forall d, findById (dishes (files w)) dishId = Some d ->
     fst out = Ok true /\
     map Dish.id (dishes (files (snd out))) = map Dish.id (dishes (files w)) /\
     inventory (files (snd out)) = inventory (files w) /\
     categories (files (snd out)) = categories (files w) /\
     exists d',
       findById (dishes (files (snd out))) dishId = Some d' /\
       Dish.status d' = "off" /\
       Dish.categoryId d' = Dish.categoryId d /\
       Dish.stock d' = Dish.stock d).
Proof.
  intros Hr Hw out. split.
  - intros Hnone. subst out. unfold deleteDish, tryLog, bind.
    unfold updateDish, tryLog, bind, readData. rewrite Hr.
    unfold findIndexById. apply findIndex_None in Hnone. rewrite Hnone. reflexivity.
  - intros d Hd.
    destruct (findIndexById (dishes (files w)) dishId) as [i|] eqn:Ei;
      [|apply findIndex_None in Ei; unfold findById in Hd; congruence].
    destruct (findIndex_find _ _ _ Ei) as (d0 & Hd0 & Hf & Hp).
    unfold findById in Hd. rewrite Hf in Hd. injection Hd as ->.
    subst out. unfold deleteDish, tryLog, bind.
    rewrite (updateDish_run io w dishId (statusPatch "off") i d Hr Hw Ei Hd0 I).
    cbn [ret fst snd files dishes inventory categories setDishes].
    split; [reflexivity|]. split; [|split; [reflexivity|split; [reflexivity|]]].
    + apply (map_setNth Dish.id _ _ d); auto. simpl. apply String.eqb_eq in Hp.
      symmetry. exact Hp.
    + exists (mergeDish d (statusPatch "off") dishId (now io)).
      split; [|repeat split].
      unfold findById. apply find_setNth_hit; [exact Ei|]. simpl. apply String.eqb_refl.
Qed.

Lemma deleteDish_soft_witness :
  let out := deleteDish "dish_1" (reliable Sample.t1) Sample2.menu in
  fst out = Ok true /\
  map Dish.id (dishes (files (snd out))) = ["dish_1"; "dish_2"] /\
  exists d',
    findById (dishes (files (snd out))) "dish_1" = Some d' /\
    Dish.status d' = "off" /\
    Dish.categoryId d' = "cat_1".
Proof.
  intros out.
  destruct (proj2 (deleteDish_soft (reliable Sample.t1) Sample2.menu "dish_1"
                     eq_refl eq_refl)
                  (Sample.dish "dish_1" "cat_1" "on" 5) eq_refl)
    as (E & Hids & _ & _ & d' & Hf & Hs & Hc & _).
  split; [exact E|]. split; [exact Hids|]. exists d'. auto.
Defined.

(** What [deleteDish] leaves behind for a dish that exists. *)
Lemma deleteDish_run (io : IO) (w : World) (dishId : string) (d : Dish.t) :
  readFails io Dishes = false ->
  writeFails io Dishes = false ->
  findById (dishes (files w)) dishId = Some d ->
  exists w1 d',
    deleteDish dishId io w = (Ok true, w1) /\
    categories (files w1) = categories (files w) /\
    findById (dishes (files w1)) dishId = Some d' /\
    Dish.categoryId d' = Dish.categoryId d.
Proof.
  intros Hr Hw Hd.
  destruct (findIndexById (dishes (files w)) dishId) as [i|] eqn:Ei;
    [|apply findIndex_None in Ei; unfold findById in Hd; congruence].
  destruct (findIndex_find _ _ _ Ei) as (d0 & Hd0 & Hf & Hp).
  unfold findById in Hd. rewrite Hf in Hd. injection Hd as ->.
  unfold deleteDish, tryLog, bind.
  rewrite (updateDish_run io w dishId (statusPatch "off") i d Hr Hw Ei Hd0 I).
  cbn [ret]. eexists _, (mergeDish d (statusPatch "off") dishId (now io)).
  split; [reflexivity|]. cbn [files dishes categories setDishes].
  split; [reflexivity|]. split; [|reflexivity].
  unfold findById. apply find_setNth_hit; [exact Ei|]. simpl. apply String.eqb_refl.
Qed.

(** A refused deletion of a category writes nothing. *)
Lemma deleteCategory_refuses (io : IO) (w : World) (categoryId : string) (d : Dish.t) :
  readFails io Dishes = false ->
  In d (dishes (files w)) ->
  Dish.categoryId d = categoryId ->
  exists n w',
    MenuService.deleteCategory categoryId io w = (Err (CategoryHasDishes n), w') /\
    (0 < n)%nat /\
    files w' = files w.
Proof.
  intros Hr Hin Hc.
  unfold MenuService.deleteCategory, tryLog, bind, readData. rewrite Hr.
  assert (Hf : In d (filter (fun dish => String.eqb (Dish.categoryId dish) categoryId)
                       (dishes (files w)))).
  { apply filter_In. split; [exact Hin|]. rewrite Hc. apply String.eqb_refl. }
  destruct (filter _ (dishes (files w))) as [|x rest]; [destruct Hf|].
  cbn [List.length Nat.ltb Nat.leb throw].
  eexists _, _. split; [reflexivity|]. split; [lia|reflexivity].
Qed.

(** X8.  Deleting a dish does not free its category: after a successful
    [deleteDish] of a dish, [deleteCategory] of the category of that
    dish still throws "Cannot delete category with existing dishes" and
    the categories stay as they were. *)
Theorem deleteDish_keeps_category_reference (io1 io2 : IO) (w : World)
    (dishId : string) (d : Dish.t) :
  readFails io1 Dishes = false ->
  writeFails io1 Dishes = false ->
  readFails io2 Dishes = false ->
  findById (dishes (files w)) dishId = Some d ->
  exists w1 n w2,
    deleteDish dishId io1 w = (Ok true, w1) /\
    MenuService.deleteCategory (Dish.categoryId d) io2 w1
      = (Err (CategoryHasDishes n), w2) /\
    (0 < n)%nat /\
    categories (files w2) = categories (files w).
Proof.
  intros Hr1 Hw1 Hr2 Hd.
  destruct (deleteDish_run io1 w dishId d Hr1 Hw1 Hd) as (w1 & d' & E & Hcats & Hf & Hc).
  unfold findById in Hf. apply find_some in Hf. destruct Hf as [Hin _].
  destruct (deleteCategory_refuses io2 w1 (Dish.categoryId d) d' Hr2 Hin Hc)
    as (n & w2 & E2 & Hn & Hfiles).
  exists w1, n, w2. split; [exact E|]. split; [exact E2|]. split; [exact Hn|].
  rewrite Hfiles. exact Hcats.
Qed.

Lemma deleteDish_keeps_category_reference_witness :
  exists w1 n w2,
    deleteDish "dish_2" (reliable Sample.t1) Sample2.menu = (Ok true, w1) /\
    MenuService.deleteCategory "cat_2" (reliable Sample.t1) w1
      = (Err (CategoryHasDishes n), w2) /\
    (0 < n)%nat /\
    categories (files w2) = categories (files Sample2.menu).
Proof.
  exact (deleteDish_keeps_category_reference (reliable Sample.t1) (reliable Sample.t1)
           Sample2.menu "dish_2" (Sample.dish "dish_2" "cat_2" "on" 0)
           eq_refl eq_refl eq_refl eq_refl).
Defined.

End MoreDishes.

(* ================================================================== *)
(** * Dish creation keeps the ids apart *)
(* ================================================================== *)

Section MoreCreation.
Import MenuService.

(** X9.  A successful [createDish] keeps the dish ids unique: when no
    two stored dishes share an id, neither do two after the call. *)
Theorem createDish_keeps_ids_unique (io : IO) (w : World) (dishData : Dish.data)
    (name categoryId : string) (price : Q) :
  Dish.d_name dishData = Some name -> name <> "" ->
  Dish.d_categoryId dishData = Some categoryId -> categoryId <> "" ->
  Dish.d_price dishData = Some price ->
  readFails io Dishes = false ->
  readFails io Categories = false ->
  writeFails io Dishes = false ->
  findById (categories (files w)) categoryId <> None ->
  NoDup (map Dish.id (dishes (files w))) ->
  exists newDish w',
    createDish dishData io w = (Ok newDish, w') /\
    dishes (files w') = dishes (files w) ++ [newDish] /\
    NoDup (map Dish.id (dishes (files w'))).
Proof.
  intros Hn Hn0 Hc Hc0 Hp Hrd Hrc Hwd Hcat Hnd.
  pose proof (createDish_run io w dishData name categoryId price
                Hn Hn0 Hc Hc0 Hp Hrd Hrc) as Hrun.
  destruct (findById (categories (files w)) categoryId); [|contradiction].
  specialize (Hrun Hwd). cbv zeta in Hrun.
  set (newDish := newDishOf dishData (generateId "dish_" (dishes (files w))) (now io)) in *.
  set (w1 := mkWorld (setDishes (dishes (files w) ++ [newDish]) (files w)) (errorLog w)) in *.
  destruct (createInventoryEntry_ok (Dish.id newDish) (JS.orZ (Dish.d_stock dishData) 0)
              io w1) as (w' & E & _ & Hd).
  rewrite E in Hrun. cbn [snd] in Hrun.
  exists newDish, w'. split; [exact Hrun|].
  rewrite Hd. cbn [w1 files dishes setDishes]. split; [reflexivity|].
  rewrite map_app. cbn [map].
  apply NoDup_app; [exact Hnd|repeat constructor; intros []|].
  intros x Hx [<-|[]]. apply in_map_iff in Hx. destruct Hx as (old & Hid & Hin).
  exact (generateId_fresh "dish_" (dishes (files w)) old Hin Hid).
Qed.

Lemma createDish_keeps_ids_unique_witness :
  exists newDish w',
    createDish Sample.soup (reliable Sample.t1) Sample2.menu = (Ok newDish, w') /\
    dishes (files w') = dishes (files Sample2.menu) ++ [newDish] /\
    NoDup (map Dish.id (dishes (files w'))).
Proof.
  apply (createDish_keeps_ids_unique (reliable Sample.t1) Sample2.menu Sample.soup
           "Soup" "cat_1" (9 # 2)); try reflexivity; try discriminate.
  simpl. repeat constructor; simpl; intuition discriminate.
Defined.

End MoreCreation.

(* ================================================================== *)
(** * Stock *)
(* ================================================================== *)

Section MoreStock.
Import InventoryService.
Import StockOps.

Lemma item_enrich (ds : list Dish.t) (i : Item.t) : Item.item (enrich ds i) = i.
Proof. unfold enrich. destruct (findById ds (Item.dishId i)); reflexivity. Qed.

(** X10.  With the inventory and dishes files readable,
    [getOutOfStockDishes] returns, in the order of the file, exactly the
    records whose stock is 0, each joined with its dish; and every one
    of them whose alert threshold is defined and not negative is also
    in the low-stock listing without custom threshold. *)
Theorem getOutOfStockDishes_lists_zero (io : IO) (w : World) :
  readFails io Inventory = false ->
  readFails io Dishes = false ->
  exists l low,
    getOutOfStockDishes io w = (Ok l, w) /\
    getLowStockDishes None io w = (Ok low, w) /\
    map Item.item l = filter (fun item => Item.stock item =? 0) (inventory (files w)) /\
    (forall e, In e l -> stockOf e = 0 /\ e = enrich (dishes (files w)) (Item.item e)) /\
    (forall e t, In e l -> Item.alertThreshold (Item.item e) = Some t -> 0 <= t ->
                 In e low).
Proof.
  intros Hri Hrd.
  unfold getOutOfStockDishes, getLowStockDishes, tryLog, bind, readData.
  rewrite Hri, Hrd. cbn [ret]. eexists _, _. split; [reflexivity|]. split; [reflexivity|].
  split; [|split].
  - rewrite map_map. erewrite map_ext; [apply map_id|]. intros i. apply item_enrich.
  - intros e He. apply in_map_iff in He. destruct He as (i & <- & Hi).
    apply filter_In in Hi. destruct Hi as [_ Hz]. apply Z.eqb_eq in Hz.
    unfold stockOf. rewrite item_enrich. auto.
  - intros e t He Ht Hpos. apply in_map_iff in He. destruct He as (i & <- & Hi).
    rewrite item_enrich in Ht.
    apply filter_In in Hi. destruct Hi as [Hin Hz]. apply Z.eqb_eq in Hz.
    eapply Permutation_in; [apply sortByStock_perm|].
    apply in_map, filter_In. split; [exact Hin|].
    unfold isLow, thresholdFor. rewrite Ht. apply Z.leb_le. lia.
Qed.

Lemma getOutOfStockDishes_lists_zero_witness :
  exists l low,
    getOutOfStockDishes (reliable Sample.t1) Sample2.menu = (Ok l, Sample2.menu) /\
    getLowStockDishes None (reliable Sample.t1) Sample2.menu = (Ok low, Sample2.menu) /\
    map Item.item l = [Sample.item "dish_2" 0 2] /\
    (forall e, In e l -> In e low).
Proof.
  destruct (getOutOfStockDishes_lists_zero (reliable Sample.t1) Sample2.menu
              eq_refl eq_refl) as (l & low & E & E' & Hitems & Hall & Hlow).
  exists l, low. split; [exact E|]. split; [exact E'|]. split; [exact Hitems|].
  intros e He. apply (Hlow e 2 He); [|lia].
  vm_compute in E. injection E as <-. destruct He as [<-|[]]. reflexivity.
Defined.

(** [updateDishStock] where the inventory file cannot be read, or can be
    read and not written: the error thrown and the two entries it
    leaves in the log; no file changes. *)
Lemma updateDishStock_unreadable (dishId : string) (newStock : Z) (x : Item.extra)
    (io : IO) (w : World) :
  readFails io Inventory = true ->
  updateDishStock dishId newStock x io w =
    (Err (ReadFailed Inventory),
     mkWorld (files w)
       (errorLog w ++
          [mkLog "Error reading data from inventory.json:" (ReadFailed Inventory);
           mkLog ("Error updating stock for dish " ++ dishId ++ ":")%string
                 (ReadFailed Inventory)])).
Proof.
  intros Hr. unfold updateDishStock, tryLog, bind, readData. rewrite Hr.
  cbn [files errorLog]. now rewrite <- app_assoc.
Qed.

Lemma updateDishStock_unwritable (dishId : string) (newStock : Z) (x : Item.extra)
    (io : IO) (w : World) :
  readFails io Inventory = false ->
  writeFails io Inventory = true ->
  updateDishStock dishId newStock x io w =
    (Err (WriteFailed Inventory),
     mkWorld (files w)
       (errorLog w ++
          [mkLog "Error writing data to inventory.json:" (WriteFailed Inventory);
           mkLog ("Error updating stock for dish " ++ dishId ++ ":")%string
                 (WriteFailed Inventory)])).
Proof.
  intros Hr Hw. unfold updateDishStock, tryLog, bind, readData. rewrite Hr.
  destruct (findIndex _ _) as [i|] eqn:Ei.
  - destruct (findIndex_find _ _ _ Ei) as (cur & -> & _ & _).
    unfold clock, writeData. rewrite Hw. cbn [files errorLog]. now rewrite <- app_assoc.
  - unfold clock, writeData. rewrite Hw. cbn [files errorLog]. now rewrite <- app_assoc.
Qed.


(** The loop of the batch, entry by entry, for every file system. *)
Lemma batchLoop_total (stockUpdates : list update) :
  forall updatedItems io w,
    exists result w', batchLoop stockUpdates updatedItems io w = (Ok result, w').
Proof.
  induction stockUpdates as [|u rest IH]; intros acc io w; cbn [batchLoop].
  - unfold ret. eauto.
  - destruct (invalid u); [apply IH|].
    unfold bind, catchLog.
    destruct (updateDishStock _ _ _ io w) as [[item|e] w1]; apply IH.
Qed.

(** The loop where every call of [updateDishStock] fails with [cause],
    after the data store logged [first]: nothing is added to the array
    and no file changes. *)
Lemma batchLoop_failing (cause : Error) (first : string) (io : IO) :
  (forall dishId newStock x w,
     updateDishStock dishId newStock x io w =
       (Err cause,
        mkWorld (files w)
          (errorLog w ++
             [mkLog first cause;
              mkLog ("Error updating stock for dish " ++ dishId ++ ":")%string cause]))) ->
  forall stockUpdates updatedItems w,
    batchLoop stockUpdates updatedItems io w =
      (Ok updatedItems,
       mkWorld (files w) (errorLog w ++ failureLog first cause stockUpdates)).
Proof.
  intros Hfail. induction stockUpdates as [|u rest IH]; intros acc w;
    cbn [batchLoop failureLog filter flat_map].
  - unfold ret. rewrite app_nil_r. now destruct w.
  - unfold failureLog in *. cbn [filter]. destruct (invalid u); cbn [negb]; [apply IH|].
    unfold bind, catchLog. rewrite Hfail. rewrite IH. cbn [files errorLog flat_map].
    f_equal. f_equal. rewrite <- !app_assoc. reflexivity.
Qed.

(** X11.  [batchUpdateStock] never throws, whatever the file system
    does: an entry whose update fails is logged and passed over.  When
    the inventory file cannot be read, or can be read and not written,
    every entry that has a dish id and a stock fails: the result is the
    empty array, no file changes, and the log receives for each such
    entry, in order, the error of the data store, the entry of
    [updateDishStock] and the entry "Error updating stock for dish
    <dishId> in batch:" of the batch. *)
Theorem batchUpdateStock_never_throws (io : IO) (w : World) (stockUpdates : list update) :
  (exists result w', batchUpdateStock stockUpdates io w = (Ok result, w')) /\
  (readFails io Inventory = true ->
   batchUpdateStock stockUpdates io w =
     (Ok [],
      mkWorld (files w)
        (errorLog w ++
           failureLog "Error reading data from inventory.json:" (ReadFailed Inventory)
             stockUpdates))) /\
  (readFails io Inventory = false -> writeFails io Inventory = true ->
   batchUpdateStock stockUpdates io w =
     (Ok [],
      mkWorld (files w)
        (errorLog w ++
           failureLog "Error writing data to inventory.json:" (WriteFailed Inventory)
             stockUpdates))).
Proof.
  unfold batchUpdateStock, tryLog. split; [|split].
  - destruct (batchLoop_total stockUpdates [] io w) as (result & w' & ->). eauto.
  - intros Hr.
    rewrite (batchLoop_failing (ReadFailed Inventory)
               "Error reading data from inventory.json:" io); [reflexivity|].
    intros. now apply updateDishStock_unreadable.
  - intros Hr Hw.
    rewrite (batchLoop_failing (WriteFailed Inventory)
               "Error writing data to inventory.json:" io); [reflexivity|].
    intros. now apply updateDishStock_unwritable.
Qed.

(** The entries the batch acts on, as (dish id, stock). *)
Lemma batchLoop_items (stockUpdates : list update) :
  forall updatedItems io w,
    readFails io Inventory = false ->
    writeFails io Inventory = false ->
    exists result w',
      batchLoop stockUpdates updatedItems io w = (Ok (updatedItems ++ result), w') /\
      map (fun r => (Item.dishId r, Item.stock r)) result =
      map (fun u => (MenuService.unwrap (u_dishId u) "", MenuService.unwrap (u_stock u) 0))
          (filter (fun u => negb (invalid u)) stockUpdates).
Proof.
  induction stockUpdates as [|u rest IH]; intros acc io w Hr Hw; cbn [batchLoop filter].
  - exists [], w. rewrite app_nil_r. split; reflexivity.
  - destruct (invalid u); cbn [negb].
    + apply IH; assumption.
    + unfold bind, catchLog.
      destruct (updateDishStock_ok (MenuService.unwrap (u_dishId u) "")
                  (MenuService.unwrap (u_stock u) 0) (extraOf u) io w Hr Hw)
        as (r & w1 & w2 & -> & _ & Hs & Hf & _).
      destruct (IH (acc ++ [r]) io w2 Hr Hw) as (result & w' & E & Hmap).
      exists (r :: result), w'. split.
      * rewrite E. now rewrite <- app_assoc.
      * cbn [map]. rewrite Hmap. f_equal. f_equal; [|exact Hs].
        apply find_some in Hf. destruct Hf as [_ Hp]. unfold forDish in Hp.
        now apply String.eqb_eq in Hp.
Qed.

(** X12.  With the inventory file readable and writable,
    [batchUpdateStock] passes over the entries without dish id or
    without stock and returns one record for each other entry, in the
    order of the entries, carrying the dish id and the stock of the
    entry. *)
Theorem batchUpdateStock_items (io : IO) (w : World) (stockUpdates : list update) :
  readFails io Inventory = false ->
  writeFails io Inventory = false ->
  exists result w',
    batchUpdateStock stockUpdates io w = (Ok result, w') /\
    map (fun r => (Item.dishId r, Item.stock r)) result =
    map (fun u => (MenuService.unwrap (u_dishId u) "", MenuService.unwrap (u_stock u) 0))
        (filter (fun u => negb (invalid u)) stockUpdates).
Proof.
  intros Hr Hw. unfold batchUpdateStock, tryLog.
  destruct (batchLoop_items stockUpdates [] io w Hr Hw) as (result & w' & -> & Hmap).
  exists result, w'. split; [reflexivity|exact Hmap].
Qed.

Lemma batchUpdateStock_items_witness :
  exists result w',
    batchUpdateStock
      [mkUpdate (Some "dish_1") (Some 8) None None None None;
       mkUpdate None (Some 3) None None None None;
       mkUpdate (Some "dish_7") None None None None None;
       mkUpdate (Some "dish_2") (Some 4) (Some "Farm") None None (Some 1)]
      (reliable Sample.t1) Sample2.menu = (Ok result, w') /\
    map (fun r => (Item.dishId r, Item.stock r)) result = [("dish_1", 8); ("dish_2", 4)].
Proof.
  exact (batchUpdateStock_items (reliable Sample.t1) Sample2.menu _ eq_refl eq_refl).
Defined.

Lemma batchUpdateStock_never_throws_witness :
  batchUpdateStock Sample2.restock Sample.inventoryUnwritable Sample2.menu =
    (Ok [],
     mkWorld (files Sample2.menu)
       [mkLog "Error writing data to inventory.json:" (WriteFailed Inventory);
        mkLog "Error updating stock for dish dish_2:" (WriteFailed Inventory);
        mkLog "Error updating stock for dish dish_2 in batch:" (WriteFailed Inventory)]).
Proof.
  exact (proj2 (proj2 (batchUpdateStock_never_throws Sample.inventoryUnwritable Sample2.menu
                         Sample2.restock)) eq_refl eq_refl).
Defined.

(** [updateDishStock] on a dish that has a record: the record returned
    and stored, field by field. *)
Lemma updateDishStock_existing (dishId : string) (newStock : Z) (x : Item.extra)
    (io : IO) (w : World) (cur : Item.t) :
  readFails io Inventory = false ->
  writeFails io Inventory = false ->
  find (forDish dishId) (inventory (files w)) = Some cur ->
  exists r w',
    updateDishStock dishId newStock x io w = (Ok r, w') /\
    find (forDish dishId) (inventory (files w')) = Some r /\
    List.length (inventory (files w')) = List.length (inventory (files w)) /\
    Item.stock r = newStock /\
    Item.alertThreshold r = JS.spread (Item.alertThreshold cur) (Item.x_alertThreshold x) /\
    Item.supplier r = JS.spread (Item.supplier cur) (Item.x_supplier x) /\
    Item.cost r = JS.spread (Item.cost cur) (Item.x_cost x) /\
    Item.expiryDate r = JS.spread (Item.expiryDate cur) (Item.x_expiryDate x).
Proof.
  intros Hr Hw Hcur.
  destruct (findIndex (forDish dishId) (inventory (files w))) as [i|] eqn:Ei;
    [|apply findIndex_None in Ei; congruence].
  destruct (findIndex_find _ _ _ Ei) as (c & Hc & Hf & Hp).
  rewrite Hf in Hcur. injection Hcur as ->.
  unfold updateDishStock, tryLog, bind, readData. rewrite Hr, Ei, Hc.
  unfold clock, writeData. rewrite Hw.
  match goal with |- context [updateDishStockField _ _ io ?w1] =>
    destruct (updateDishStockField_ok dishId newStock io w1) as (w' & E & _ & Hinv);
    rewrite E
  end.
  eexists _, w'. split; [reflexivity|]. rewrite Hinv. cbn [files inventory setInventory].
  split; [apply find_setNth_hit; auto|].
  split; [|repeat split].
  clear. revert i. induction (inventory (files w)) as [|a l IH]; intros [|i]; simpl; auto.
Qed.

(** X13.  With the inventory file readable and writable, a batch of one
    valid entry for a dish that has a record replaces the alert
    threshold, the supplier, the cost and the expiry date of the record
    by what the entry gives, also when the entry gives nothing: the
    four keys are always passed on.  A record updated by an entry
    without alert threshold is therefore never low on stock for
    [getLowStockDishes()], whatever its stock. *)
Theorem batchUpdateStock_overwrites (io : IO) (w : World) (u : update)
    (dishId : string) (stock : Z) (cur : Item.t) :
  readFails io Inventory = false ->
  writeFails io Inventory = false ->
  u_dishId u = Some dishId -> dishId <> "" ->
  u_stock u = Some stock ->
  find (forDish dishId) (inventory (files w)) = Some cur ->
  exists r w',
    batchUpdateStock [u] io w = (Ok [r], w') /\
    find (forDish dishId) (inventory (files w')) = Some r /\
    Item.stock r = stock /\
    Item.alertThreshold r = u_alertThreshold u /\
    Item.supplier r = u_supplier u /\
    Item.cost r = u_cost u /\
    Item.expiryDate r = u_expiryDate u /\
    (u_alertThreshold u = None -> isLow None r = false).
Proof.
  intros Hr Hw Hid Hne Hs Hcur.
  destruct (updateDishStock_existing dishId stock (extraOf u) io w cur Hr Hw Hcur)
    as (r & w' & E & Hf & _ & Hst & Hth & Hsu & Hco & Hex).
  exists r, w'.
  assert (Hvalid : invalid u = false).
  { unfold invalid, missingStr, missing. rewrite Hid, Hs.
    apply String.eqb_neq in Hne. now rewrite Hne. }
  split.
  { unfold batchUpdateStock, tryLog. cbn [batchLoop]. rewrite Hvalid.
    unfold bind, catchLog. rewrite Hid, Hs. cbn [MenuService.unwrap]. rewrite E.
    reflexivity. }
  split; [exact Hf|]. split; [exact Hst|].
  split; [exact Hth|]. split; [exact Hsu|]. split; [exact Hco|]. split; [exact Hex|].
  intros Hnone. unfold isLow, thresholdFor. rewrite Hth. cbn [extraOf Item.x_alertThreshold JS.spread].
  now rewrite Hnone.
Qed.

Lemma batchUpdateStock_overwrites_witness :
  exists r w',
    batchUpdateStock Sample2.restock (reliable Sample.t1) Sample2.menu = (Ok [r], w') /\
    Item.stock r = 0 /\
    Item.alertThreshold r = None /\
    isLow None r = false.
Proof.
  destruct (batchUpdateStock_overwrites (reliable Sample.t1) Sample2.menu
              (mkUpdate (Some "dish_2") (Some 0) None None None None) "dish_2" 0
              (Sample.item "dish_2" 0 2) eq_refl eq_refl eq_refl ltac:(discriminate)
              eq_refl eq_refl)
    as (r & w' & E & _ & Hs & Hth & _ & _ & _ & Hlow).
  exists r, w'. split; [exact E|]. split; [exact Hs|]. split; [exact Hth|].
  exact (Hlow eq_refl).
Defined.

(** [adjustStock] on a dish that has a record. *)
Lemma adjustStock_run (io : IO) (w : World) (dishId reason : string) (D : Z)
    (cur : Item.t) :
  readFails io Inventory = false ->
  writeFails io Inventory = false ->
  find (forDish dishId) (inventory (files w)) = Some cur ->
  exists r w',
    adjustStock dishId D reason io w = (Ok r, w') /\
    find (forDish dishId) (inventory (files w')) = Some r /\
    Item.stock r = Z.max 0 (Item.stock cur + D).
Proof.
  intros Hr Hw Hcur. unfold adjustStock, getInventoryByDishId.
  unfold tryLog at 1. unfold bind at 1. unfold tryLog at 1.
  unfold bind at 1. unfold readData at 1. rewrite Hr. unfold ret at 1.
  rewrite Hcur. unfold bind at 1, clock at 1.
  destruct (updateDishStock_ok dishId (Z.max 0 (Item.stock cur + D))
              (Item.mkExtra JS.Absent JS.Absent JS.Absent JS.Absent
                 (JS.Present (Some reason)) (JS.Present (Some D))
                 (JS.Present (Some (now io)))) io w Hr Hw)
    as (r & w1 & w' & E & _ & Hs & Hf & _).
  rewrite E. exists r, w'. auto.
Qed.

(** X14.  The controller runs [validateStockOperation] before it calls
    [adjustStock].  When the check accepts, with value [v], the service
    stores exactly [v], the sum of stock and adjustment; when it
    refuses, the service, called all the same, would store 0. *)
Theorem adjustStock_after_check (io : IO) (w : World) (dishId reason : string) (D : Z)
    (cur : Item.t) :
  readFails io Inventory = false ->
  writeFails io Inventory = false ->
  find (forDish dishId) (inventory (files w)) = Some cur ->
  exists r w',
    adjustStock dishId D reason io w = (Ok r, w') /\
    match validateStockOperation (Item.stock cur) D with
    | StockValue v => Item.stock r = v /\ v = Item.stock cur + D /\ 0 <= v
    | WouldBeNegative a b c =>
        Item.stock r = 0 /\ a = Item.stock cur /\ b = D /\ c = Item.stock cur + D /\ c < 0
    end.
Proof.
  intros Hr Hw Hcur.
  destruct (adjustStock_run io w dishId reason D cur Hr Hw Hcur) as (r & w' & E & _ & Hs).
  exists r, w'. split; [exact E|]. unfold validateStockOperation.
  destruct (Z.ltb_spec (Item.stock cur + D) 0); repeat split; try lia.
Qed.

Lemma adjustStock_after_check_witness :
  exists r w',
    adjustStock "dish_1" (-3) "sold" (reliable Sample.t1) Sample2.menu = (Ok r, w') /\
    Item.stock r = 2 /\
    validateStockOperation 5 (-3) = StockValue 2 /\
    validateStockOperation 5 (-7) = WouldBeNegative 5 (-7) (-2).
Proof.
  destruct (adjustStock_after_check (reliable Sample.t1) Sample2.menu "dish_1" "sold" (-3)
              (Sample.item "dish_1" 5 5) eq_refl eq_refl eq_refl) as (r & w' & E & H).
  exists r, w'. split; [exact E|]. split; [exact (proj1 H)|]. split; reflexivity.
Defined.

(** X15.  An adjustment followed by the opposite adjustment, on a
    record with stock [S >= 0] (inventory file readable and writable):
    when [S + D >= 0] the stock is [S] again; when [S + D < 0] the
    first call stored 0 and the second leaves [- D], which is more
    than [S]: a clamped adjustment is not undone. *)
Theorem adjustStock_round_trip (io1 io2 : IO) (w : World) (dishId reason1 reason2 : string)
    (D : Z) (cur : Item.t) :
  readFails io1 Inventory = false ->
  writeFails io1 Inventory = false ->
  readFails io2 Inventory = false ->
  writeFails io2 Inventory = false ->
  find (forDish dishId) (inventory (files w)) = Some cur ->
  0 <= Item.stock cur ->
  exists r1 w1 r2 w2,
    adjustStock dishId D reason1 io1 w = (Ok r1, w1) /\
    adjustStock dishId (- D) reason2 io2 w1 = (Ok r2, w2) /\
    (0 <= Item.stock cur + D -> Item.stock r2 = Item.stock cur) /\
    (Item.stock cur + D < 0 ->
       Item.stock r1 = 0 /\ Item.stock r2 = - D /\ Item.stock cur < Item.stock r2).
Proof.
  intros Hr1 Hw1 Hr2 Hw2 Hcur Hpos.
  destruct (adjustStock_run io1 w dishId reason1 D cur Hr1 Hw1 Hcur)
    as (r1 & w1 & E1 & Hf1 & Hs1).
  destruct (adjustStock_run io2 w1 dishId reason2 (- D) r1 Hr2 Hw2 Hf1)
    as (r2 & w2 & E2 & _ & Hs2).
  exists r1, w1, r2, w2. split; [exact E1|]. split; [exact E2|]. split; intros; lia.
Qed.

Lemma adjustStock_round_trip_witness :
  exists r1 w1 r2 w2,
    adjustStock "dish_1" (-8) "spoiled" (reliable Sample.t1) Sample2.menu = (Ok r1, w1) /\
    adjustStock "dish_1" 8 "undo" (reliable Sample.t1) w1 = (Ok r2, w2) /\
    Item.stock r1 = 0 /\ Item.stock r2 = 8.
Proof.
  destruct (adjustStock_round_trip (reliable Sample.t1) (reliable Sample.t1) Sample2.menu
              "dish_1" "spoiled" "undo" (-8) (Sample.item "dish_1" 5 5)
              eq_refl eq_refl eq_refl eq_refl eq_refl ltac:(simpl; lia))
    as (r1 & w1 & r2 & w2 & E1 & E2 & _ & H).
  exists r1, w1, r2, w2. split; [exact E1|]. split; [exact E2|].
  destruct (H ltac:(simpl; lia)) as (H1 & H2 & _). split; [exact H1|exact H2].
Defined.

(** X16.  What [updateDishStock] returns is what a lookup finds next:
    with the inventory file readable and writable, [updateDishStock]
    followed by [getInventoryByDishId] for the same dish gives the
    record the update returned, and that record carries the new
    stock, whether the dish had a record before or not. *)
Theorem updateDishStock_then_lookup (io1 io2 : IO) (w : World) (dishId : string)
    (newStock : Z) (additionalData : Item.extra) :
  readFails io1 Inventory = false ->
  writeFails io1 Inventory = false ->
  readFails io2 Inventory = false ->
  exists r w1,
    updateDishStock dishId newStock additionalData io1 w = (Ok r, w1) /\
    getInventoryByDishId dishId io2 w1 = (Ok (Some r), w1) /\
    Item.dishId r = dishId /\
    Item.stock r = newStock.
Proof.
  intros Hr1 Hw1 Hr2.
  destruct (updateDishStock_ok dishId newStock additionalData io1 w Hr1 Hw1)
    as (r & w0 & w1 & E & _ & Hs & Hf & _).
  exists r, w1. split; [exact E|]. split.
  - unfold getInventoryByDishId, tryLog, bind, readData. rewrite Hr2. cbn [ret].
    now rewrite Hf.
  - split; [|exact Hs]. apply find_some in Hf. destruct Hf as [_ Hp].
    now apply String.eqb_eq in Hp.
Qed.

Lemma updateDishStock_then_lookup_witness :
  exists r w1,
    updateDishStock "dish_7" 12 Item.noExtra (reliable Sample.t1) Sample2.menu = (Ok r, w1) /\
    getInventoryByDishId "dish_7" (reliable Sample.t1) w1 = (Ok (Some r), w1) /\
    Item.dishId r = "dish_7" /\
    Item.stock r = 12.
Proof.
  exact (updateDishStock_then_lookup (reliable Sample.t1) (reliable Sample.t1) Sample2.menu
           "dish_7" 12 Item.noExtra eq_refl eq_refl eq_refl).
Defined.

End MoreStock.

Section MoreSynchronisation.
Import DataStore InventoryService.

Lemma updateFirst_dishIds (p : Item.t -> bool) (v : Z) (t : Timestamp) (l : list Item.t) :
  map Item.dishId (updateFirst p (Item.setStock v t) l) = map Item.dishId l.
Proof.
  induction l as [|a l IH]; cbn [updateFirst map]; [reflexivity|].
  destruct (p a); cbn [map]; [reflexivity|]. now rewrite IH.
Qed.

(** The loop only appends records and rewrites stocks in place. *)
Lemma sync_fold_appends (t : Timestamp) (l : list Dish.t) :
  forall inv c u,
    let '(inv', c', u') := fold_left (syncDish t) l (inv, c, u) in
    exists added,
      map Item.dishId inv' = map Item.dishId inv ++ added /\
      c' = (c + List.length added)%nat /\
      incl added (map Dish.id l) /\
      (c' + u' <= c + u + List.length l)%nat.
Proof.
  induction l as [|d l IH]; cbn [fold_left]; intros inv c u.
  - exists []. rewrite app_nil_r. cbn [List.length map].
    split; [reflexivity|]. split; [lia|]. split; [apply incl_refl|lia].
  - assert (H1 : let '(inv1, c1, u1) := syncDish t (inv, c, u) d in
                 exists a1, map Item.dishId inv1 = map Item.dishId inv ++ a1 /\
                            c1 = (c + List.length a1)%nat /\
                            incl a1 [Dish.id d] /\
                            (c1 + u1 <= c + u + 1)%nat).
    { unfold syncDish. destruct (find _ inv) as [r|].
      - destruct (negb _).
        + exists []. rewrite updateFirst_dishIds, app_nil_r. cbn [List.length].
          split; [reflexivity|]. split; [lia|]. split; [apply incl_nil_l|lia].
        + exists []. rewrite app_nil_r. cbn [List.length].
          split; [reflexivity|]. split; [lia|]. split; [apply incl_nil_l|lia].
      - exists [Dish.id d]. rewrite map_app. cbn [map List.length].
        split; [reflexivity|]. split; [lia|]. split; [apply incl_refl|lia]. }
    destruct (syncDish t (inv, c, u) d) as [[inv1 c1] u1].
    specialize (IH inv1 c1 u1).
    destruct (fold_left (syncDish t) l (inv1, c1, u1)) as [[inv2 c2] u2].
    destruct H1 as (a1 & E1 & C1 & I1 & B1), IH as (a2 & E2 & C2 & I2 & B2).
    exists (a1 ++ a2). rewrite E2, E1, <- app_assoc, length_app. cbn [map List.length].
    split; [reflexivity|]. split; [lia|]. split; [|lia].
    apply incl_app.
    + intros x Hx. apply I1 in Hx. destruct Hx as [<-|[]]. now left.
    + intros x Hx. right. now apply I2.
Qed.

(** X17.  [synchronizeInventory()] never drops or reorders a record:
    with the two files readable and the inventory file writable, the
    dish ids of the records afterwards are those before, in the same
    order, followed by one new id per record counted in [created], each
    the id of a dish; [totalInventory] is the old number of records plus
    [created]; the two counters together do not exceed the number of
    dishes; the dishes file is untouched. *)
Theorem synchronizeInventory_keeps_records (io : IO) (w : World) :
  readFails io Dishes = false ->
  readFails io Inventory = false ->
  writeFails io Inventory = false ->
  exists r w' added,
    synchronizeInventory io w = (Ok r, w') /\
    map Item.dishId (inventory (files w')) =
      map Item.dishId (inventory (files w)) ++ added /\
    List.length added = created r /\
    incl added (map Dish.id (dishes (files w))) /\
    total r = (List.length (inventory (files w)) + created r)%nat /\
    (created r + updated r <= List.length (dishes (files w)))%nat /\
    dishes (files w') = dishes (files w).
Proof.
  intros Hrd Hri Hwi.
  unfold synchronizeInventory, tryLog, bind, readData, clock. rewrite Hrd, Hri.
  pose proof (sync_fold_appends (now io) (dishes (files w)) (inventory (files w))
                0%nat 0%nat) as Happ.
  pose proof (sync_fold_counts (now io) (dishes (files w)) (inventory (files w))
                0%nat 0%nat) as Hcount.
  destruct (fold_left _ _ _) as [[inv1 c1] u1].
  destruct Happ as (added & E & C & I & B). simpl in C. subst c1.
  assert (Hlen : List.length inv1 = (List.length (inventory (files w)) + List.length added)%nat).
  { rewrite <- (length_map Item.dishId inv1), E, length_app, length_map. reflexivity. }
  destruct ((0 <? List.length added)%nat || (0 <? u1)%nat) eqn:Hch.
  - unfold writeData. rewrite Hwi. cbn [ret].
    eexists _, _, added. split; [reflexivity|].
    cbn [files inventory dishes setInventory created updated total].
    repeat split; auto; lia.
  - cbn [ret]. eexists _, _, added. split; [reflexivity|].
    cbn [created updated total].
    apply orb_false_iff in Hch. destruct Hch as [Hc Hu].
    apply Nat.ltb_ge in Hc, Hu.
    destruct Hcount as [_ Hsame].
    assert (inv1 = inventory (files w)) as Heq by (apply Hsame; lia).
    rewrite <- Heq at 1. repeat split; auto; lia.
Qed.

Lemma synchronizeInventory_keeps_records_witness :
  exists r w',
    synchronizeInventory (reliable Sample.t1) Sample.outOfStep = (Ok r, w') /\
    total r = (List.length (inventory (files Sample.outOfStep)) + created r)%nat.
Proof.
  destruct (synchronizeInventory_keeps_records (reliable Sample.t1) Sample.outOfStep
              eq_refl eq_refl eq_refl) as (r & w' & added & E & _ & _ & _ & H & _).
  exists r, w'. split; [exact E|exact H].
Defined.

End MoreSynchronisation.

Section MoreSummary.
Import DataStore SummaryOps.

Lemma healthy_count (l : list Item.t) :
  Z.of_nat (List.length l)
  - Z.of_nat (List.length (filter belowAlert l))
  - Z.of_nat (List.length (filter soldOut l))
  = Z.of_nat (List.length (filter (fun i => negb (belowAlert i) && negb (soldOut i)) l))
    - Z.of_nat (List.length (filter (fun i => belowAlert i && soldOut i) l)).
Proof.
  induction l as [|a l IH]; [reflexivity|].
  cbn [filter]. destruct (belowAlert a), (soldOut a); cbn [negb andb List.length]; lia.
Qed.

(** X18.  The [healthy] counter of [getInventorySummary()] subtracts
    the records that are out of stock and at or below their alert
    threshold twice: with both files readable it is the number of
    records that are neither low nor out of stock, minus the number of
    records that are both; where every record is both, it is minus the
    number of records. *)
Theorem getInventorySummary_healthy (io : IO) (w : World) :
  readFails io Inventory = false ->
  readFails io Dishes = false ->
  exists s,
    getInventorySummary io w = (Ok s, w) /\
    healthy (stockStatus s) =
      Z.of_nat (List.length (filter (fun i => negb (belowAlert i) && negb (soldOut i))
                               (inventory (files w))))
      - Z.of_nat (List.length (filter (fun i => belowAlert i && soldOut i)
                                 (inventory (files w)))) /\
    (Forall (fun i => belowAlert i = true /\ soldOut i = true) (inventory (files w)) ->
     healthy (stockStatus s) = - Z.of_nat (totalItems s)).
Proof.
  intros Hri Hrd. unfold getInventorySummary, tryLog, bind, readData.
  rewrite Hri, Hrd. cbn [ret]. eexists. split; [reflexivity|].
  cbn [stockStatus healthy totalItems]. split; [apply healthy_count|].
  intros Hall. rewrite healthy_count.
  induction Hall as [|a l [Ha Hb] _ IH]; [reflexivity|].
  cbn [filter]. rewrite Ha, Hb. cbn [negb andb List.length]. lia.
Qed.

Lemma getInventorySummary_healthy_witness :
  exists s,
    getInventorySummary (reliable Sample.t1) Sample2.soldOutShop = (Ok s, Sample2.soldOutShop) /\
    totalItems s = 2%nat /\
    healthy (stockStatus s) = -2.
Proof.
  destruct (getInventorySummary_healthy (reliable Sample.t1) Sample2.soldOutShop
              eq_refl eq_refl) as (s & E & _ & H).
  exists s. split; [exact E|].
  assert (Ht : totalItems s = 2%nat) by (vm_compute in E; now injection E as <-).
  split; [exact Ht|]. rewrite H; [now rewrite Ht|].
  repeat constructor.
Defined.

End MoreSummary.

(* ================================================================== *)
(** * Statistics helpers *)
(* ================================================================== *)

Section ArgMax.
Context {A : Type}.
Variable s : A -> Q.
Variable pick : A -> A -> A.
Hypothesis pick_spec :
  forall best current,
    pick best current = if negb (Qle_bool (s current) (s best)) then current else best.

(** A [reduce] that keeps the current entry only when it is strictly
    better ends on the first entry of greatest score. *)
Lemma fold_pick_first_max (rest : list A) (first : A) :
  exists before after,
    first :: rest = before ++ fold_left pick rest first :: after /\
    (forall p, In p before -> (s p < s (fold_left pick rest first))%Q) /\
    (forall p, In p after -> (s p <= s (fold_left pick rest first))%Q).
Proof.
  induction rest as [|x rest IH] using rev_ind.
  - exists [], []. cbn [fold_left app]. split; [reflexivity|]. split; intros p [].
  - destruct IH as (l1 & l2 & E & H1 & H2).
    rewrite fold_left_app. cbn [fold_left]. rewrite pick_spec.
    set (b := fold_left pick rest first) in *.
    destruct (Qle_bool (s x) (s b)) eqn:Hle; cbn [negb].
    + apply Qle_bool_iff in Hle.
      exists l1, (l2 ++ [x]). split.
      * rewrite app_comm_cons, E, <- app_assoc. reflexivity.
      * split; [exact H1|]. intros p Hp. apply in_app_or in Hp.
        destruct Hp as [Hp|[<-|[]]]; auto.
    + assert (Hlt : (s b < s x)%Q).
      { apply Qnot_le_lt. intros H. apply Qle_bool_iff in H. congruence. }
      exists (first :: rest), []. split; [now rewrite app_comm_cons|].
      split; [|intros p []].
      intros p Hp. rewrite E in Hp. apply in_app_or in Hp.
      destruct Hp as [Hp|[<-|Hp]].
      * eapply Qlt_trans; [apply H1; exact Hp|exact Hlt].
      * exact Hlt.
      * eapply Qle_lt_trans; [apply H2; exact Hp|exact Hlt].
Qed.

End ArgMax.

Section MoreStatistics.
Import JS DataStore StatsService PromotionOps ReviewOps.

(** One order in three visitors, in doubles: whatever the number of
    orders, the three roundings leave the percentage between 33.331 and
    33.334. *)
Lemma third_percent (n : Q) :
  (0 < n)%Q ->
  let c := rnd (rnd (rnd n / rnd (rnd n * 3)) * 100) in
  (0 < rnd (rnd n * 3))%Q /\ (0 < c)%Q /\ hundredths c = 3333.
Proof.
  intros Hn. pose proof (rnd_pos n Hn) as HN. set (N := rnd n) in *.
  assert (H3 : (0 < N * 3)%Q) by Lqa.lra.
  pose proof (rnd_near _ H3) as Ht. pose proof (rnd_pos _ H3) as Htp.
  set (t := rnd (N * 3)) in *.
  assert (Hu : (N / t * t == N)%Q) by (field; Lqa.lra).
  assert (Hu0 : (0 < N / t)%Q) by (apply Qlt_shift_div_l; Lqa.lra).
  set (u0 := (N / t)%Q) in *.
  assert (Hub : ((333332 # 1000000) <= u0 <= (333334 # 1000000))%Q).
  { destruct Ht. split; Lqa.nra. }
  pose proof (rnd_near _ Hu0) as Hv. set (u := rnd u0) in *.
  assert (Hw0 : (0 < u * 100)%Q) by Lqa.lra.
  pose proof (rnd_near _ Hw0) as Hc. cbv zeta. set (c := rnd (u * 100)) in *.
  assert (Hcb : ((33331 # 1000) <= c <= (33334 # 1000))%Q)
    by (destruct Hv, Hc; split; Lqa.nra).
  split; [exact Htp|]. split; [Lqa.lra|].
  unfold hundredths. rewrite (Qabs_pos c) by Lqa.lra.
  pose proof (Qfloor_le (c * 100 + (1 # 2))) as F1.
  pose proof (Qlt_floor (c * 100 + (1 # 2))) as F2.
  rewrite inject_Z_plus in F2. change (inject_Z 1) with 1%Q in F2.
  set (f := Qfloor (c * 100 + (1 # 2))) in *.
  assert (3333 < f + 1).
  { rewrite Zlt_Qlt, inject_Z_plus. change (inject_Z 3333) with 3333%Q.
    change (inject_Z 1) with 1%Q. Lqa.lra. }
  assert (f < 3333 + 1).
  { rewrite Zlt_Qlt. change (inject_Z (3333 + 1)) with 3334%Q. Lqa.lra. }
  lia.
Qed.

(** X19.  [calculateConversionRate] does not depend on the number of
    orders: it is the string "33.33" whenever [todayOrders] is
    positive, and the number 0 otherwise. *)
Theorem calculateConversionRate_constant (orderStats : Orders.stats) :
  ((0 < Orders.todayOrders orderStats)%Q ->
     calculateConversionRate orderStats = VStr "33.33") /\
  (~ (0 < Orders.todayOrders orderStats)%Q ->
     calculateConversionRate orderStats = VNum zero).
Proof.
  unfold calculateConversionRate. set (n := Orders.todayOrders orderStats).
  split; intros Hn.
  - assert (Hg : gtb (lit n) zero = true) by (apply gtb_lit_zero; exact Hn).
    rewrite Hg. f_equal.
    destruct (third_percent n Hn) as (Ht & Hc & Hh). cbv zeta in Hc, Hh.
    change (lit 3) with (Fin 3). change (lit 100) with (Fin 100).
    unfold lit, mul at 2, div.
    destruct (Qeq_bool (rnd (rnd n * 3)) 0) eqn:E0.
    { apply Qeq_bool_iff in E0. rewrite E0 in Ht. discriminate. }
    unfold mul, toFixed2. rewrite Hh.
    destruct (Qnum _ <? 0) eqn:Es; [|reflexivity].
    apply Qnum_neg_iff in Es. Lqa.lra.
  - assert (Hg : gtb (lit n) zero = false) by (apply gtb_lit_zero_false; exact Hn).
    now rewrite Hg.
Qed.

Lemma calculateConversionRate_constant_witness :
  calculateConversionRate Sample.orders = VStr "33.33" /\
  calculateConversionRate Sample.noOrders = VNum zero.
Proof.
  split.
  - apply (proj1 (calculateConversionRate_constant Sample.orders)). reflexivity.
  - apply (proj2 (calculateConversionRate_constant Sample.noOrders)). discriminate.
Defined.

(** X20.  [findBestPerformingPromotion] returns [null] on the empty
    array only; otherwise it returns an entry of the array, the first
    one of greatest [totalRevenue * conversionRate - discountGiven]:
    every entry before it scores strictly less, no entry after it
    scores more. *)
Theorem findBestPerformingPromotion_first_max (promotions : list Promotion.t) :
  match findBestPerformingPromotion promotions with
  | None => promotions = []
  | Some best =>
      exists before after,
        promotions = before ++ best :: after /\
        (forall p, In p before -> gtb (performance best) (performance p) = true) /\
        (forall p, In p after -> gtb (performance p) (performance best) = false)
  end.
Proof.
  destruct promotions as [|first rest]; [reflexivity|].
  cbn [findBestPerformingPromotion].
  destruct (fold_pick_first_max
              (fun p => rnd (rnd (rnd (Promotion.totalRevenue p)
                                  * rnd (Promotion.conversionRate p))
                             - rnd (Promotion.discountGiven p)))
              betterPromotion (fun _ _ => eq_refl) rest first)
    as (before & after & E & H1 & H2).
  exists before, after. split; [exact E|]. split.
  - intros p Hp. apply gtb_Fin. apply H1. exact Hp.
  - intros p Hp. apply gtb_Fin_false. apply Qle_not_lt. apply H2. exact Hp.
Qed.

(** [Math.min(x, 100)] of a number that is finite or [Infinity]. *)
Lemma min_cap (x : num) :
  x = PInf \/ (exists q, x = Fin q) ->
  exists q, min x (lit 100) = Fin q /\ (q <= 100)%Q.
Proof.
  change (lit 100) with (Fin 100). intros [->|[q ->]].
  - exists 100%Q. split; [reflexivity|discriminate].
  - unfold min. destruct (gtb (Fin q) (Fin 100)) eqn:E.
    + exists 100%Q. split; [reflexivity|discriminate].
    + exists q. split; [reflexivity|]. apply gtb_Fin_false in E.
      now apply Qnot_lt_le.
Qed.

(** [Math.min(totalOrders / 10, 20)] is a finite number. *)
Lemma volumeScore_finite (o : Q) :
  exists v, min (div (lit o) (lit 10)) (lit 20) = Fin v.
Proof.
  change (lit 10) with (Fin 10). change (lit 20) with (Fin 20).
  unfold lit, div. change (Qeq_bool 10 0) with false. cbv iota. unfold min.
  destruct (gtb _ _); eauto.
Qed.

(** X21.  The number [calculateEffectivenessScore] formats is always
    finite and at most 100, never [NaN] or [Infinity], also when
    [discountGiven] is 0 and the return on investment is infinite. *)
Theorem calculateEffectivenessScore_capped (promotion : Promotion.t) :
  exists q,
    effectiveness promotion = Fin q /\
    (q <= 100)%Q /\
    calculateEffectivenessScore promotion = toFixed2 (Fin q).
Proof.
  unfold calculateEffectivenessScore.
  enough (H : exists q, effectiveness promotion = Fin q /\ (q <= 100)%Q).
  { destruct H as (q & E & Hq). exists q. rewrite E. auto. }
  unfold effectiveness. cbv zeta. apply min_cap.
  destruct (volumeScore_finite (Promotion.totalOrders promotion)) as [v ->].
  change (lit 100) with (Fin 100). change (lit 10) with (Fin 10).
  set (r := rnd (Promotion.totalRevenue promotion)).
  set (d := rnd (Promotion.discountGiven promotion)).
  unfold lit. fold r d. unfold mul at 1.
  destruct (gtb (Fin r) (Fin d)) eqn:Hg.
  - unfold sub, div. destruct (Qeq_bool d 0) eqn:Hd.
    + left. apply gtb_Fin in Hg.
      rewrite inf_of_positive; [reflexivity|].
      apply rnd_pos. Lqa.lra.
    + right. unfold mul, add. eauto.
  - right. unfold zero, mul, add. eauto.
Qed.

(** X22.  A promotion with positive revenue and no discount given gets
    the full score: [calculateEffectivenessScore] returns "100.00",
    whatever its conversion rate and number of orders. *)
Theorem calculateEffectivenessScore_no_discount (promotion : Promotion.t) :
  (Promotion.discountGiven promotion == 0)%Q ->
  (0 < Promotion.totalRevenue promotion)%Q ->
  calculateEffectivenessScore promotion = "100.00".
Proof.
  intros Hd Hr. unfold calculateEffectivenessScore.
  enough (H : effectiveness promotion = Fin 100) by (rewrite H; reflexivity).
  unfold effectiveness. cbv zeta.
  destruct (volumeScore_finite (Promotion.totalOrders promotion)) as [v ->].
  change (lit 100) with (Fin 100). change (lit 10) with (Fin 10).
  apply rnd_pos in Hr. apply rnd_zero in Hd.
  set (r := rnd (Promotion.totalRevenue promotion)) in *.
  set (d := rnd (Promotion.discountGiven promotion)) in *.
  unfold lit. fold r d. unfold mul at 1.
  assert (Hg : gtb (Fin r) (Fin d) = true) by (apply gtb_Fin; Lqa.lra).
  rewrite Hg. unfold sub, div.
  assert (Hz : Qeq_bool d 0 = true) by (apply Qeq_bool_iff; exact Hd).
  rewrite Hz. rewrite inf_of_positive; [reflexivity|].
  apply rnd_pos. Lqa.lra.
Qed.

Lemma calculateEffectivenessScore_no_discount_witness :
  calculateEffectivenessScore (Sample.promo "promo_2" 800 0) = "100.00".
Proof.
  apply calculateEffectivenessScore_no_discount; reflexivity.
Defined.

(** X23.  [calculatePromotionEffectiveness] guards its division by the
    divisor: read as a number, its result is always finite. *)
Theorem calculatePromotionEffectiveness_finite (promotionStats : Promotion.stats) :
  isFinite (parseFloatOf (calculatePromotionEffectiveness promotionStats)) = true.
Proof.
  unfold calculatePromotionEffectiveness. cbv zeta.
  destruct (Qeq_bool _ 0); [reflexivity|].
  cbn [parseFloatOf]. rewrite parseFloat_toFixed2.
  change (lit 100) with (Fin 100). change (lit 10) with (Fin 10).
  set (d := Promotion.totalDiscountGiven (Promotion.overallStats promotionStats)).
  destruct (gtb (lit d) zero) eqn:Hg.
  - apply gtb_lit_zero in Hg. apply rnd_pos in Hg. unfold lit, sub, div.
    destruct (Qeq_bool (rnd d) 0) eqn:Hd.
    { apply Qeq_bool_iff in Hd. rewrite Hd in Hg. discriminate. }
    reflexivity.
  - reflexivity.
Qed.


(** X25.  With the two files readable, [getOrderStatistics] keeps every
    entry of [topDishes], in order, also those whose dish is unknown:
    such an entry is named "Unknown Dish", with price 0 and category
    [null]. *)
Theorem getOrderStatistics_top_dishes (io : IO) (w : World) :
  readFails io OrdersStats = false ->
  readFails io Dishes = false ->
  exists r,
    getOrderStatistics io w = (Ok r, w) /\
    map TopDish.entry (topDishes r) = Orders.topDishes (ordersStats (files w)) /\
    Forall (fun e =>
              match findById (dishes (files w)) (TopDish.dishId (TopDish.entry e)) with
              | Some dish =>
                  TopDish.dishName e = Dish.name dish /\
                  TopDish.categoryId e = Some (Dish.categoryId dish)
              | None =>
                  TopDish.dishName e = "Unknown Dish" /\
                  TopDish.dishPrice e = 0%Q /\
                  TopDish.categoryId e = None
              end)
           (topDishes r).
Proof.
  intros Hro Hrd. unfold getOrderStatistics, tryLog, bind, readData.
  rewrite Hro, Hrd. cbn [ret]. eexists. split; [reflexivity|]. cbn [topDishes].
  split.
  - induction (Orders.topDishes (ordersStats (files w))) as [|t l IH]; [reflexivity|].
    cbn [map]. rewrite IH. f_equal. unfold enrichTopDish.
    destruct (findById _ _); reflexivity.
  - apply Forall_forall. intros e He. apply in_map_iff in He.
    destruct He as (t & <- & _). unfold enrichTopDish.
    destruct (findById (dishes (files w)) (TopDish.dishId t)) as [dish|] eqn:Hf;
      cbn [TopDish.entry TopDish.dishName TopDish.dishPrice TopDish.categoryId];
      rewrite Hf; auto.
Qed.

Lemma getOrderStatistics_top_dishes_witness :
  exists r,
    getOrderStatistics (reliable Sample.t1) Sample.shopWithStats
      = (Ok r, Sample.shopWithStats) /\
    map TopDish.entry (topDishes r)
      = Orders.topDishes (ordersStats (files Sample.shopWithStats)).
Proof.
  destruct (getOrderStatistics_top_dishes (reliable Sample.t1) Sample.shopWithStats
              eq_refl eq_refl) as (r & E & H & _).
  exists r. split; [exact E|exact H].
Defined.

Lemma byRating_total (x y : DishReview.t) : byRating x y = false -> byRating y x = true.
Proof.
  unfold byRating. intros H. apply Qle_bool_iff.
  apply Qlt_le_weak. apply Qnot_le_lt. intros Hle. apply Qle_bool_iff in Hle. congruence.
Qed.

Lemma byRating_trans (x y z : DishReview.t) :
  byRating x y = true -> byRating y z = true -> byRating x z = true.
Proof.
  unfold byRating. rewrite !Qle_bool_iff. apply Qle_trans.
Qed.

Lemma sorted_split {A} (R : A -> A -> Prop) (l1 l2 : list A) :
  StronglySorted R (l1 ++ l2) ->
  StronglySorted R l1 /\ forall a b, In a l1 -> In b l2 -> R a b.
Proof.
  induction l1 as [|x l1 IH]; cbn [app]; intros H.
  - split; [constructor|]. intros a b [].
  - inversion H as [|? ? Hs Hall]; subst. destruct (IH Hs) as [IH1 IH2].
    rewrite Forall_app in Hall. destruct Hall as [Ha1 Ha2]. split.
    + constructor; assumption.
    + intros a b [<-|Ha] Hb; [|now apply IH2].
      rewrite Forall_forall in Ha2. now apply Ha2.
Qed.

(** X26.  [findDishesNeedingImprovement] returns at most five dishes,
    by ascending rating; they and the dishes left out are together the
    dishes rated below 4.0 or reviewed less than 10 times, and no dish
    left out is rated lower than a dish returned. *)
Theorem findDishesNeedingImprovement_lowest (dishReviews : list DishReview.t) :
  let result := findDishesNeedingImprovement dishReviews in
  List.length result = Nat.min 5 (List.length (filter needsImprovement dishReviews)) /\
  StronglySorted
    (fun a b => (DishReview.averageRating a <= DishReview.averageRating b)%Q) result /\
  exists rest,
    Permutation (result ++ rest) (filter needsImprovement dishReviews) /\
    forall a b, In a result -> In b rest ->
      (DishReview.averageRating a <= DishReview.averageRating b)%Q.
Proof.
  cbv zeta. unfold findDishesNeedingImprovement.
  set (cands := filter needsImprovement dishReviews).
  pose proof (sortBy_perm byRating cands) as Hperm.
  pose proof (sortBy_sorted byRating byRating_total byRating_trans cands) as Hsorted.
  set (sorted := Sorting.sortBy byRating cands) in *.
  rewrite <- (firstn_skipn 5 sorted) in Hsorted.
  apply sorted_split in Hsorted. destruct Hsorted as [Hs Hcut].
  split.
  - rewrite length_firstn. rewrite (Permutation_length Hperm). reflexivity.
  - split.
    + clear -Hs. induction Hs as [|a l _ IH Hall]; constructor; auto.
      eapply Forall_impl; [|exact Hall]. intros b Hb. simpl in Hb.
      now apply Qle_bool_iff in Hb.
    + exists (skipn 5 sorted). split.
      * rewrite firstn_skipn. now apply Permutation_sym.
      * intros a b Ha Hb. apply Qle_bool_iff. exact (Hcut a b Ha Hb).
Qed.

Example findDishesNeedingImprovement_sample :
  map DishReview.dishId (findDishesNeedingImprovement Sample2.reviews)
  = ["dish_4"; "dish_2"; "dish_3"].
Proof. reflexivity. Qed.

(** X27.  With the two files readable, the [averageOrderValue] of the
    analytics of a promotion is always finite, since its guard is on
    its divisor.  When [totalOrders] is positive it is the value [x] of
    [totalRevenue / totalOrders] in double arithmetic (the rational
    quotient up to a relative error of 2^-53) rounded to two decimals:
    the multiple of 1/100 nearest to [x], as a double.  Otherwise it is
    the number 0. *)
Theorem getPromotionAnalytics_average_order_value (io : IO) (w : World)
    (promotionId : string) (p : Promotion.t) (active : bool) :
  readFails io PromotionsStats = false ->
  readFails io Dishes = false ->
  findPromotion (promotionsStats (files w)) promotionId = Some (p, active) ->
  exists r,
    getPromotionAnalytics promotionId io w = (Ok (Some r), w) /\
    isFinite (promotionAverageOrderValue (analytics r)) = true /\
    let totalRevenue := rnd (Promotion.totalRevenue p) in
    let totalOrders := rnd (Promotion.totalOrders p) in
    ((0 < Promotion.totalOrders p)%Q ->
       exists x,
         div (Fin totalRevenue) (Fin totalOrders) = Fin x /\
         within (1 # 2 ^ 53) x (totalRevenue / totalOrders) /\
         rounded2 x (promotionAverageOrderValue (analytics r))) /\
    (~ (0 < Promotion.totalOrders p)%Q ->
       promotionAverageOrderValue (analytics r) = Fin 0).
Proof.
  intros Hrp Hrd Hfound. unfold getPromotionAnalytics, tryLog, bind, readData.
  rewrite Hrp, Hrd, Hfound. cbn [ret]. eexists. split; [reflexivity|].
  cbn [analytics promotionAverageOrderValue]. cbv zeta.
  set (o := Promotion.totalOrders p). set (tr := Promotion.totalRevenue p).
  destruct (gtb (lit o) zero) eqn:Hg.
  - apply gtb_lit_zero in Hg. cbn [parseFloatOf].
    assert (Hne : ~ (rnd o == 0)%Q).
    { rewrite rnd_zero. intros E. rewrite E in Hg. discriminate. }
    destruct (quotient (rnd tr) (rnd o) Hne) as (x & Ex & Hx).
    unfold lit. rewrite Ex. split.
    + rewrite parseFloat_toFixed2. reflexivity.
    + split; [|intros Hn; contradiction].
      intros _. exists x. split; [reflexivity|]. split; [exact Hx|]. apply read_fixed.
  - apply gtb_lit_zero_false in Hg. cbn [parseFloatOf]. split; [reflexivity|].
    split; [intros Hp; contradiction|reflexivity].
Qed.

Lemma getPromotionAnalytics_average_order_value_witness :
  exists r,
    getPromotionAnalytics "promo_1" (reliable Sample.t1) Sample.shopWithStats
      = (Ok (Some r), Sample.shopWithStats) /\
    rounded2 (75 # 2) (promotionAverageOrderValue (analytics r)).
Proof.
  destruct (getPromotionAnalytics_average_order_value (reliable Sample.t1)
              Sample.shopWithStats "promo_1" (Sample.promo "promo_1" 1500 300) true
              eq_refl eq_refl eq_refl) as (r & E & _ & H & _).
  exists r. split; [exact E|].
  destruct (H eq_refl) as (x & Ex & _ & Hx).
  vm_compute in Ex. injection Ex as <-. exact Hx.
Defined.

(** Revenue 3 over 40 orders: 0.075 is not a double, the quotient comes
    out just below it, and the average order value is 0.07. *)
Example getPromotionAnalytics_average_order_value_near_tie :
  exists r,
    getPromotionAnalytics "promo_5" (reliable Sample.t1) Sample2.smallOrders
      = (Ok (Some r), Sample2.smallOrders) /\
    promotionAverageOrderValue (analytics r) = lit (7 # 100).
Proof. eexists. split; reflexivity. Qed.

End MoreStatistics.

(* ================================================================== *)
(** * Lookups of the data store *)
(* ================================================================== *)

Section MoreLookups.
Import DataStore.
Context {A : Type} `{HasId A}.

(** X28.  [findIndexById] and [findById] agree: when the index is not
    -1 it is inside the array, the entry there is the one [findById]
    returns, it carries the id, and no entry before it does; when the
    index is -1, [findById] returns [null] and no entry carries the
    id. *)
Theorem findIndexById_agrees (data : list A) (id : string) :
  match findIndexById data id with
  | Some i =>
      (i < List.length data)%nat /\
      (exists x, nth_error data i = Some x /\ findById data id = Some x /\ getId x = id) /\
      (forall j y, (j < i)%nat -> nth_error data j = Some y -> getId y <> id)
  | None =>
      findById data id = None /\ forall y, In y data -> getId y <> id
  end.
Proof.
  unfold findIndexById, findById.
  induction data as [|a l IH]; cbn [findIndex find].
  - split; [reflexivity|]. intros y [].
  - destruct (String.eqb (getId a) id) eqn:Ha.
    + split; [cbn [List.length]; lia|]. split.
      * exists a. split; [reflexivity|]. split; [reflexivity|].
        now apply String.eqb_eq.
      * intros j y Hj. lia.
    + apply String.eqb_neq in Ha.
      destruct (findIndex _ l) as [i|]; cbn [option_map].
      * destruct IH as (Hlt & (x & Hx & Hf & Hid) & Hbefore).
        split; [cbn [List.length]; lia|]. split.
        -- exists x. cbn [nth_error]. auto.
        -- intros [|j] y Hj; cbn [nth_error].
           ++ intros [= <-]. exact Ha.
           ++ apply Hbefore. lia.
      * destruct IH as [Hf Hall]. split; [exact Hf|].
        intros y [<-|Hy]; auto.
Qed.

End MoreLookups.
